(** * The media-analysis scripts: a shallow embedding and its properties

    The repository holds four stand-alone Python scripts:

    - [app/ingest/transcribe_diarize.py]       (module [Transcribe])
    - [app/documents/doc_ingest_chunk_embed.py] (module [DocIngest])
    - [app/context-box/live_context_box.py]     (module [LiveContext])
    - [app/post-analysis/adversarial_analysis.py] (module [Adversarial])

    Module [Py] holds the pieces of Python the scripts rely on: strings,
    slices, JSON-like values and the outcome of a computation that may
    raise or call [sys.exit].  Text is a sequence of code points below
    256 (a Rocq [string], read as Latin-1), which is the range in which
    [str.split], [str.strip], [str.lower] and the regular-expression
    classes used by the scripts are tabulated here.  A character
    beyond this range occurs only at the head of messages that are
    printed or returned as they are, and stands there as the bytes of
    its UTF-8 encoding.  An [int] is written out whatever its size:
    the limit that CPython, from version 3.11 on, puts on the digits of
    such a conversion is taken to be lifted.  The [__main__]
    blocks (argument parsing, the test that the input file exists) are
    left out: the functions they call are the entry points here. *)

From Stdlib Require Import ZArith NArith Ascii String Lia Sorting.Sorted.
From stdpp Require Import base list gmap strings sorting pretty.

#[local] Set Warnings "-clear-no-such-hyp".

Local Open Scope string_scope.
Local Open Scope list_scope.
Local Open Scope Z_scope.

(** ** Python primitives *)
Module Py.

(** *** Characters *)

Definition code (c : ascii) : N := N_of_ascii c.

Definition between (lo hi : N) (c : ascii) : bool :=
  ((lo <=? code c) && (code c <=? hi))%N.

(** [str.isspace] for one character: TAB..CR, FS..US, SPACE, NEL, NBSP. *)
Definition is_space (c : ascii) : bool :=
  between 9 13 c || between 28 32 c || (code c =? 133)%N || (code c =? 160)%N.

Definition is_upper_ascii (c : ascii) : bool := between 65 90 c.
Definition is_lower_ascii (c : ascii) : bool := between 97 122 c.
Definition is_digit_ascii (c : ascii) : bool := between 48 57 c.

(** The regular-expression class [[a-zA-Z]]. *)
Definition is_letter (c : ascii) : bool := is_upper_ascii c || is_lower_ascii c.

(** Letters of the Latin-1 supplement: [str.isalpha] above 127. *)
Definition is_latin1_alpha (c : ascii) : bool :=
  (code c =? 170)%N || (code c =? 181)%N || (code c =? 186)%N
  || between 192 214 c || between 216 246 c || between 248 255 c.

(** Digits and fractions of the Latin-1 supplement
    ([str.isdigit] or [str.isnumeric] above 127). *)
Definition is_latin1_numeric (c : ascii) : bool :=
  (code c =? 178)%N || (code c =? 179)%N || (code c =? 185)%N
  || between 188 190 c.

(** The class [\w] of [re] on [str] patterns: alphanumeric or underscore. *)
Definition is_word_char (c : ascii) : bool :=
  is_letter c || is_digit_ascii c || (code c =? 95)%N
  || is_latin1_alpha c || is_latin1_numeric c.

(** [str.lower] on one character: [A-Z] and the upper-case letters of the
    Latin-1 supplement move up by 32. *)
Definition lower_char (c : ascii) : ascii :=
  if is_upper_ascii c || between 192 214 c || between 216 222 c
  then ascii_of_N (code c + 32)
  else c.

(** *** Strings *)

Fixpoint lower (s : string) : string :=
  match s with
  | EmptyString => EmptyString
  | String c s' => String (lower_char c) (lower s')
  end.

Fixpoint all_chars (p : ascii -> bool) (s : string) : bool :=
  match s with
  | EmptyString => true
  | String c s' => p c && all_chars p s'
  end.

Fixpoint lstrip (s : string) : string :=
  match s with
  | EmptyString => EmptyString
  | String c s' => if is_space c then lstrip s' else s
  end.

Fixpoint rstrip (s : string) : string :=
  match s with
  | EmptyString => EmptyString
  | String c s' =>
      match rstrip s' with
      | EmptyString => if is_space c then EmptyString else String c EmptyString
      | r => String c r
      end
  end.

(** [s.strip()] *)
Definition strip (s : string) : string := rstrip (lstrip s).

(** The line feed. *)
Definition nl : string := String "010" EmptyString.

(** Truth value of a [str]: non-empty. *)
Definition str_truthy (s : string) : bool :=
  match s with EmptyString => false | _ => true end.

(** The word collected so far (most recent character first) becomes a
    word of the result unless it is empty. *)
Definition flush (acc : list ascii) : list string :=
  match acc with
  | [] => []
  | _ => [string_of_list_ascii (rev acc)]
  end.

Fixpoint split_acc (acc : list ascii) (s : string) : list string :=
  match s with
  | EmptyString => flush acc
  | String c s' =>
      if is_space c then flush acc ++ split_acc [] s'
      else split_acc (c :: acc) s'
  end.

(** [s.split()]: the maximal runs of non-whitespace characters. *)
Definition split (s : string) : list string := split_acc [] s.

(** [sep.join(ws)] *)
Definition join (sep : string) (ws : list string) : string := String.concat sep ws.

(** [os.path.splitext(path)[1]] on a POSIX path: the extension starts at
    the last dot of the last path component, leading dots of that
    component apart. *)
Fixpoint has_char (c : ascii) (s : string) : bool :=
  match s with
  | EmptyString => false
  | String a s' => Ascii.eqb a c || has_char c s'
  end.

Fixpoint after_last (c : ascii) (s : string) : string :=
  match s with
  | EmptyString => EmptyString
  | String a s' =>
      if has_char c s' then after_last c s'
      else if Ascii.eqb a c then s' else s
  end.

Fixpoint drop_dots (s : string) : string :=
  match s with
  | String "." s' => drop_dots s'
  | _ => s
  end.

Definition splitext_ext (path : string) : string :=
  let name := drop_dots (after_last "/" path) in
  if has_char "." name then String "." (after_last "." name) else EmptyString.

(** *** Slices *)

(** How a slice bound [i] is clamped for a sequence of length [n]. *)
Definition slice_index (n i : Z) : Z :=
  if i <? 0 then Z.max (i + n) 0 else Z.min i n.

(** [l[start:stop]] *)
Definition slice {A} (l : list A) (start stop : Z) : list A :=
  let n := Z.of_nat (List.length l) in
  let lo := slice_index n start in
  let hi := slice_index n stop in
  take (Z.to_nat (hi - lo)) (drop (Z.to_nat lo) l).

(** [l[:stop]] *)
Definition slice_to {A} (l : list A) (stop : Z) : list A :=
  take (Z.to_nat (slice_index (Z.of_nat (List.length l)) stop)) l.

(** *** Values

    What [json.load] yields and [json.dumps] accepts.  A [float] is an
    IEEE-754 double, held as its 64-bit pattern.  A [dict] keeps its
    items in insertion order; a lookup takes the first item of a key. *)

Inductive float64 := FloatBits (bits : Z).

#[local] Set Warnings "-register-all".
Inductive value :=
| VNone
| VBool (b : bool)
| VInt (z : Z)
| VFloat (f : float64)
| VStr (s : string)
| VList (l : list value)
| VDict (d : list (string * value)).
#[local] Set Warnings "register-all".

(** [f == 0.0], for either sign of zero. *)
Definition float_is_zero (f : float64) : bool :=
  let 'FloatBits b := f in Z.land b (2 ^ 63 - 1) =? 0.

(** The fields of a double: sign, biased exponent and fraction. *)
Definition float_bits (f : float64) : Z := let 'FloatBits b := f in b mod 2 ^ 64.
Definition float_negative (f : float64) : bool := 2 ^ 63 <=? float_bits f.
Definition float_exponent (f : float64) : Z := float_bits f / 2 ^ 52 mod 2 ^ 11.
Definition float_fraction (f : float64) : Z := float_bits f mod 2 ^ 52.

(** Neither an infinity nor a NaN. *)
Definition float_finite (f : float64) : bool := float_exponent f <? 2047.

(** The magnitude of a finite double, which is a whole number of units
    of [2 ^ -1074]. *)
Definition float_units (f : float64) : Z :=
  if float_exponent f =? 0 then float_fraction f
  else (2 ^ 52 + float_fraction f) * 2 ^ (float_exponent f - 1).

(** The double of a sign and of a magnitude that a double can have
    (an infinity for a magnitude out of range). *)
Definition float_of_units (negative : bool) (u : Z) : float64 :=
  let j := Z.max 0 (Z.log2 u - 52) in
  let e := if u <? 2 ^ 52 then 0 else j + 1 in
  let fraction := if u <? 2 ^ 52 then u else u / 2 ^ j - 2 ^ 52 in
  FloatBits ((if negative then 2 ^ 63 else 0)
             + (if e <=? 2046 then e * 2 ^ 52 + fraction else 2047 * 2 ^ 52)).

(** The integer nearest to [a / b], the even one of two that are
    equally near. *)
Definition div_half_even (a b : Z) : Z :=
  let q := a / b in
  let r := a mod b in
  if 2 * r <? b then q
  else if b <? 2 * r then q + 1
  else if Z.even q then q else q + 1.

(** The magnitude of the double nearest to [p / (q * 2 ^ 1074)], as a
    number of units. *)
Definition nearest_units (p q : Z) : Z :=
  let j := Z.max 0 (Z.log2 (p / q) - 52) in
  div_half_even p (q * 2 ^ j) * 2 ^ j.

(** [float.__round__(ndigits)] of CPython, for [ndigits] from 0 on:
    the decimal number of [ndigits] decimals nearest to the double (an
    even last digit among two that are equally near), and then the
    double nearest to this decimal number.  The sign stays; an infinity
    and a NaN are returned as they are. *)
Definition double_round (f : float64) (ndigits : Z) : float64 :=
  if float_finite f then
    let scale := 10 ^ ndigits in
    let k := div_half_even (float_units f * scale) (2 ^ 1074) in
    float_of_units (float_negative f) (nearest_units (k * 2 ^ 1074) scale)
  else f.

(** [float(z)] raises [OverflowError] for an [int] whose nearest double
    is out of range: half a step beyond the largest double, which is
    [2 ^ 1024 - 2 ^ 971]. *)
Definition int_overflows_float (z : Z) : bool := 2 ^ 1024 - 2 ^ 970 <=? Z.abs z.

(** The truth value of an object, as [if v] and [not v] take it. *)
Definition truthy (v : value) : bool :=
  match v with
  | VNone => false
  | VBool b => b
  | VInt z => negb (z =? 0)
  | VFloat f => negb (float_is_zero f)
  | VStr s => str_truthy s
  | VList l => match l with [] => false | _ => true end
  | VDict d => match d with [] => false | _ => true end
  end.

Fixpoint lookup_key (k : string) (d : list (string * value)) : option value :=
  match d with
  | [] => None
  | (k', v) :: d' => if String.eqb k k' then Some v else lookup_key k d'
  end.

Definition keys (d : list (string * value)) : list string := map fst d.

(** The characters of a string, each a string of length one. *)
Fixpoint chars (s : string) : list value :=
  match s with
  | EmptyString => []
  | String c s' => VStr (String c EmptyString) :: chars s'
  end.

(** *** Outcomes and effects *)

(** The exceptions that occur; all of them derive from [Exception]. *)
Inductive exn :=
| TypeError | AttributeError | KeyError | IndexError | ValueError
| OverflowError | OSError | ImportError | JSONDecodeError
| ConnectionError            (* raised by [requests.get] / [requests.post] *)
| HTTPError (status : Z).    (* raised by [raise_for_status] *)

(** A computation returns, raises an exception, or leaves the process
    through [sys.exit] ([SystemExit] is no [Exception]: an
    [except Exception] clause lets it pass). *)
Inductive outcome (A : Type) :=
| Ret (a : A)
| Raise (e : exn)
| Exit (status : Z).
Arguments Ret {A} a.
Arguments Raise {A} e.
Arguments Exit {A} status.

(** What a call into the outside world yields. *)
Inductive attempt (A : Type) :=
| Done (a : A)
| Failed (e : exn).
Arguments Done {A} a.
Arguments Failed {A} e.

Inductive verb := GET | POST.

(** An HTTP request; [payload] is the [json=] body of a POST or the
    [params=] of a GET. *)
Record request := Request {
  method : verb;
  url : string;
  headers : list (string * string);
  payload : value
}.

(** An HTTP response; [body = None] when the body is no JSON document,
    so that [response.json()] raises. *)
Record response := Response {
  status_code : Z;
  body : option value
}.

(** A line on standard output: plain text or the result of [json.dumps]
    (the layout that [indent=] chooses is not recorded).  Diagnostics on
    standard error are not part of the model. *)
Inductive output :=
| Text (s : string)
| Json (v : value).

(** The outside world of a run: the environment variables (after
    [load_dotenv]), the HTTP services, whose answer may depend on the
    requests sent before, and the files read. *)
Record world := World {
  environ : string -> option string;
  http : list request -> request -> attempt response;
  json_file : string -> attempt value;   (* [open] then [json.load] *)
  text_file : string -> attempt string;  (* [open] then [f.read()] *)
  create_file : string -> attempt unit   (* [open(path, "w")] *)
}.

(** What a run has done so far. *)
Record state := State {
  sent : list request;                   (* requests, oldest first *)
  stdout : list output;                  (* lines printed, oldest first *)
  written : list (string * value)        (* [json.dump] to a path *)
}.

Definition initial : state := {| sent := []; stdout := []; written := [] |}.

Definition M (A : Type) : Type := state -> outcome A * state.

#[global] Instance M_ret : MRet M := fun A a st => (Ret a, st).

#[global] Instance M_bind : MBind M := fun A B f m st =>
  match m st with
  | (Ret a, st') => f a st'
  | (Raise e, st') => (Raise e, st')
  | (Exit c, st') => (Exit c, st')
  end.

Definition raise {A} (e : exn) : M A := fun st => (Raise e, st).

(** [sys.exit(status)] *)
Definition exit {A} (status : Z) : M A := fun st => (Exit status, st).

Definition lift {A} (o : outcome A) : M A := fun st => (o, st).

Definition attempted {A} (a : attempt A) : M A :=
  match a with
  | Done x => mret x
  | Failed e => raise e
  end.

(** [try: m  except Exception as e: handler(e)] *)
Definition try_except {A} (m : M A) (handler : exn -> M A) : M A := fun st =>
  match m st with
  | (Raise e, st') => handler e st'
  | r => r
  end.

(** [try: m  except ImportError: handler] *)
Definition try_except_import {A} (m : M A) (handler : M A) : M A := fun st =>
  match m st with
  | (Raise ImportError, st') => handler st'
  | r => r
  end.

(** The state after a request, a line on standard output, a file. *)
Definition sending (r : request) (st : state) : state :=
  {| sent := sent st ++ [r]; stdout := stdout st; written := written st |}.

Definition printing (line : output) (st : state) : state :=
  {| sent := sent st; stdout := stdout st ++ [line]; written := written st |}.

Definition writing (path : string) (v : value) (st : state) : state :=
  {| sent := sent st; stdout := stdout st; written := written st ++ [(path, v)] |}.

(** [print(line)] *)
Definition print (line : output) : M unit := fun st => (Ret tt, printing line st).

(** [with open(path, "w") as f: json.dump(v, f, ...)] *)
Definition dump_json (w : world) (path : string) (v : value) : M unit := fun st =>
  match create_file w path with
  | Done _ => (Ret tt, writing path v st)
  | Failed e => (Raise e, st)
  end.

(** [requests.get(...)] / [requests.post(...)] *)
Definition send (w : world) (r : request) : M response := fun st =>
  match http w (sent st) r with
  | Done resp => (Ret resp, sending r st)
  | Failed e => (Raise e, sending r st)
  end.

(** [response.raise_for_status()] *)
Definition raise_for_status (r : response) : M unit :=
  if (400 <=? status_code r) && (status_code r <? 600)
  then raise (HTTPError (status_code r))
  else mret tt.

(** [response.json()] *)
Definition json (r : response) : M value :=
  match body r with
  | Some v => mret v
  | None => raise JSONDecodeError
  end.

(** [not v] for an environment variable: unset or empty. *)
Definition unset (v : option string) : bool :=
  match v with
  | Some s => negb (str_truthy s)
  | None => true
  end.

(** The text of an environment variable inside an f-string. *)
Definition env_text (v : option string) : string := default "None" v.

(** [v.get(k, dflt)] *)
Definition get (v : value) (k : string) (dflt : value) : outcome value :=
  match v with
  | VDict d => Ret (default dflt (lookup_key k d))
  | _ => Raise AttributeError
  end.

(** [v[k]] for a string [k] *)
Definition item (v : value) (k : string) : outcome value :=
  match v with
  | VDict d => match lookup_key k d with Some x => Ret x | None => Raise KeyError end
  | _ => Raise TypeError
  end.

(** [v[0]] *)
Definition first (v : value) : outcome value :=
  match v with
  | VList (x :: _) => Ret x
  | VList [] => Raise IndexError
  | VStr (String c _) => Ret (VStr (String c EmptyString))
  | VStr EmptyString => Raise IndexError
  | VDict _ => Raise KeyError
  | _ => Raise TypeError
  end.

(** The elements that [for x in v] visits. *)
Definition iterate (v : value) : outcome (list value) :=
  match v with
  | VList l => Ret l
  | VStr s => Ret (chars s)
  | VDict d => Ret (map VStr (keys d))
  | _ => Raise TypeError
  end.

(** [len(v)] *)
Definition len (v : value) : outcome Z :=
  match v with
  | VList l => Ret (Z.of_nat (List.length l))
  | VStr s => Ret (Z.of_nat (String.length s))
  | VDict d => Ret (Z.of_nat (List.length d))
  | _ => Raise TypeError
  end.

(** [for x in l: f(x)] *)
Fixpoint for_each {A} (f : A -> M unit) (l : list A) : M unit :=
  match l with
  | [] => mret tt
  | x :: l' => f x ;; for_each f l'
  end.

(** [[f(x) for x in l]] *)
Fixpoint collect {A B} (f : A -> outcome B) (l : list A) : outcome (list B) :=
  match l with
  | [] => Ret []
  | x :: l' =>
      match f x with
      | Ret y =>
          match collect f l' with
          | Ret ys => Ret (y :: ys)
          | Raise e => Raise e
          | Exit c => Exit c
          end
      | Raise e => Raise e
      | Exit c => Exit c
      end
  end.

#[global] Instance outcome_ret : MRet outcome := fun A a => Ret a.

#[global] Instance outcome_bind : MBind outcome := fun A B f o =>
  match o with
  | Ret a => f a
  | Raise e => Raise e
  | Exit c => Exit c
  end.

(** [sep.join(l)]: every element has to be a [str]. *)
Fixpoint strings_of (l : list value) : outcome (list string) :=
  match l with
  | [] => Ret []
  | VStr s :: l' => ss ← strings_of l'; Ret (s :: ss)
  | _ :: _ => Raise TypeError
  end.

Definition join_values (sep : string) (l : list value) : outcome string :=
  ss ← strings_of l; Ret (join sep ss).

(** [v.strip()] *)
Definition strip_method (v : value) : outcome value :=
  match v with
  | VStr s => Ret (VStr (strip s))
  | _ => Raise AttributeError
  end.

End Py.

(** ** Document ingestion: [doc_ingest_chunk_embed.py] *)
Module DocIngest.

Definition default_chunk_size : Z := 500.
Definition default_overlap : Z := 50.

(** The variables of the [while] loop of [chunk_text]. *)
Record loop_state := { start : Z; chunks : list string }.

(** [start < len(words)] *)
Definition loop_guard (words : list string) (st : loop_state) : bool :=
  start st <? Z.of_nat (List.length words).

(** One pass through the body of the loop. *)
Definition loop_body (words : list string) (chunk_size overlap : Z)
    (st : loop_state) : loop_state :=
  let end_ := start st + chunk_size in
  let chunk := Py.join " " (Py.slice words (start st) end_) in
  {| start := end_ - overlap; chunks := chunks st ++ [chunk] |}.

(** The loop, run for at most [fuel] passes; [None] when the guard still
    holds after [fuel] passes. *)
Fixpoint chunk_loop (fuel : nat) (words : list string) (chunk_size overlap : Z)
    (st : loop_state) : option (list string) :=
  if loop_guard words st then
    match fuel with
    | O => None
    | S fuel' =>
        chunk_loop fuel' words chunk_size overlap
          (loop_body words chunk_size overlap st)
    end
  else Some (chunks st).

Definition chunk_text (fuel : nat) (text : string) (chunk_size overlap : Z)
  : option (list string) :=
  chunk_loop fuel (Py.split text) chunk_size overlap {| start := 0; chunks := [] |}.

(** [chunk_text(text)] with the default arguments.  One pass per word is
    enough fuel, see [chunk_text_default_fuel]. *)
Definition chunk_text_default (text : string) : list string :=
  default [] (chunk_text (List.length (Py.split text)) text
                default_chunk_size default_overlap).

(** *** The pipeline of [ingest_document] *)

Import Py.

Definition SUPABASE_URL (w : world) : option string := environ w "SUPABASE_URL".
Definition SUPABASE_KEY (w : world) : option string := environ w "SUPABASE_KEY".
Definition OPENAI_API_KEY (w : world) : option string := environ w "OPENAI_API_KEY".

(** The PDF library: [pdf_pages path] is what [page.extract_text()]
    yields for each page of the file ([None] for a page without text);
    [Failed ImportError] when [pdfplumber] is not installed. *)
Record pdf_library := { pdf_pages : string -> attempt (list (option string)) }.

(** [for page in pdf.pages: ... if page_text: text += page_text + "\n"] *)
Fixpoint pages_text (pages : list (option string)) (text : string) : string :=
  match pages with
  | [] => text
  | Some page_text :: rest =>
      pages_text rest
        (if str_truthy page_text then text +:+ page_text +:+ nl else text)
  | None :: rest => pages_text rest text
  end.

(** The messages on standard output leave out the text of an
    exception. *)
Definition extract_text (w : world) (pdf : pdf_library) (file_path : string) : M string :=
  let ext := lower (splitext_ext file_path) in
  if String.eqb ext ".txt" then attempted (text_file w file_path)
  else if String.eqb ext ".pdf" then
    try_except_import
      (pages ← attempted (pdf_pages pdf file_path);
       mret (pages_text pages ""))
      (print (Text "❌ pdfplumber not installed. Install with: pip install pdfplumber");;
       exit 1)
  else
    print (Text ("❌ Unsupported file type: " +:+ ext));;
    exit 1.

Definition embeddings_request (w : world) (texts : list string) : request :=
  {| method := POST;
     url := "https://api.openai.com/v1/embeddings";
     headers := [("Authorization", "Bearer " +:+ env_text (OPENAI_API_KEY w));
                 ("Content-Type", "application/json")];
     payload := VDict [("input", VList (map VStr texts));
                       ("model", VStr "text-embedding-3-small")] |}.

Definition get_embeddings (w : world) (texts : list string) : M (list value) :=
  if unset (OPENAI_API_KEY w) then
    print (Text "❌ OPENAI_API_KEY not set in environment");;
    exit 1
  else
    try_except
      (response ← send w (embeddings_request w texts);
       raise_for_status response;;
       data ← json response;
       items ← lift (item data "data");
       items ← lift (iterate items);
       lift (collect (fun entry => item entry "embedding") items))
      (fun e => print (Text "❌ Embedding API error: ");; exit 1).

Definition row_request (w : world) (doc_id : string) (i : Z) (chunk : string)
    (embedding : value) : request :=
  {| method := POST;
     url := env_text (SUPABASE_URL w) +:+ "/rest/v1/document_chunks";
     headers := [("apikey", env_text (SUPABASE_KEY w));
                 ("Authorization", "Bearer " +:+ env_text (SUPABASE_KEY w));
                 ("Content-Type", "application/json");
                 ("Prefer", "return=minimal")];
     payload := VDict [("doc_id", VStr doc_id);
                       ("chunk_index", VInt i);
                       ("content", VStr chunk);
                       ("embedding", embedding)] |}.

(** [for i, (chunk, embedding) in enumerate(zip(chunks, embeddings))];
    a response outside 200, 201 and 204 is reported on standard error
    and the loop goes on. *)
Fixpoint store_rows (w : world) (doc_id : string) (i : Z)
    (rows : list (string * value)) : M unit :=
  match rows with
  | [] => mret tt
  | (chunk, embedding) :: rest =>
      send w (row_request w doc_id i chunk embedding);;
      store_rows w doc_id (i + 1) rest
  end.

Definition store_chunks_in_supabase (w : world) (doc_id : string)
    (chunks : list string) (embeddings : list value) : M unit :=
  if unset (SUPABASE_URL w) || unset (SUPABASE_KEY w) then
    print (Text "❌ SUPABASE_URL or SUPABASE_KEY not set in environment");;
    exit 1
  else
    try_except
      (store_rows w doc_id 0 (zip chunks embeddings))
      (fun e => exit 1).

(** The dictionary [result]. *)
Definition ingest_result (doc_id : string) (chunks : list string) : value :=
  VDict [("doc_id", VStr doc_id);
         ("chunks_created", VInt (Z.of_nat (List.length chunks)));
         ("status", VStr "success")].

Definition ingest_document (w : world) (pdf : pdf_library)
    (file_path doc_id : string) : M value :=
  text ← extract_text w pdf file_path;
  let chunks := chunk_text_default text in
  embeddings ← get_embeddings w chunks;
  store_chunks_in_supabase w doc_id chunks embeddings;;
  let result := ingest_result doc_id chunks in
  print (Json result);;
  mret result.

End DocIngest.

(** ** Live context: [live_context_box.py] *)
Module LiveContext.
Import Py.

Definition SUPABASE_URL (w : world) : option string := environ w "SUPABASE_URL".
Definition SUPABASE_KEY (w : world) : option string := environ w "SUPABASE_KEY".
Definition OPENAI_API_KEY (w : world) : option string := environ w "OPENAI_API_KEY".

Definition load_transcript (w : world) (transcript_path : string) : M value :=
  data ← attempted (json_file w transcript_path);
  lift (get data "segments" (VList [])).

(** *** [extract_keywords] *)

Definition stopword_list : list string := [
    "the"; "a"; "an"; "is"; "are"; "was"; "were"; "be";
    "been"; "being"; "have"; "has"; "had"; "do"; "does"; "did";
    "will"; "would"; "could"; "should"; "may"; "might"; "can"; "must";
    "shall"; "to"; "of"; "in"; "for"; "on"; "with"; "at";
    "by"; "from"; "as"; "into"; "through"; "during"; "before"; "after";
    "above"; "below"; "between"; "under"; "again"; "further"; "then"; "once";
    "here"; "there"; "when"; "where"; "why"; "how"; "all"; "each";
    "few"; "more"; "most"; "other"; "some"; "such"; "no"; "nor";
    "not"; "only"; "own"; "same"; "so"; "than"; "too"; "very";
    "just"; "and"; "but"; "if"; "or"; "because"; "until"; "while";
    "this"; "that"; "these"; "those"; "i"; "you"; "he"; "she";
    "it"; "we"; "they"; "what"; "which"; "who"; "whom"; "its";
    "his"; "her"; "their"; "our"; "my"; "your"; "up"; "out";
    "about"; "over"
  ].

Definition stopwords : gset string := list_to_set stopword_list.

Definition is_stopword (w : string) : bool := bool_decide (w ∈ stopwords).

(** Whether a position between [prev] and [next] is a word boundary
    [\b]; [None] stands for the outside of the text. *)
Definition is_word (c : option ascii) : bool :=
  match c with
  | Some c => is_word_char c
  | None => false
  end.

Definition word_boundary (prev next : option ascii) : bool :=
  xorb (is_word prev) (is_word next).

Definition head_char (s : string) : option ascii :=
  match s with
  | EmptyString => None
  | String c _ => Some c
  end.

(** The number of leading characters of [s] in [[a-zA-Z]]. *)
Fixpoint letter_run (s : string) : nat :=
  match s with
  | EmptyString => O
  | String c s' => if is_letter c then S (letter_run s') else O
  end.

(** The greedy [{3,}]: the longest run of letters is tried first, then
    each shorter one down to three, until the closing [\b] holds. *)
Fixpoint try_lengths (k : nat) (s : string) : option string :=
  if (k <? 3)%nat then None
  else
    let matched := substring 0 k s in
    if word_boundary (String.get (k - 1) s) (String.get k s) then Some matched
    else
      match k with
      | O => None
      | S k' => try_lengths k' s
      end.

(** A match of [\b[a-zA-Z]{3,}\b] that starts at the head of [s], the
    character before it being [prev]. *)
Definition match_at (prev : option ascii) (s : string) : option string :=
  if word_boundary prev (head_char s) then try_lengths (letter_run s) s
  else None.

(** [re.findall]: the matches from left to right, none overlapping
    another; [skip] counts the characters of the last match that are
    still to pass. *)
Fixpoint findall_from (skip : nat) (prev : option ascii) (s : string) : list string :=
  match s with
  | EmptyString => []
  | String c s' =>
      match skip with
      | S k => findall_from k (Some c) s'
      | O =>
          match match_at prev s with
          | Some matched =>
              matched :: findall_from (String.length matched - 1) (Some c) s'
          | None => findall_from O (Some c) s'
          end
      end
  end.

(** [re.findall(r'\b[a-zA-Z]{3,}\b', text.lower())] *)
Definition tokenize (text : string) : list string :=
  findall_from O None (lower text).

(** The dictionary [freq], in insertion order. *)
Fixpoint freq_get (freq : list (string * nat)) (w : string) (dflt : nat) : nat :=
  match freq with
  | [] => dflt
  | (k, n) :: rest => if String.eqb k w then n else freq_get rest w dflt
  end.

Fixpoint freq_set (freq : list (string * nat)) (w : string) (n : nat) : list (string * nat) :=
  match freq with
  | [] => [(w, n)]
  | (k, m) :: rest =>
      if String.eqb k w then (k, n) :: rest else (k, m) :: freq_set rest w n
  end.

(** [for w in filtered: freq[w] = freq.get(w, 0) + 1] *)
Definition count_frequencies (filtered : list string) : list (string * nat) :=
  fold_left (fun freq w => freq_set freq w (freq_get freq w 0 + 1)%nat) filtered [].

(** [sorted(items, key=lambda x: x[1], reverse=True)]: by descending
    count, items of equal count in their original order. *)
Fixpoint insert_desc (x : string * nat) (l : list (string * nat)) : list (string * nat) :=
  match l with
  | [] => [x]
  | y :: l' => if (x.2 <? y.2)%nat then y :: insert_desc x l' else x :: l
  end.

Definition sorted_desc (items : list (string * nat)) : list (string * nat) :=
  fold_right insert_desc [] items.

Definition extract_keywords (text : string) (max_keywords : Z) : list string :=
  let words := tokenize text in
  let filtered := filter (fun w => is_stopword w = false) words in
  let freq := count_frequencies filtered in
  let sorted_words := sorted_desc freq in
  map fst (slice_to sorted_words max_keywords).

Definition default_max_keywords : Z := 5.

(** *** The external calls *)

Definition embedding_request (w : world) (text : string) : request :=
  {| method := POST;
     url := "https://api.openai.com/v1/embeddings";
     headers := [("Authorization", "Bearer " +:+ env_text (OPENAI_API_KEY w));
                 ("Content-Type", "application/json")];
     payload := VDict [("input", VStr text);
                       ("model", VStr "text-embedding-3-small")] |}.

Definition get_embedding (w : world) (text : string) : M value :=
  if unset (OPENAI_API_KEY w) then mret (VList [])
  else
    response ← send w (embedding_request w text);
    raise_for_status response;;
    reply ← json response;
    data ← lift (item reply "data");
    entry ← lift (first data);
    lift (item entry "embedding").

Definition fallback_request (w : world) (doc_id : string) (top_n : Z) : request :=
  {| method := GET;
     url := env_text (SUPABASE_URL w) +:+ "/rest/v1/document_chunks";
     headers := [("apikey", env_text (SUPABASE_KEY w));
                 ("Authorization", "Bearer " +:+ env_text (SUPABASE_KEY w))];
     payload := VDict [("doc_id", VStr ("eq." +:+ doc_id));
                       ("select", VStr "content,chunk_index");
                       ("limit", VInt top_n)] |}.

Definition fallback_search (w : world) (doc_id : string) (top_n : Z) : M value :=
  response ← send w (fallback_request w doc_id top_n);
  if status_code response =? 200 then json response
  else mret (VList []).

Definition rpc_request (w : world) (query_embedding : value) (doc_id : string)
    (top_n : Z) : request :=
  {| method := POST;
     url := env_text (SUPABASE_URL w) +:+ "/rest/v1/rpc/match_doc_chunks";
     headers := [("apikey", env_text (SUPABASE_KEY w));
                 ("Authorization", "Bearer " +:+ env_text (SUPABASE_KEY w));
                 ("Content-Type", "application/json")];
     payload := VDict [("query_embedding", query_embedding);
                       ("match_count", VInt top_n);
                       ("filter_doc_id", VStr doc_id)] |}.

Definition semantic_search (w : world) (query_embedding : value) (doc_id : string)
    (top_n : Z) : M value :=
  if unset (SUPABASE_URL w) || unset (SUPABASE_KEY w) then mret (VList [])
  else
    response ← send w (rpc_request w query_embedding doc_id top_n);
    if status_code response =? 200 then json response
    else fallback_search w doc_id top_n.

(** *** [process_live_context] *)

(** The [try] block of the loop body with its [except Exception]. *)
Definition find_matches (w : world) (text doc_id : string) (top_n : Z) : M value :=
  try_except
    (embedding ← get_embedding w text;
     if truthy embedding then semantic_search w embedding doc_id top_n
     else mret (VList []))
    (fun _ => mret (VList [])).

(** The dictionary [result] of the loop body. *)
Definition result_line (start end_ speaker : value) (text : string)
    (keywords : list string) (matches : value) : value :=
  VDict [("segment", VDict [("start", start); ("end", end_);
                            ("speaker", speaker); ("text", VStr text)]);
         ("keywords", VList (map VStr keywords));
         ("context_matches", matches)].

(** The body of the loop over the segments. *)
Definition process_segment (w : world) (doc_id : string) (top_n : Z)
    (seg : value) : M unit :=
  text ← lift (get seg "text" (VStr ""));
  match text with
  | VStr text =>
      if negb (str_truthy (strip text)) then mret tt      (* [continue] *)
      else
        let keywords := extract_keywords text default_max_keywords in
        matches ← find_matches w text doc_id top_n;
        start ← lift (get seg "start" VNone);
        end_ ← lift (get seg "end" VNone);
        speaker ← lift (get seg "speaker" VNone);
        print (Json (result_line start end_ speaker text keywords matches))
  | _ => raise AttributeError                             (* [text.strip] *)
  end.

Definition process_live_context (w : world) (transcript_path doc_id : string)
    (top_n : Z) : M unit :=
  segments ← load_transcript w transcript_path;
  segs ← lift (iterate segments);
  for_each (process_segment w doc_id top_n) segs.

End LiveContext.

(** ** Adversarial analysis: [adversarial_analysis.py] *)
Module Adversarial.
Import Py.

Definition OPENAI_API_KEY (w : world) : option string := environ w "OPENAI_API_KEY".
Definition SUPABASE_URL (w : world) : option string := environ w "SUPABASE_URL".
Definition SUPABASE_KEY (w : world) : option string := environ w "SUPABASE_KEY".

Definition load_transcript (w : world) (transcript_path : string) : M value :=
  data ← attempted (json_file w transcript_path);
  lift (get data "segments" (VList [])).

Definition chunks_request (w : world) (doc_id : string) : request :=
  {| method := GET;
     url := env_text (SUPABASE_URL w) +:+ "/rest/v1/document_chunks";
     headers := [("apikey", env_text (SUPABASE_KEY w));
                 ("Authorization", "Bearer " +:+ env_text (SUPABASE_KEY w))];
     payload := VDict [("doc_id", VStr ("eq." +:+ doc_id));
                       ("select", VStr "content");
                       ("order", VStr "chunk_index")] |}.

Definition get_document_chunks (w : world) (doc_id : string) : M (list value) :=
  if unset (SUPABASE_URL w) || unset (SUPABASE_KEY w) then mret []
  else
    response ← send w (chunks_request w doc_id);
    if status_code response =? 200 then
      rows ← json response;
      rows ← lift (iterate rows);
      lift (collect (fun chunk => item chunk "content") rows)
    else mret [].

Section Formatting.

(** How Python writes a number with one decimal ([format(x, ".1f")])
    and how [str] writes a value that is no string. *)
Variable fixed1 : value -> string.
Variable repr : value -> string.

(** [{v}] inside an f-string *)
Definition to_str (v : value) : string :=
  match v with
  | VStr s => s
  | _ => repr v
  end.

(** [{v:.1f}] inside an f-string: an [int] is turned into a float
    first. *)
Definition to_fixed1 (v : value) : outcome string :=
  match v with
  | VInt z => if int_overflows_float z then Raise OverflowError else Ret (fixed1 v)
  | VFloat _ | VBool _ => Ret (fixed1 v)
  | VStr _ => Raise ValueError
  | _ => Raise TypeError
  end.

(** The line of one segment. *)
Definition format_segment (seg : value) : outcome string :=
  speaker ← get seg "speaker" (VStr "UNKNOWN");
  text ← get seg "text" (VStr "");
  start ← get seg "start" (VInt 0);
  stamp ← to_fixed1 start;
  Ret ("[" +:+ stamp +:+ "s] " +:+ to_str speaker +:+ ": " +:+ to_str text).

Definition format_transcript (segments : value) : outcome string :=
  segs ← iterate segments;
  lines ← collect format_segment segs;
  Ret (join nl lines).

Definition chat_request (w : world) (system_prompt user_prompt : string) : request :=
  {| method := POST;
     url := "https://api.openai.com/v1/chat/completions";
     headers := [("Authorization", "Bearer " +:+ env_text (OPENAI_API_KEY w));
                 ("Content-Type", "application/json")];
     payload :=
       VDict [("model", VStr "gpt-4o");
              ("messages",
               VList [VDict [("role", VStr "system"); ("content", VStr system_prompt)];
                      VDict [("role", VStr "user"); ("content", VStr user_prompt)]]);
              ("temperature", VFloat (FloatBits 0x3FD3333333333333));   (* 0.3 *)
              ("max_tokens", VInt 2000)] |}.

Definition call_openai (w : world) (system_prompt user_prompt : string) : M value :=
  if unset (OPENAI_API_KEY w) then mret (VStr "❌ OPENAI_API_KEY not set")
  else
    response ← send w (chat_request w system_prompt user_prompt);
    raise_for_status response;;
    reply ← json response;
    choices ← lift (item reply "choices");
    choice ← lift (first choices);
    message ← lift (item choice "message");
    lift (item message "content").

Definition coherence_system_prompt : string :=
  String.concat nl [
    "You are an expert analyst checking for coherence and consistency.";
    "    Compare the transcript against the reference documents and identify:";
    "    1. Claims that are SUPPORTED by the documents";
    "    2. Claims that CONTRADICT the documents";
    "    3. Claims that are UNSUPPORTED (neither confirmed nor denied)";
    "    ";
    "    Be specific and cite examples."
  ].

Definition coherence_user_prompt (transcript_text doc_text : string) : string :=
  "TRANSCRIPT:" +:+ nl +:+ transcript_text +:+ nl +:+ nl
  +:+ "REFERENCE DOCUMENTS:" +:+ nl +:+ doc_text +:+ nl +:+ nl
  +:+ "Analyze the coherence between the transcript and documents.".

Definition coherence_analysis (w : world) (transcript_text doc_text : string) : M value :=
  result ← call_openai w coherence_system_prompt
             (coherence_user_prompt transcript_text doc_text);
  mret (VDict [("type", VStr "coherence"); ("analysis", result)]).

Definition tone_system_prompt : string :=
  String.concat nl [
    "You are an expert in communication analysis and behavioral psychology.";
    "    Analyze the transcript for:";
    "    1. Overall tone (confident, evasive, aggressive, defensive, etc.)";
    "    2. Potential deception indicators (hedging language, inconsistencies, deflection)";
    "    3. Emotional shifts throughout the conversation";
    "    4. Power dynamics between speakers";
    "    ";
    "    Note: This is analytical, not accusatory. Flag patterns, not conclusions."
  ].

Definition tone_user_prompt (transcript_text : string) : string :=
  "TRANSCRIPT:" +:+ nl +:+ transcript_text +:+ nl +:+ nl
  +:+ "Provide a detailed tone and behavioral analysis.".

Definition tone_deception_analysis (w : world) (transcript_text : string) : M value :=
  result ← call_openai w tone_system_prompt (tone_user_prompt transcript_text);
  mret (VDict [("type", VStr "tone_deception"); ("analysis", result)]).

Definition summary_system_prompt : string :=
  String.concat nl [
    "You are a critical analyst preparing a devil's advocate summary.";
    "    Your job is to:";
    "    1. Summarize the key points of the conversation";
    "    2. Highlight potential weaknesses in arguments made";
    "    3. Identify missing information or gaps";
    "    4. List follow-up questions that should be asked";
    "    5. Note any red flags or areas requiring verification";
    "    ";
    "    Be thorough but fair. The goal is due diligence, not character assassination."
  ].

Definition summary_user_prompt (transcript_text doc_text : string) : string :=
  "TRANSCRIPT:" +:+ nl +:+ transcript_text +:+ nl +:+ nl
  +:+ "REFERENCE DOCUMENTS:" +:+ nl +:+ doc_text +:+ nl +:+ nl
  +:+ "Generate an adversarial analysis summary.".

Definition adversarial_summary (w : world) (transcript_text doc_text : string) : M value :=
  result ← call_openai w summary_system_prompt
             (summary_user_prompt transcript_text doc_text);
  mret (VDict [("type", VStr "adversarial_summary"); ("analysis", result)]).

(** [doc_text] and the number recorded as ["doc_chunks"]: the chunks
    are fetched only for a [doc_id] that is neither [None] nor empty. *)
Definition load_documents (w : world) (doc_id : option string) : M (string * Z) :=
  if unset doc_id then mret ("", 0)
  else
    chunks ← get_document_chunks w (env_text doc_id);
    doc_text ← lift (join_values (nl +:+ nl) chunks);
    mret (doc_text, Z.of_nat (List.length chunks)).

(** The dictionary [results] once the three analyses are appended. *)
Definition report (transcript_segments doc_chunks : Z) (analyses : list value) : value :=
  VDict [("transcript_segments", VInt transcript_segments);
         ("doc_chunks", VInt doc_chunks);
         ("analyses", VList analyses)].

Definition run_full_analysis (w : world) (transcript_path : string)
    (doc_id : option string) : M value :=
  segments ← load_transcript w transcript_path;
  transcript_text ← lift (format_transcript segments);
  transcript_segments ← lift (len segments);
  docs ← load_documents w doc_id;
  let '(doc_text, doc_chunks) := docs in
  first_analysis ← coherence_analysis w transcript_text doc_text;
  second_analysis ← tone_deception_analysis w transcript_text;
  third_analysis ← adversarial_summary w transcript_text doc_text;
  let results :=
    report transcript_segments doc_chunks
      [first_analysis; second_analysis; third_analysis] in
  print (Json results);;
  mret results.

End Formatting.

End Adversarial.

(** ** Transcription: [transcribe_diarize.py] *)
Module Transcribe.
Import Py.

(** The speech libraries.  Each call may fail; [Failed ImportError]
    stands for a library that is not installed. *)
Record speech_library := {
  (* [import whisperx], [import torch], then [torch.cuda.is_available()] *)
  whisperx_cuda : attempt bool;
  (* [whisperx.load_model("large-v2", device, compute_type=...)] *)
  whisperx_load_model : string -> attempt unit;
  (* [whisperx.load_audio(audio_path)], then
     [model.transcribe(audio, batch_size=16)] *)
  whisperx_transcribe : string -> attempt value;
  (* [whisperx.load_align_model(language_code=..., device=...)] *)
  whisperx_load_align_model : value -> attempt value;
  (* [whisperx.align(segments, model_a, metadata, audio, ...)] *)
  whisperx_align : value -> value -> attempt value;
  (* [DiarizationPipeline(use_auth_token=...)(audio)] then
     [assign_word_speakers(diarize_segments, result)] *)
  whisperx_diarize : string -> value -> attempt value;
  (* [import whisper] *)
  whisper_import : attempt unit;
  (* [whisper.load_model("base")] *)
  whisper_load_model : attempt unit;
  (* [model.transcribe(audio_path)] *)
  whisper_transcribe : string -> attempt value
}.

Section Rounding.

(** [float.__round__(ndigits)]; [Py.double_round] is the one of CPython. *)
Variable float_round : float64 -> Z -> float64.

(** [round(v, ndigits)]: an [int] is its own rounding to a non-negative
    number of digits. *)
Definition round (v : value) (ndigits : Z) : outcome value :=
  match v with
  | VInt z => Ret (VInt z)
  | VBool b => Ret (VInt (if b then 1 else 0))
  | VFloat f => Ret (VFloat (float_round f ndigits))
  | _ => Raise TypeError
  end.

(** The entry appended for one segment on the WhisperX path. *)
Definition whisperx_entry (seg : value) : outcome value :=
  start ← get seg "start" (VInt 0);
  start ← round start 2;
  end_ ← get seg "end" (VInt 0);
  end_ ← round end_ 2;
  speaker ← get seg "speaker" (VStr "SPEAKER_00");
  text ← get seg "text" (VStr "");
  text ← strip_method text;
  Ret (VDict [("start", start); ("end", end_); ("speaker", speaker); ("text", text)]).

(** The entry appended for one segment on the plain Whisper path. *)
Definition whisper_entry (seg : value) : outcome value :=
  start ← get seg "start" (VInt 0);
  start ← round start 2;
  end_ ← get seg "end" (VInt 0);
  end_ ← round end_ 2;
  text ← get seg "text" (VStr "");
  text ← strip_method text;
  Ret (VDict [("start", start); ("end", end_);
              ("speaker", VStr "SPEAKER_00"); ("text", text)]).

(** [for seg in result.get("segments", []): transcript.append(...)], then
    the transcript is written to [output_path], which is reported, and
    returned. *)
Definition save_transcript (w : world) (entry : value -> outcome value)
    (result : value) (output_path : string) : M (list value) :=
  segments ← lift (get result "segments" (VList []));
  segs ← lift (iterate segments);
  transcript ← lift (collect entry segs);
  dump_json w output_path (VDict [("segments", VList transcript)]);;
  print (Text ("✅ Transcript saved to: " +:+ output_path));;
  mret transcript.

Definition with_whisperx (w : world) (lib : speech_library)
    (audio_path output_path : string) (hf_token : option string) : M (list value) :=
  cuda ← attempted (whisperx_cuda lib);
  let device := if (cuda : bool) then "cuda" else "cpu" in
  print (Text ("🎙️ Loading WhisperX model on " +:+ device +:+ "..."));;
  attempted (whisperx_load_model lib device);;
  print (Text ("🎙️ Transcribing: " +:+ audio_path));;
  result ← attempted (whisperx_transcribe lib audio_path);
  print (Text "🎙️ Aligning transcript...");;
  language ← lift (item result "language");
  model_a ← attempted (whisperx_load_align_model lib language);
  segments ← lift (item result "segments");
  result ← attempted (whisperx_align lib segments model_a);
  result ← (if negb (unset hf_token)
            then print (Text "🎙️ Performing speaker diarization...");;
                 attempted (whisperx_diarize lib (env_text hf_token) result)
            else mret result);
  save_transcript w whisperx_entry result output_path.

Definition with_whisper (w : world) (lib : speech_library)
    (audio_path output_path : string) : M (list value) :=
  attempted (whisper_import lib);;
  print (Text "🎙️ Loading Whisper model...");;
  attempted (whisper_load_model lib);;
  print (Text ("🎙️ Transcribing: " +:+ audio_path));;
  result ← attempted (whisper_transcribe lib audio_path);
  save_transcript w whisper_entry result output_path.

Definition transcribe_and_diarize (w : world) (lib : speech_library)
    (audio_path output_path : string) (hf_token : option string) : M (list value) :=
  try_except_import
    (with_whisperx w lib audio_path output_path hf_token)
    (print (Text "⚠️ WhisperX not available, falling back to basic whisper...");;
     try_except_import
       (with_whisper w lib audio_path output_path)
       (print (Text "❌ Neither whisperx nor whisper is installed.");;
        print (Text "   Install with: pip install openai-whisper  OR  pip install whisperx");;
        exit 1)).

End Rounding.

End Transcribe.

(** ** The claims of the specification, in the words of the specification *)
Module Spec.
Import Py.

(** A word: non-empty and free of whitespace. *)
Definition wordlike (w : string) : Prop :=
  w ≠ EmptyString ∧ all_chars (fun c => negb (is_space c)) w = true.

(** The words that the loop of [chunk_text] takes in pass [k], counted
    from zero, when it steps by [step] words. *)
Definition window (words : list string) (chunk_size step : Z) (k : nat) : list string :=
  slice words (Z.of_nat k * step) (Z.of_nat k * step + chunk_size).

(** The number of passes over [n] words: the least [k] with
    [n <= k * step]. *)
Definition passes (n step : Z) : nat := Z.to_nat ((n + step - 1) / step).

(** Two chunks share [o] words: the last [o] of one are the first [o]
    of the other. *)
Definition shares (o : nat) (a b : list string) : Prop :=
  (o <= List.length a)%nat ∧ (o <= List.length b)%nat
  ∧ drop (List.length a - o) a = take o b.

(** Fixed-size word chunking as the specification words it: every chunk
    but the last has [chunk_size] words, consecutive chunks share
    [overlap] words, every word is in some chunk. *)
Definition fixed_size_chunking (words : list string) (chunks : list string)
    (chunk_size overlap : nat) : Prop :=
  (∀ k c, chunks !! k = Some c -> (S k < List.length chunks)%nat ->
          List.length (split c) = chunk_size)
  ∧ (∀ k c c', chunks !! k = Some c -> chunks !! S k = Some c' ->
               shares overlap (split c) (split c'))
  ∧ (∀ w, w ∈ words -> ∃ c, c ∈ chunks ∧ w ∈ split c).

(** The words of a text in the sense of [\b]: its maximal runs of word
    characters. *)
Fixpoint word_runs_acc (acc : list ascii) (s : string) : list string :=
  match s with
  | EmptyString => flush acc
  | String c s' =>
      if is_word_char c then word_runs_acc (c :: acc) s'
      else flush acc ++ word_runs_acc [] s'
  end.

Definition word_runs (s : string) : list string := word_runs_acc [] s.

(** An alphabetic word of length at least three. *)
Definition alphabetic3 (w : string) : bool :=
  all_chars is_letter w && (3 <=? String.length w)%nat.

(** The run of word characters that a text starts with, and the text
    after it. *)
Fixpoint take_run (s : string) : string :=
  match s with
  | EmptyString => EmptyString
  | String c s' => if is_word_char c then String c (take_run s') else EmptyString
  end.

Fixpoint after_run (s : string) : string :=
  match s with
  | EmptyString => EmptyString
  | String c s' => if is_word_char c then after_run s' else s
  end.

(** The number of times [w] occurs in [l]. *)
Definition occurrences (w : string) (l : list string) : nat :=
  List.length (filter (fun x => x = w) l).

(** The keys of the dictionary [freq], in insertion order. *)
Definition freq_keys (freq : list (string * nat)) : list string := map fst freq.

(** The order of [sorted(..., reverse=True)]: counts do not grow. *)
Definition count_desc (x y : string * nat) : Prop := (y.2 <= x.2)%nat.

(** The loop of [chunk_text] terminates: some number of passes ends it. *)
Definition terminates (text : string) (chunk_size overlap : Z) : Prop :=
  ∃ fuel chunks, DocIngest.chunk_text fuel text chunk_size overlap = Some chunks.

(** What the specification says of an overlap that is not below the
    chunk size: no termination on a text of at least [chunk_size] words. *)
Definition overlap_too_large_diverges (text : string) (chunk_size overlap : Z) : Prop :=
  chunk_size <= overlap ->
  chunk_size <= Z.of_nat (List.length (split text)) ->
  ~ terminates text chunk_size overlap.

(** C3 in the words of the specification: with the credentials set,
    an RPC response other than 200 leaves the RPC request the only one
    that [semantic_search] has sent. *)
Definition no_substitute_search (w : world) (query_embedding : value)
    (doc_id : string) (top_n : Z) (st : state) : Prop :=
  unset (LiveContext.SUPABASE_URL w) = false ->
  unset (LiveContext.SUPABASE_KEY w) = false ->
  ∀ resp,
    http w (sent st) (LiveContext.rpc_request w query_embedding doc_id top_n) = Done resp ->
    status_code resp ≠ 200 ->
    sent (LiveContext.semantic_search w query_embedding doc_id top_n st).2
    = sent st ++ [LiveContext.rpc_request w query_embedding doc_id top_n].

(** The text of a segment, when [seg.get("text", "")] is a string. *)
Definition segment_text (seg : value) : option string :=
  match get seg "text" (VStr "") with
  | Ret (VStr text) => Some text
  | _ => None
  end.

(** A segment whose text is more than whitespace. *)
Definition spoken (seg : value) : bool :=
  match segment_text seg with
  | Some text => str_truthy (strip text)
  | None => false
  end.

(** [seg.get(k)] of a dictionary. *)
Definition field (seg : value) (k : string) : value :=
  match get seg k VNone with
  | Ret v => v
  | _ => VNone
  end.

(** C4 in the words of the specification: one JSON line for each
    segment of the transcript. *)
Definition one_line_per_segment (w : world) (transcript_path doc_id : string)
    (top_n : Z) : Prop :=
  ∀ data segs,
    json_file w transcript_path = Done data ->
    get data "segments" (VList []) = Ret (VList segs) ->
    ∃ st',
      LiveContext.process_live_context w transcript_path doc_id top_n initial = (Ret tt, st')
      ∧ List.length (stdout st') = List.length segs.

(** The line printed for a segment: its four fields, the keywords of
    its text and what the search step returned at that point. *)
Definition line_of (w : world) (doc_id : string) (top_n : Z)
    (seg : value) (line : output) : Prop :=
  ∃ text matches st0 st1,
    segment_text seg = Some text
    ∧ LiveContext.find_matches w text doc_id top_n st0 = (Ret matches, st1)
    ∧ line = Json (LiveContext.result_line (field seg "start") (field seg "end")
                     (field seg "speaker") text
                     (LiveContext.extract_keywords text LiveContext.default_max_keywords)
                     matches).

(** A computation that prints nothing, writes no file and never leaves
    through [sys.exit]: it returns or raises. *)
Definition quiet {A} (m : M A) : Prop :=
  ∀ st, ∃ st',
    stdout st' = stdout st ∧ written st' = written st
    ∧ ((∃ a, m st = (Ret a, st')) ∨ (∃ e, m st = (Raise e, st'))).

Definition pure_no_exit {A} (o : outcome A) : Prop :=
  (∃ a, o = Ret a) ∨ (∃ e, o = Raise e).

(** An entry of the list ["analyses"]. *)
Definition analysis (type : string) (result : value) : value :=
  VDict [("type", VStr type); ("analysis", result)].

Definition is_number (v : value) : bool :=
  match v with
  | VInt _ | VFloat _ | VBool _ => true
  | _ => false
  end.

Definition is_string (v : value) : bool :=
  match v with
  | VStr _ => true
  | _ => false
  end.

(** A segment as the speech models give it: an object whose start and
    end, where present, are numbers and whose text, where present, is a
    string. *)
Definition timed_segment (seg : value) : Prop :=
  ∃ d,
    seg = VDict d
    ∧ is_number (default (VInt 0) (lookup_key "start" d)) = true
    ∧ is_number (default (VInt 0) (lookup_key "end" d)) = true
    ∧ is_string (default (VStr "") (lookup_key "text" d)) = true.

(** A finite double [r] is [f] rounded to [places] decimal places:
    for an integer [k] nearest to [f * 10 ^ places] (an even one when
    two are equally near), no double is nearer to [k / 10 ^ places]
    than [r], and [r] has the sign of [f].  The magnitudes are counted
    in units of [2 ^ -1074].  An infinity and a NaN stay as they are. *)
Definition rounded (places : Z) (f r : float64) : Prop :=
  if float_finite f then
    float_finite r = true
    ∧ float_negative r = float_negative f
    ∧ ∃ k : Z,
        Z.abs (float_units f * 10 ^ places - k * 2 ^ 1074) <= 2 ^ 1073
        ∧ (Z.abs (float_units f * 10 ^ places - k * 2 ^ 1074) = 2 ^ 1073 ->
           Z.even k = true)
        ∧ ∀ d, float_finite d = true ->
            Z.abs (float_units r * 10 ^ places - k * 2 ^ 1074)
            <= Z.abs (float_units d * 10 ^ places - k * 2 ^ 1074)
  else r = f.

(** The magnitudes of the finite doubles, in units of [2 ^ -1074]. *)
Definition is_magnitude (u : Z) : Prop :=
  0 <= u < 2 ^ 52
  ∨ ∃ j m, 0 <= j <= 2045 ∧ 2 ^ 52 <= m < 2 ^ 53 ∧ u = m * 2 ^ j.

(** A time rounded to two decimal places: an [int] is its own rounding
    ([True] and [False] count as 1 and 0). *)
Definition rounded_time (v r : value) : Prop :=
  match v with
  | VInt z => r = VInt z
  | VBool b => r = VInt (if b then 1 else 0)
  | VFloat f => ∃ g, r = VFloat g ∧ rounded 2 f g
  | _ => False
  end.

(** The entry of the transcript for a segment: exactly the four fields,
    with the times rounded to two decimal places (0 for a missing one),
    the label of the segment or ["SPEAKER_00"] for a segment without
    one on the WhisperX path and ["SPEAKER_00"] on the plain Whisper
    path, and the stripped text. *)
Definition entry_of (whisperx : bool) (seg entry : value) : Prop :=
  ∃ d fields start end_ text,
    seg = VDict d
    ∧ entry = VDict fields
    ∧ keys fields = ["start"; "end"; "speaker"; "text"]
    ∧ item entry "start" = Ret start
    ∧ rounded_time (default (VInt 0) (lookup_key "start" d)) start
    ∧ item entry "end" = Ret end_
    ∧ rounded_time (default (VInt 0) (lookup_key "end" d)) end_
    ∧ item entry "speaker"
      = Ret (if whisperx
             then default (VStr "SPEAKER_00") (lookup_key "speaker" d)
             else VStr "SPEAKER_00")
    ∧ default (VStr "") (lookup_key "text" d) = VStr text
    ∧ item entry "text" = Ret (VStr (strip text)).

(** Where the [result] that is formatted comes from: on the WhisperX
    path from the model loaded on the device, transcription, alignment
    and, with a token, diarization; on the other path from plain
    Whisper. *)
Definition speech_result (lib : Transcribe.speech_library) (audio_path : string)
    (hf_token : option string) (whisperx : bool) (result : value) : Prop :=
  if whisperx then
    ∃ cuda raw language model_a segments aligned,
      Transcribe.whisperx_cuda lib = Done cuda
      ∧ Transcribe.whisperx_load_model lib (if (cuda : bool) then "cuda" else "cpu")
        = Done tt
      ∧ Transcribe.whisperx_transcribe lib audio_path = Done raw
      ∧ item raw "language" = Ret language
      ∧ Transcribe.whisperx_load_align_model lib language = Done model_a
      ∧ item raw "segments" = Ret segments
      ∧ Transcribe.whisperx_align lib segments model_a = Done aligned
      ∧ (if unset hf_token then result = aligned
         else Transcribe.whisperx_diarize lib (env_text hf_token) aligned = Done result)
  else
    Transcribe.whisper_import lib = Done tt
    ∧ Transcribe.whisper_load_model lib = Done tt
    ∧ Transcribe.whisper_transcribe lib audio_path = Done result.

(** The entry function of a path. *)
Definition entry_function (float_round : float64 -> Z -> float64) (whisperx : bool)
  : value -> outcome value :=
  if whisperx then Transcribe.whisperx_entry float_round
  else Transcribe.whisper_entry float_round.

(** The position of the first [w] in [l] (the length of [l] without
    one). *)
Fixpoint index_of (w : string) (l : list string) : nat :=
  match l with
  | [] => 0
  | x :: l' => if String.eqb x w then 0 else S (index_of w l')
  end.

(** A computation that sends at most [n] requests, prints nothing,
    writes no file and does not leave through [sys.exit]. *)
Definition calls (n : nat) {A} (m : M A) : Prop :=
  ∀ st, ∃ extra,
    sent (m st).2 = sent st ++ extra ∧ (List.length extra <= n)%nat
    ∧ stdout (m st).2 = stdout st ∧ written (m st).2 = written st
    ∧ ∀ c, (m st).1 ≠ Exit c.

(** The segments that the loop of a run over the transcript at
    [transcript_path] visits (none when the transcript cannot be
    loaded or iterated). *)
Definition transcript_segments (w : world) (transcript_path : string) : list value :=
  match json_file w transcript_path with
  | Done data =>
      match get data "segments" (VList []) with
      | Ret segments =>
          match iterate segments with
          | Ret segs => segs
          | _ => []
          end
      | _ => []
      end
  | Failed _ => []
  end.

(** The line of a segment when the search step finds nothing. *)
Definition keyword_line (seg : value) : output :=
  let text := default "" (segment_text seg) in
  Json (LiveContext.result_line (field seg "start") (field seg "end")
          (field seg "speaker") text
          (LiveContext.extract_keywords text LiveContext.default_max_keywords)
          (VList [])).

(** [seg.get(k, dflt)] of a dictionary. *)
Definition field_or (seg : value) (k : string) (dflt : value) : value :=
  match get seg k dflt with
  | Ret v => v
  | _ => dflt
  end.

(** A segment that is an object whose start, where it has one, is a
    number: any other segment makes [format_transcript] raise. *)
Definition stamped (seg : value) : bool :=
  match get seg "start" (VInt 0) with
  | Ret start => is_number start
  | _ => false
  end.

(** A value that is no [int] beyond the range of the floats:
    [format(v, ".1f")] turns an [int] into a float first, and this
    conversion overflows from [2 ^ 1024 - 2 ^ 970] on, in either
    direction. *)
Definition in_float_range (v : value) : bool :=
  match v with
  | VInt z => Z.abs z <? 2 ^ 1024 - 2 ^ 970
  | _ => true
  end.

(** A segment that [format_transcript] can write. *)
Definition formattable (seg : value) : bool :=
  stamped seg && in_float_range (field_or seg "start" (VInt 0)).

(** A value inside an f-string: a string as it is, any other value as
    [str] writes it. *)
Definition shown (repr : value -> string) (v : value) : string :=
  match v with
  | VStr s => s
  | _ => repr v
  end.

(** The line of a segment in the formatted transcript. *)
Definition transcript_line (fixed1 repr : value -> string) (seg : value) : string :=
  "[" +:+ fixed1 (field_or seg "start" (VInt 0)) +:+ "s] "
  +:+ shown repr (field_or seg "speaker" (VStr "UNKNOWN")) +:+ ": "
  +:+ shown repr (field_or seg "text" (VStr "")).

(** The exception that stops the formatting at a segment, if any:
    [AttributeError] for a segment that is no object, [ValueError] for
    a text as its start, [OverflowError] for an [int] beyond the range
    of the floats, [TypeError] for any other start that is no number. *)
Definition format_error (seg : value) : option exn :=
  match seg with
  | VDict d =>
      match default (VInt 0) (lookup_key "start" d) with
      | VInt z => if Z.abs z <? 2 ^ 1024 - 2 ^ 970 then None else Some OverflowError
      | VFloat _ | VBool _ => None
      | VStr _ => Some ValueError
      | _ => Some TypeError
      end
  | _ => Some AttributeError
  end.

(** A computation that sends at most [n] requests, prints the value
    that it returns, and nothing when it does not return, writes no
    file and does not leave through [sys.exit]. *)
Definition reports (n : nat) (m : M value) : Prop :=
  ∀ st, ∃ extra,
    sent (m st).2 = sent st ++ extra ∧ (List.length extra <= n)%nat
    ∧ stdout (m st).2
      = stdout st ++ match (m st).1 with Ret results => [Json results] | _ => [] end
    ∧ written (m st).2 = written st
    ∧ ∀ c, (m st).1 ≠ Exit c.

(** The text that stands for an analysis when no key is set. *)
Definition no_key : value := VStr "❌ OPENAI_API_KEY not set".

(** The requests of the rows of a document, in the order of
    [enumerate(zip(chunks, embeddings))]. *)
Definition row_requests (w : world) (doc_id : string) (chunks : list string)
    (embeddings : list value) : list request :=
  imap (fun i row => DocIngest.row_request w doc_id (Z.of_nat i) row.1 row.2)
    (zip chunks embeddings).

(** Every request gets a response, whatever its status. *)
Definition always_answers (w : world) : Prop :=
  ∀ history r, ∃ resp, http w history r = Done resp.

(** The texts of the pages that have one, each followed by a newline. *)
Definition page_lines (pages : list (option string)) : list string :=
  map (fun page_text => page_text +:+ nl)
    (filter (fun page_text => str_truthy page_text = true) (omap id pages)).

(** The document that a transcription writes. *)
Definition transcript_document (transcript : list value) : value :=
  VDict [("segments", VList transcript)].

(** What a line of the live context script holds: a JSON object with
    the keys ["segment"], ["keywords"] and ["context_matches"], whose
    segment is an object with the start, end and speaker that
    [seg.get] gives and the text of the segment, whose keywords are
    those of the text and whose matches are [matches]. *)
Definition line_holds (seg : value) (text : string) (matches : value)
    (line : output) : Prop :=
  ∃ d ds,
    line = Json (VDict d)
    ∧ keys d = ["segment"; "keywords"; "context_matches"]
    ∧ item (VDict d) "segment" = Ret (VDict ds)
    ∧ keys ds = ["start"; "end"; "speaker"; "text"]
    ∧ item (VDict ds) "start" = Ret (field seg "start")
    ∧ item (VDict ds) "end" = Ret (field seg "end")
    ∧ item (VDict ds) "speaker" = Ret (field seg "speaker")
    ∧ item (VDict ds) "text" = Ret (VStr text)
    ∧ item (VDict d) "keywords"
      = Ret (VList (map VStr (LiveContext.extract_keywords text
                                LiveContext.default_max_keywords)))
    ∧ item (VDict d) "context_matches" = Ret matches.

(** The lines of a run of the loop over [segs] that starts in the
    state [st] and ends in [st']: none for a segment that is not
    spoken; for a spoken segment the line that holds what the search
    step returns when it runs in the state reached, printed in the
    state in which that step ends. *)
Inductive run_lines (w : world) (doc_id : string) (top_n : Z)
  : list value -> state -> list output -> state -> Prop :=
| run_lines_end st :
    run_lines w doc_id top_n [] st [] st
| run_lines_silent seg segs st lines st' :
    spoken seg = false ->
    run_lines w doc_id top_n segs st lines st' ->
    run_lines w doc_id top_n (seg :: segs) st lines st'
| run_lines_spoken seg text matches st1 line segs st lines st' :
    segment_text seg = Some text ->
    spoken seg = true ->
    LiveContext.find_matches w text doc_id top_n st = (Ret matches, st1) ->
    line_holds seg text matches line ->
    run_lines w doc_id top_n segs (printing line st1) lines st' ->
    run_lines w doc_id top_n (seg :: segs) st (line :: lines) st'.

(** The request for the embedding of one text. *)
Definition embedding_call (text : string) (r : request) : Prop :=
  method r = POST
  ∧ url r = "https://api.openai.com/v1/embeddings"
  ∧ item (payload r) "input" = Ret (VStr text)
  ∧ item (payload r) "model" = Ret (VStr "text-embedding-3-small").

(** The request for the embeddings of a list of texts. *)
Definition embeddings_call (texts : list string) (r : request) : Prop :=
  method r = POST
  ∧ url r = "https://api.openai.com/v1/embeddings"
  ∧ item (payload r) "input" = Ret (VList (map VStr texts))
  ∧ item (payload r) "model" = Ret (VStr "text-embedding-3-small").

(** The call of the RPC function [match_doc_chunks] of the database
    for the [top_n] chunks of a document nearest to an embedding. *)
Definition rpc_call (w : world) (query_embedding : value) (doc_id : string)
    (top_n : Z) (r : request) : Prop :=
  method r = POST
  ∧ url r = env_text (environ w "SUPABASE_URL") +:+ "/rest/v1/rpc/match_doc_chunks"
  ∧ item (payload r) "query_embedding" = Ret query_embedding
  ∧ item (payload r) "match_count" = Ret (VInt top_n)
  ∧ item (payload r) "filter_doc_id" = Ret (VStr doc_id).

(** The query of the table [document_chunks] for the content and the
    index of at most [top_n] chunks of a document. *)
Definition table_query (w : world) (doc_id : string) (top_n : Z) (r : request) : Prop :=
  method r = GET
  ∧ url r = env_text (environ w "SUPABASE_URL") +:+ "/rest/v1/document_chunks"
  ∧ item (payload r) "doc_id" = Ret (VStr ("eq." +:+ doc_id))
  ∧ item (payload r) "select" = Ret (VStr "content,chunk_index")
  ∧ item (payload r) "limit" = Ret (VInt top_n).

(** The insertion of one row into the table [document_chunks]. *)
Definition row_post (w : world) (doc_id : string) (i : Z) (chunk : string)
    (embedding : value) (r : request) : Prop :=
  method r = POST
  ∧ url r = env_text (environ w "SUPABASE_URL") +:+ "/rest/v1/document_chunks"
  ∧ item (payload r) "doc_id" = Ret (VStr doc_id)
  ∧ item (payload r) "chunk_index" = Ret (VInt i)
  ∧ item (payload r) "content" = Ret (VStr chunk)
  ∧ item (payload r) "embedding" = Ret embedding.

(** An entry of the list ["analyses"]: an object with the two keys
    ["type"] and ["analysis"]. *)
Definition typed_analysis (type : string) (result : value) (entry : value) : Prop :=
  ∃ d,
    entry = VDict d
    ∧ keys d = ["type"; "analysis"]
    ∧ item entry "type" = Ret (VStr type)
    ∧ item entry "analysis" = Ret result.

(** The report of the analysis: the number of segments, the number of
    chunks and the three analyses, in their order. *)
Definition report_holds (transcript_segments doc_chunks : Z) (r1 r2 r3 : value)
    (results : value) : Prop :=
  ∃ d a1 a2 a3,
    results = VDict d
    ∧ keys d = ["transcript_segments"; "doc_chunks"; "analyses"]
    ∧ item results "transcript_segments" = Ret (VInt transcript_segments)
    ∧ item results "doc_chunks" = Ret (VInt doc_chunks)
    ∧ item results "analyses" = Ret (VList [a1; a2; a3])
    ∧ typed_analysis "coherence" r1 a1
    ∧ typed_analysis "tone_deception" r2 a2
    ∧ typed_analysis "adversarial_summary" r3 a3.

(** A chat request with a system prompt and a user prompt. *)
Definition chat_call (system_prompt user_prompt : string) (r : request) : Prop :=
  ∃ m1 m2,
    method r = POST
    ∧ url r = "https://api.openai.com/v1/chat/completions"
    ∧ item (payload r) "model" = Ret (VStr "gpt-4o")
    ∧ item (payload r) "messages" = Ret (VList [m1; m2])
    ∧ item m1 "role" = Ret (VStr "system")
    ∧ item m1 "content" = Ret (VStr system_prompt)
    ∧ item m2 "role" = Ret (VStr "user")
    ∧ item m2 "content" = Ret (VStr user_prompt).

(** The second state differs from the first by lines printed on
    standard output only. *)
Definition printed_since (st st' : state) : Prop :=
  sent st' = sent st ∧ written st' = written st
  ∧ ∃ lines, stdout st' = stdout st ++ lines.

(** The last line of a transcription that succeeds. *)
Definition saved_line (output_path : string) : output :=
  Text ("✅ Transcript saved to: " +:+ output_path).

End Spec.

(** ** Concrete inputs *)
Module Scenarios.
Import Py.

(** A text of 451 words. *)
Definition text451 : string := join " " (replicate 451 "w").

(** No environment variable is set. *)
Definition no_environment (k : string) : option string := None.

Definition supabase_environment (k : string) : option string :=
  if String.eqb k "SUPABASE_URL" then Some "https://db.example"
  else if String.eqb k "SUPABASE_KEY" then Some "service-key"
  else None.

Definition first_row : value :=
  VDict [("content", VStr "first chunk"); ("chunk_index", VInt 0)].

(** The database lacks the RPC function (404) and serves the table. *)
Definition rpc_missing : world :=
  {| environ := supabase_environment;
     http := fun _ r =>
       match method r with
       | POST => Done {| status_code := 404; body := None |}
       | GET => Done {| status_code := 200; body := Some (VList [first_row]) |}
       end;
     json_file := fun _ => Failed OSError;
     text_file := fun _ => Failed OSError;
     create_file := fun _ => Failed OSError |}.

Definition sample_embedding : value :=
  VList [VFloat (FloatBits 0x3FB999999999999A)].   (* [0.1] *)

(** A transcript of two segments, the first of them silent. *)
Definition silence_then_speech : value :=
  VDict [("segments",
          VList [VDict [("start", VInt 0); ("end", VInt 2);
                        ("speaker", VStr "SPEAKER_00"); ("text", VStr "   ")];
                 VDict [("start", VInt 2); ("end", VInt 5);
                        ("speaker", VStr "SPEAKER_01");
                        ("text", VStr "budget review for the budget")]])].

(** The transcript is on disk; no service is configured. *)
Definition offline : world :=
  {| environ := no_environment;
     http := fun _ _ => Failed ConnectionError;
     json_file := fun _ => Done silence_then_speech;
     text_file := fun _ => Failed OSError;
     create_file := fun _ => Done tt |}.

Definition openai_environment (k : string) : option string :=
  if String.eqb k "OPENAI_API_KEY" then Some "sk-test" else None.

(** The key is set and the network is down. *)
Definition network_down : world :=
  {| environ := openai_environment;
     http := fun _ _ => Failed ConnectionError;
     json_file := fun _ => Done silence_then_speech;
     text_file := fun _ => Failed OSError;
     create_file := fun _ => Done tt |}.

Definition speech_segment : list (string * value) :=
  [("start", VInt 2); ("end", VInt 5); ("speaker", VStr "SPEAKER_01");
   ("text", VStr "budget review for the budget")].

(** [format(v, ".1f")] where [v] is an [int] or a [bool], which is all
    that the timestamps of the transcripts here are. *)
Definition fixed1_int (v : value) : string :=
  match v with
  | VInt z => pretty z +:+ ".0"
  | VBool true => "1.0"
  | _ => "0.0"
  end.

(** [str(v)] is needed for strings only in the transcripts here. *)
Definition repr_none (v : value) : string := "None".

Definition chat_reply : value :=
  VDict [("choices",
          VList [VDict [("message",
                         VDict [("role", VStr "assistant");
                                ("content", VStr "No contradiction found.")])]])].

(** The key of the chat service is set and the service answers; no
    database is configured. *)
Definition analyst : world :=
  {| environ := openai_environment;
     http := fun _ _ => Done {| status_code := 200; body := Some chat_reply |};
     json_file := fun _ => Done silence_then_speech;
     text_file := fun _ => Failed OSError;
     create_file := fun _ => Done tt |}.

(** A transcript file that holds an object without ["segments"]. *)
Definition untranscribed : world :=
  {| environ := openai_environment;
     http := fun _ _ => Done {| status_code := 200; body := Some chat_reply |};
     json_file := fun _ => Done (VDict [("language", VStr "en")]);
     text_file := fun _ => Failed OSError;
     create_file := fun _ => Done tt |}.

(** What plain Whisper returns for a short recording; the times are
    [0.0], [2.5] and [2.5], [4.2567]. *)
Definition whisper_output : value :=
  VDict [("text", VStr " Good morning. Let us begin.");
         ("segments",
          VList [VDict [("id", VInt 0);
                        ("start", VFloat (FloatBits 0));
                        ("end", VFloat (FloatBits 0x4004000000000000));
                        ("text", VStr " Good morning.")];
                 VDict [("id", VInt 1);
                        ("start", VFloat (FloatBits 0x4004000000000000));
                        ("end", VFloat (FloatBits 0x401106dc5d638866));
                        ("text", VStr " Let us begin.")]]);
         ("language", VStr "en")].

(** Only plain Whisper is installed. *)
Definition whisper_only : Transcribe.speech_library :=
  {| Transcribe.whisperx_cuda := Failed ImportError;
     Transcribe.whisperx_load_model := fun _ => Failed ImportError;
     Transcribe.whisperx_transcribe := fun _ => Failed ImportError;
     Transcribe.whisperx_load_align_model := fun _ => Failed ImportError;
     Transcribe.whisperx_align := fun _ _ => Failed ImportError;
     Transcribe.whisperx_diarize := fun _ _ => Failed ImportError;
     Transcribe.whisper_import := Done tt;
     Transcribe.whisper_load_model := Done tt;
     Transcribe.whisper_transcribe := fun _ => Done whisper_output |}.

Definition full_environment (k : string) : option string :=
  if String.eqb k "OPENAI_API_KEY" then Some "sk-test"
  else if String.eqb k "SUPABASE_URL" then Some "https://db.example"
  else if String.eqb k "SUPABASE_KEY" then Some "service-key"
  else None.

Definition embeddings_reply : value :=
  VDict [("data", VList [VDict [("index", VInt 0); ("embedding", sample_embedding)]])].

(** A text file of three words; the embedding service answers with one
    embedding and the database accepts rows. *)
Definition ingestion : world :=
  {| environ := full_environment;
     http := fun _ r =>
       if String.eqb (url r) "https://api.openai.com/v1/embeddings"
       then Done {| status_code := 200; body := Some embeddings_reply |}
       else Done {| status_code := 201; body := None |};
     json_file := fun _ => Failed OSError;
     text_file := fun _ => Done "alpha beta gamma";
     create_file := fun _ => Failed OSError |}.

Definition no_pdf : DocIngest.pdf_library :=
  {| DocIngest.pdf_pages := fun _ => Failed ImportError |}.

(** A transcript whose second segment has [null] for its text. *)
Definition null_text : value :=
  VDict [("segments",
          VList [VDict speech_segment;
                 VDict [("start", VInt 5); ("end", VInt 6); ("text", VNone)];
                 VDict speech_segment])].

Definition damaged : world :=
  {| environ := no_environment;
     http := fun _ _ => Failed ConnectionError;
     json_file := fun _ => Done null_text;
     text_file := fun _ => Failed OSError;
     create_file := fun _ => Done tt |}.

(** The database answers every request with status 503. *)
Definition unavailable : world :=
  {| environ := supabase_environment;
     http := fun _ _ => Done {| status_code := 503; body := None |};
     json_file := fun _ => Done silence_then_speech;
     text_file := fun _ => Failed OSError;
     create_file := fun _ => Done tt |}.

(** The credentials of the database are set and it cannot be reached. *)
Definition unreachable : world :=
  {| environ := supabase_environment;
     http := fun _ _ => Failed ConnectionError;
     json_file := fun _ => Done silence_then_speech;
     text_file := fun _ => Failed OSError;
     create_file := fun _ => Done tt |}.

(** The embedding service answers and the database rejects every row
    with status 500. *)
Definition rejecting : world :=
  {| environ := full_environment;
     http := fun _ r =>
       if String.eqb (url r) "https://api.openai.com/v1/embeddings"
       then Done {| status_code := 200; body := Some embeddings_reply |}
       else Done {| status_code := 500; body := None |};
     json_file := fun _ => Failed OSError;
     text_file := fun _ => Done "alpha beta gamma";
     create_file := fun _ => Failed OSError |}.

(** A PDF file of three pages, the second of them without text. *)
Definition three_pages : DocIngest.pdf_library :=
  {| DocIngest.pdf_pages := fun _ => Done [Some "first page"; None; Some "third page"] |}.

(** The transcript made of [whisper_output]; the last time is [4.26]. *)
Definition whisper_transcript : list value :=
  [VDict [("start", VFloat (FloatBits 0));
          ("end", VFloat (FloatBits 0x4004000000000000));
          ("speaker", VStr "SPEAKER_00"); ("text", VStr "Good morning.")];
   VDict [("start", VFloat (FloatBits 0x4004000000000000));
          ("end", VFloat (FloatBits 0x40110a3d70a3d70a));
          ("speaker", VStr "SPEAKER_00"); ("text", VStr "Let us begin.")]].

(** The transcript written by the transcription is on disk; no service
    is configured. *)
Definition transcribed : world :=
  {| environ := no_environment;
     http := fun _ _ => Failed ConnectionError;
     json_file := fun _ => Done (VDict [("segments", VList whisper_transcript)]);
     text_file := fun _ => Failed OSError;
     create_file := fun _ => Done tt |}.

(** No speech library is installed. *)
Definition no_speech_library : Transcribe.speech_library :=
  {| Transcribe.whisperx_cuda := Failed ImportError;
     Transcribe.whisperx_load_model := fun _ => Failed ImportError;
     Transcribe.whisperx_transcribe := fun _ => Failed ImportError;
     Transcribe.whisperx_load_align_model := fun _ => Failed ImportError;
     Transcribe.whisperx_align := fun _ _ => Failed ImportError;
     Transcribe.whisperx_diarize := fun _ _ => Failed ImportError;
     Transcribe.whisper_import := Failed ImportError;
     Transcribe.whisper_load_model := Failed ImportError;
     Transcribe.whisper_transcribe := fun _ => Failed ImportError |}.

(** A transcript whose first segment starts beyond the range of the
    floats and whose second segment has a text for its start. *)
Definition beyond_floats : value :=
  VDict [("segments",
          VList [VDict [("start", VInt (2 ^ 1024)); ("text", VStr "welcome")];
                 VDict [("start", VStr "0:05"); ("text", VStr "thank you")]])].

Definition overflowing : world :=
  {| environ := openai_environment;
     http := fun _ _ => Done {| status_code := 200; body := Some chat_reply |};
     json_file := fun _ => Done beyond_floats;
     text_file := fun _ => Failed OSError;
     create_file := fun _ => Done tt |}.

(** Every service is configured and answers: the embedding service
    with one embedding, the database with one row. *)
Definition serving : world :=
  {| environ := full_environment;
     http := fun _ r =>
       if String.eqb (url r) "https://api.openai.com/v1/embeddings"
       then Done {| status_code := 200; body := Some embeddings_reply |}
       else Done {| status_code := 200; body := Some (VList [first_row]) |};
     json_file := fun _ => Done silence_then_speech;
     text_file := fun _ => Failed OSError;
     create_file := fun _ => Done tt |}.

End Scenarios.

(* ================================================================== *)
(** * Facts about the Python primitives *)
Section Strings.
Import Py Spec.

Lemma all_chars_of_list p l :
  all_chars p (string_of_list_ascii l) = forallb p l.
Proof. induction l as [|c l IH]; simpl; [done | by rewrite IH]. Qed.

Lemma forallb_rev {A} (p : A -> bool) l : forallb p (rev l) = forallb p l.
Proof.
  induction l as [|x l IH]; simpl; [done|].
  rewrite forallb_app, IH. simpl. rewrite andb_true_r. apply andb_comm.
Qed.

Lemma string_of_list_nonempty l : l ≠ [] -> string_of_list_ascii l ≠ EmptyString.
Proof. destruct l; [done | discriminate]. Qed.

Lemma flush_wordlike acc :
  forallb (fun c => negb (is_space c)) acc = true ->
  Forall wordlike (flush acc).
Proof.
  intros Hacc. destruct acc as [|c acc]; [constructor|].
  unfold flush. constructor; [|constructor]. split.
  - apply string_of_list_nonempty. simpl. destruct (rev acc); discriminate.
  - by rewrite all_chars_of_list, forallb_rev.
Qed.

Lemma split_acc_wordlike s : forall acc,
  forallb (fun c => negb (is_space c)) acc = true ->
  Forall wordlike (split_acc acc s).
Proof.
  induction s as [|c s IH]; intros acc Hacc; simpl.
  - by apply flush_wordlike.
  - destruct (is_space c) eqn:Hc.
    + apply Forall_app. split; [by apply flush_wordlike | by apply IH].
    + apply IH. simpl. by rewrite Hc.
Qed.

Lemma split_wordlike s : Forall wordlike (split s).
Proof. by apply split_acc_wordlike. Qed.

Lemma append_cons c (s t : string) : String c s +:+ t = String c (s +:+ t).
Proof. reflexivity. Qed.

Lemma append_nil_l (t : string) : "" +:+ t = t.
Proof. reflexivity. Qed.

Lemma append_empty_r (s : string) : s +:+ "" = s.
Proof. induction s as [|c s IH]; [done|]. by rewrite append_cons, IH. Qed.

Lemma split_acc_word w : forall acc rest,
  all_chars (fun c => negb (is_space c)) w = true ->
  split_acc acc (w +:+ rest) = split_acc (rev (list_ascii_of_string w) ++ acc) rest.
Proof.
  induction w as [|c w IH]; intros acc rest Hw; [done|].
  rewrite append_cons. simpl in *.
  apply andb_prop in Hw as [Hc Hw].
  destruct (is_space c); [done|].
  rewrite IH by done. by rewrite <- app_assoc.
Qed.

Lemma flush_rev_word w :
  w ≠ EmptyString -> flush (rev (list_ascii_of_string w)) = [w].
Proof.
  intros Hw. unfold flush.
  destruct (rev (list_ascii_of_string w)) as [|c l] eqn:E.
  - destruct w as [|a w]; [done|]. simpl in E.
    destruct (rev (list_ascii_of_string w)); discriminate.
  - by rewrite <- E, rev_involutive, string_of_list_ascii_of_string.
Qed.

(** Splitting the words joined by single spaces gives the words back. *)
Lemma split_join ws : Forall wordlike ws -> split (join " " ws) = ws.
Proof.
  induction 1 as [|w ws [Hne Hw] Hws IH]; [done|].
  unfold split, join in *. destruct ws as [|w' ws'].
  - rewrite <- (append_empty_r w).
    change (String.concat " " [w +:+ ""]) with (w +:+ "").
    rewrite split_acc_word by done. simpl. rewrite app_nil_r.
    rewrite append_empty_r. by apply flush_rev_word.
  - change (String.concat " " (w :: w' :: ws'))
      with (w +:+ String " " (String.concat " " (w' :: ws'))).
    rewrite split_acc_word by done.
    change (split_acc ?a (String " " ?r)) with (flush a ++ split_acc [] r)%list.
    rewrite app_nil_r, flush_rev_word by done. by rewrite IH.
Qed.

End Strings.

(** * [chunk_text] *)
Section ChunkLoop.
Import Py DocIngest Spec.

Lemma passes_lt n step (k : nat) :
  0 < step -> 0 <= n -> (k < passes n step)%nat <-> Z.of_nat k * step < n.
Proof.
  intros Hstep Hn. unfold passes.
  assert (Hq : 0 <= (n + step - 1) / step) by (apply Z.div_pos; lia).
  split; intros H.
  - assert (Z.of_nat k + 1 <= (n + step - 1) / step) by lia.
    pose proof (Z.mul_div_le (n + step - 1) step Hstep). nia.
  - assert (Z.of_nat k < (n + step - 1) / step); [|lia].
    pose proof (Z.div_le_lower_bound (n + step - 1) step (Z.of_nat k + 1) Hstep).
    lia.
Qed.

Lemma chunk_loop_done fuel words chunk_size overlap st :
  loop_guard words st = false ->
  chunk_loop fuel words chunk_size overlap st = Some (chunks st).
Proof. intros H. destruct fuel; simpl; by rewrite H. Qed.

Lemma chunk_loop_pass fuel words chunk_size overlap st :
  loop_guard words st = true ->
  chunk_loop (S fuel) words chunk_size overlap st
  = chunk_loop fuel words chunk_size overlap (loop_body words chunk_size overlap st).
Proof. intros H. simpl. by rewrite H. Qed.

(** From pass [k] on, the loop appends the windows [k], [k+1], ...
    up to the last one. *)
Lemma chunk_loop_windows words chunk_size overlap :
  overlap < chunk_size ->
  let step := chunk_size - overlap in
  let n := Z.of_nat (List.length words) in
  forall d k acc fuel,
    passes n step = (k + d)%nat -> (d <= fuel)%nat ->
    chunk_loop fuel words chunk_size overlap
      {| start := Z.of_nat k * step; chunks := acc |}
    = Some (acc ++ map (fun i => join " " (window words chunk_size step i)) (seq k d)).
Proof.
  intros Hlt step n.
  assert (Hstep : 0 < step) by (unfold step; lia).
  assert (Hov : overlap = chunk_size - step) by (unfold step; lia).
  assert (Hn : n = Z.of_nat (List.length words)) by reflexivity.
  clearbody step n. subst overlap.
  induction d as [|d IH]; intros k acc fuel Hp Hfuel.
  - rewrite chunk_loop_done; simpl; [by rewrite app_nil_r|].
    unfold loop_guard. simpl. apply Z.ltb_ge.
    assert (~ (k < passes n step)%nat) as Hk by lia.
    rewrite passes_lt in Hk by lia. lia.
  - destruct fuel as [|fuel]; [lia|].
    rewrite chunk_loop_pass.
    + unfold loop_body. simpl.
      replace (Z.of_nat k * step + chunk_size - (chunk_size - step))
        with (Z.of_nat (S k) * step) by lia.
      rewrite IH by lia. by rewrite <- app_assoc.
    + unfold loop_guard. simpl. apply Z.ltb_lt. rewrite <- Hn.
      apply passes_lt; lia.
Qed.

Lemma chunk_text_windows fuel text chunk_size overlap :
  overlap < chunk_size ->
  let words := split text in
  let step := chunk_size - overlap in
  let m := passes (Z.of_nat (List.length words)) step in
  (m <= fuel)%nat ->
  chunk_text fuel text chunk_size overlap
  = Some (map (fun i => join " " (window words chunk_size step i)) (seq 0 m)).
Proof.
  intros Hlt words step m Hfuel. unfold chunk_text.
  by rewrite (chunk_loop_windows _ _ _ Hlt m 0 [] fuel).
Qed.

(** With an overlap that is at least the chunk size the start index
    never grows, so the guard holds in every pass once it holds. *)
Lemma chunk_loop_stuck words chunk_size overlap :
  chunk_size <= overlap ->
  forall fuel st,
    loop_guard words st = true ->
    chunk_loop fuel words chunk_size overlap st = None.
Proof.
  intros Hle. induction fuel as [|fuel IH]; intros st Hg; simpl; rewrite Hg; [done|].
  apply IH. unfold loop_guard, loop_body in *. simpl.
  apply Z.ltb_lt. apply Z.ltb_lt in Hg. lia.
Qed.

Lemma passes_le_length n step :
  0 < step -> 0 <= n -> (passes n step <= Z.to_nat n)%nat.
Proof.
  intros Hstep Hn. unfold passes.
  apply Z2Nat.inj_le; [apply Z.div_pos; lia | lia |].
  destruct (Z.eq_dec n 0) as [->|Hne].
  - rewrite Z.div_small; lia.
  - apply Z.lt_succ_r. apply Z.div_lt_upper_bound; nia.
Qed.

End ChunkLoop.

Section ChunkTextDefault.
Import Py DocIngest Spec.

(** A slice with bounds [0 <= a <= b] is [take] after [drop]. *)
Lemma slice_take_drop {A} (l : list A) (a b : nat) :
  slice l (Z.of_nat a) (Z.of_nat a + Z.of_nat b) = take b (drop a l).
Proof.
  unfold slice, slice_index.
  destruct (Z.ltb_spec (Z.of_nat a) 0) as [?|_]; [lia|].
  destruct (Z.ltb_spec (Z.of_nat a + Z.of_nat b) 0) as [?|_]; [lia|].
  destruct (Nat.le_gt_cases a (List.length l)) as [Han|Han].
  - rewrite (Z.min_l (Z.of_nat a)) by lia. rewrite Nat2Z.id.
    destruct (Nat.le_gt_cases (a + b) (List.length l)) as [Hbn|Hbn].
    + rewrite Z.min_l by lia. f_equal. lia.
    + rewrite Z.min_r by lia.
      rewrite (take_ge _ b) by (rewrite length_drop; lia).
      apply take_ge. rewrite length_drop. lia.
  - rewrite !Z.min_r by lia. rewrite Z.sub_diag. simpl.
    rewrite (drop_ge l a) by lia. by destruct b.
Qed.

Lemma window_default words k :
  window words default_chunk_size (default_chunk_size - default_overlap) k
  = take 500 (drop (450 * k) words).
Proof.
  unfold window, default_chunk_size, default_overlap.
  rewrite <- (slice_take_drop words (450 * k) 500). f_equal; lia.
Qed.

Lemma passes_default_lt (n k : nat) :
  (k < passes (Z.of_nat n) 450)%nat <-> (450 * k < n)%nat.
Proof. rewrite passes_lt by lia. lia. Qed.

(** The chunks of [chunk_text(text)], in closed form. *)
Lemma chunk_text_default_eq text :
  chunk_text_default text
  = map (fun k => join " " (take 500 (drop (450 * k) (split text))))
      (seq 0 (passes (Z.of_nat (List.length (split text))) 450)).
Proof.
  unfold chunk_text_default.
  rewrite chunk_text_windows.
  - simpl. apply map_ext. intros k. by rewrite window_default.
  - done.
  - change (default_chunk_size - default_overlap) with 450.
    etrans; [apply passes_le_length; lia|]. by rewrite Nat2Z.id.
Qed.

(** Fewer passes than windows do not end the loop. *)
Lemma chunk_loop_short words chunk_size overlap :
  overlap < chunk_size ->
  let step := chunk_size - overlap in
  let n := Z.of_nat (List.length words) in
  forall fuel k acc,
    (k + fuel < passes n step)%nat ->
    chunk_loop fuel words chunk_size overlap
      {| start := Z.of_nat k * step; chunks := acc |} = None.
Proof.
  intros Hlt step n.
  assert (Hstep : 0 < step) by (unfold step; lia).
  assert (Hov : overlap = chunk_size - step) by (unfold step; lia).
  assert (Hn : n = Z.of_nat (List.length words)) by reflexivity.
  clearbody step n. subst overlap.
  assert (Hguard : forall k acc, (k < passes n step)%nat ->
            loop_guard words {| start := Z.of_nat k * step; chunks := acc |} = true).
  { intros k acc Hk. apply Z.ltb_lt. simpl. rewrite <- Hn. apply passes_lt; lia. }
  induction fuel as [|fuel IH]; intros k acc Hk; simpl;
    rewrite Hguard by lia; [done|].
  unfold loop_body. simpl.
  replace (Z.of_nat k * step + chunk_size - (chunk_size - step))
    with (Z.of_nat (S k) * step) by lia.
  apply IH. lia.
Qed.

(** Any number of passes that ends the loop gives these chunks. *)
Lemma chunk_text_default_fuel fuel text chunks :
  chunk_text fuel text default_chunk_size default_overlap = Some chunks ->
  chunks = chunk_text_default text.
Proof.
  intros H. unfold chunk_text_default.
  destruct (Nat.le_gt_cases
              (passes (Z.of_nat (List.length (split text)))
                 (default_chunk_size - default_overlap)) fuel) as [Hle|Hgt].
  - rewrite chunk_text_windows in H by done.
    injection H as <-.
    rewrite chunk_text_windows; [reflexivity | done |].
    etrans; [apply passes_le_length; [done | lia]|]. by rewrite Nat2Z.id.
  - unfold chunk_text in H.
    change 0 with (Z.of_nat 0 * (default_chunk_size - default_overlap)) in H.
    rewrite chunk_loop_short in H; [done | done | lia].
Qed.

Lemma chunk_text_default_length text :
  List.length (chunk_text_default text)
  = passes (Z.of_nat (List.length (split text))) 450.
Proof. by rewrite chunk_text_default_eq, length_map, length_seq. Qed.

Lemma chunk_text_default_lookup text k c :
  chunk_text_default text !! k = Some c <->
  (450 * k < List.length (split text))%nat
  ∧ c = join " " (take 500 (drop (450 * k) (split text))).
Proof.
  rewrite chunk_text_default_eq, list_lookup_fmap.
  destruct (decide (k < passes (Z.of_nat (List.length (split text))) 450)%nat) as [Hk|Hk].
  - rewrite lookup_seq_lt by done. simpl.
    apply passes_default_lt in Hk. split; [intros [= <-] | intros [_ ->]]; done.
  - rewrite lookup_seq_ge by lia. simpl.
    rewrite passes_default_lt in Hk. split; [done | intros [? _]; lia].
Qed.

(** The words of chunk [k]. *)
Lemma chunk_words text k c :
  chunk_text_default text !! k = Some c ->
  split c = take 500 (drop (450 * k) (split text)).
Proof.
  intros [_ ->]%chunk_text_default_lookup.
  apply split_join, Forall_take, Forall_drop, split_wordlike.
Qed.

Lemma lookup_take_drop {A} (l : list A) p s i :
  take s (drop p l) !! i = if decide (i < s)%nat then l !! (p + i)%nat else None.
Proof.
  case_decide.
  - by rewrite lookup_take_lt, lookup_drop.
  - apply lookup_take_ge. lia.
Qed.


Lemma chunk_words_length text k c :
  chunk_text_default text !! k = Some c ->
  List.length (split c) = (500 `min` (List.length (split text) - 450 * k))%nat.
Proof.
  intros H. rewrite (chunk_words _ _ _ H). by rewrite length_take, length_drop.
Qed.

(** C1, as the code has it.  With [n] words, chunk [k] of
    [chunk_text(text)] exists when [450 * k < n] and holds the words at
    the positions [450 * k] up to [450 * k + 500], as far as they exist.
    So a chunk has 500 words exactly when [450 * k + 500 <= n], which
    every chunk but the last two satisfies; a chunk that has a successor
    has more than 450 words, and the words after its first 450 are the
    first words of the successor: 50 words when the chunk is full; and
    word [i] is word [i mod 450] of chunk [i / 450]. *)
Theorem chunk_text_default_layout (text : string) :
  let words := split text in
  let n := List.length words in
  let chunks := chunk_text_default text in
  (∀ k, (k < List.length chunks)%nat <-> (450 * k < n)%nat)
  ∧ (∀ k c, chunks !! k = Some c ->
       split c = take 500 (drop (450 * k) words)
       ∧ (1 <= List.length (split c) <= 500)%nat
       ∧ (List.length (split c) = 500%nat <-> (450 * k + 500 <= n)%nat))
  ∧ (∀ k c, chunks !! k = Some c -> (S (S k) < List.length chunks)%nat ->
       List.length (split c) = 500%nat)
  ∧ (∀ k c c', chunks !! k = Some c -> chunks !! S k = Some c' ->
       (450 < List.length (split c))%nat
       ∧ shares (List.length (split c) - 450) (split c) (split c')
       ∧ ((450 * k + 500 <= n)%nat -> shares 50 (split c) (split c')))
  ∧ (∀ i w, words !! i = Some w ->
       ∃ c, chunks !! (i / 450)%nat = Some c ∧ split c !! (i mod 450)%nat = Some w).
Proof.
  intros words n chunks.
  assert (Hlen : ∀ k, (k < List.length chunks)%nat <-> (450 * k < n)%nat).
  { intros k. unfold chunks. rewrite chunk_text_default_length.
    apply passes_default_lt. }
  assert (Hsize : ∀ k c, chunks !! k = Some c ->
            (450 * k < n)%nat
            ∧ List.length (split c) = (500 `min` (n - 450 * k))%nat).
  { intros k c H. split; [|by apply chunk_words_length].
    by apply chunk_text_default_lookup in H as [? _]. }
  split; [exact Hlen|]. split; [|split; [|split]].
  - intros k c H. destruct (Hsize k c H) as [Hk Hc].
    split; [by apply chunk_words | lia].
  - intros k c H Hk. destruct (Hsize k c H) as [_ Hc].
    apply Hlen in Hk. lia.
  - intros k c c' H H'.
    destruct (Hsize k c H) as [Hk Hc], (Hsize (S k) c' H') as [Hk' Hc'].
    assert (Hshare : shares (List.length (split c) - 450) (split c) (split c')).
    { unfold shares. split; [lia|]. split; [lia|].
      replace (List.length (split c) - (List.length (split c) - 450))%nat
        with 450%nat by lia.
      rewrite Hc. rewrite (chunk_words _ _ _ H), (chunk_words _ _ _ H').
      fold words. apply list_eq. intros i.
      rewrite take_take, lookup_drop, !lookup_take_drop.
      repeat case_decide; try lia; try done.
      - f_equal. lia.
      - apply lookup_ge_None. fold n. lia. }
    split; [lia|]. split; [done|].
    intros Hfull. by replace 50%nat with (List.length (split c) - 450)%nat by lia.
  - intros i w Hi.
    assert (i < n)%nat as Hin by (by apply lookup_lt_Some in Hi).
    pose proof (Nat.div_mod_eq i 450) as Hdm.
    pose proof (Nat.mod_upper_bound i 450) as Hmod.
    exists (join " " (take 500 (drop (450 * (i / 450)) words))).
    assert (chunks !! (i / 450)%nat
            = Some (join " " (take 500 (drop (450 * (i / 450)) words)))) as Hc.
    { apply chunk_text_default_lookup. split; [fold words; fold n; lia | done]. }
    split; [done|].
    rewrite (chunk_words _ _ _ Hc). fold words.
    rewrite lookup_take_drop. case_decide; [|lia].
    by rewrite <- Hdm.
Qed.

(** C1 at a text of three words: one chunk, which holds them all. *)
Lemma chunk_text_default_layout_witness :
  chunk_text_default "alpha beta gamma" !! 0%nat = Some "alpha beta gamma"
  ∧ split "alpha beta gamma" = take 500 (drop (450 * 0) (split "alpha beta gamma")).
Proof.
  split; [reflexivity|].
  apply (chunk_text_default_layout "alpha beta gamma"). reflexivity.
Defined.

(** C1 as stated fails on a text of 451 words: the first of the two
    chunks is not the last one and has 451 words, not 500. *)
Lemma chunk_text_default_not_fixed_size :
  ~ fixed_size_chunking (split Scenarios.text451)
      (chunk_text_default Scenarios.text451) 500 50.
Proof.
  intros [Hsize _].
  assert (chunk_text_default Scenarios.text451
          = [Scenarios.text451; "w"]) as Hcs by (vm_compute; reflexivity).
  rewrite Hcs in Hsize.
  specialize (Hsize 0%nat Scenarios.text451 eq_refl).
  assert (List.length (split Scenarios.text451) = 451%nat) as Hlen
    by (vm_compute; reflexivity).
  rewrite Hlen in Hsize. simpl in Hsize.
  specialize (Hsize (le_n 2)). discriminate Hsize.
Qed.

End ChunkTextDefault.

Section ChunkTermination.
Import Py DocIngest Spec.

(** C8, as the code has it.  A pass of the loop moves the start index
    by [chunk_size - overlap].  The loop of [chunk_text] ends exactly
    when the overlap is below the chunk size or the text has no word;
    with the overlap below the chunk size one pass per word is enough.
    An overlap that is not below the chunk size keeps the loop running,
    whatever the number of passes, on every text with at least one
    word. *)
Theorem chunk_text_termination (text : string) (chunk_size overlap : Z) :
  (∀ st, start (loop_body (split text) chunk_size overlap st)
         = start st + (chunk_size - overlap))
  ∧ (terminates text chunk_size overlap <-> overlap < chunk_size ∨ split text = [])
  ∧ (overlap < chunk_size ->
     ∀ fuel, (List.length (split text) <= fuel)%nat ->
       ∃ chunks, chunk_text fuel text chunk_size overlap = Some chunks)
  ∧ (chunk_size <= overlap -> split text ≠ [] ->
     ∀ fuel, chunk_text fuel text chunk_size overlap = None).
Proof.
  assert (Hlt : overlap < chunk_size ->
     ∀ fuel, (List.length (split text) <= fuel)%nat ->
       ∃ chunks, chunk_text fuel text chunk_size overlap = Some chunks).
  { intros H fuel Hfuel. eexists. apply chunk_text_windows; [done|].
    etrans; [apply passes_le_length; lia|]. by rewrite Nat2Z.id. }
  assert (Hge : chunk_size <= overlap -> split text ≠ [] ->
     ∀ fuel, chunk_text fuel text chunk_size overlap = None).
  { intros H Hws fuel. unfold chunk_text.
    apply chunk_loop_stuck; [done|].
    unfold loop_guard. simpl. destruct (split text); [done|]. apply Z.ltb_lt.
    simpl. lia. }
  split; [intros st; simpl; lia|].
  split; [|by split]. split.
  - intros (fuel & chunks & H).
    destruct (Z.lt_ge_cases overlap chunk_size) as [?|Hle]; [by left | right].
    destruct (split text) as [|w ws] eqn:Hws; [done|]. exfalso.
    by rewrite Hge in H.
  - intros [H|H].
    + destruct (Hlt H _ (le_n _)) as [chunks Hc]. by eexists _, _.
    + exists 0%nat, []. unfold chunk_text. by rewrite H.
Qed.

(** C8 at a text of three words, chunk size two and overlap one. *)
Lemma chunk_text_termination_witness :
  1 < 2
  ∧ (∃ chunks, chunk_text 3 "a b c" 2 1 = Some chunks)
  ∧ chunk_text 3 "a b c" 2 2 = None.
Proof.
  split; [lia|]. split.
  - apply (chunk_text_termination "a b c" 2 1); [lia | simpl; lia].
  - apply (chunk_text_termination "a b c" 2 2); [lia | done].
Defined.

(** C8 as stated fails for a chunk size and an overlap of zero on the
    empty text, which has at least zero words: the loop ends at once. *)
Lemma chunk_text_zero_size_terminates :
  ~ overlap_too_large_diverges "" 0 0.
Proof.
  intros H. apply H; [lia | simpl; lia |].
  by exists 0%nat, [].
Qed.

End ChunkTermination.


(** * [extract_keywords] *)
Section Tokenize.
Import Py LiveContext Spec.

Lemma lower_char_not_upper c : is_upper_ascii (lower_char c) = false.
Proof. by destruct c as [[] [] [] [] [] [] [] []]. Qed.

Lemma all_chars_lower_not_upper s :
  all_chars (fun c => negb (is_upper_ascii c)) (lower s) = true.
Proof.
  induction s as [|c s IH]; simpl; [done|].
  by rewrite lower_char_not_upper, IH.
Qed.

Lemma try_lengths_some k s w :
  try_lengths k s = Some w ->
  ∃ k', (3 <= k' <= k)%nat ∧ w = substring 0 k' s.
Proof.
  induction k as [|k IH]; simpl; [done|].
  destruct (S k <? 3)%nat eqn:Hk; [done|].
  apply Nat.ltb_ge in Hk.
  destruct (word_boundary _ _).
  - intros [= <-]. exists (S k). split; [lia | done].
  - intros H. destruct (IH H) as (k' & ? & ->). exists k'. split; [lia | done].
Qed.

(** The first [k] characters of a run of [k] or more letters, none of
    them upper-case. *)
Lemma substring_letter_run s : forall k,
  (k <= letter_run s)%nat ->
  all_chars (fun c => negb (is_upper_ascii c)) s = true ->
  all_chars is_lower_ascii (substring 0 k s) = true
  ∧ String.length (substring 0 k s) = k.
Proof.
  induction s as [|c s IH]; intros k Hk Hs; simpl in *.
  - assert (k = 0%nat) as -> by lia. done.
  - destruct k as [|k]; [done|]. simpl.
    apply andb_prop in Hs as [Hc Hs].
    unfold is_letter in Hk.
    destruct (is_upper_ascii c); [done|]. simpl in Hk.
    destruct (is_lower_ascii c); [|lia]. simpl.
    destruct (IH k) as [-> ->]; [lia | done | done].
Qed.

Lemma match_at_some prev s w :
  all_chars (fun c => negb (is_upper_ascii c)) s = true ->
  match_at prev s = Some w ->
  all_chars is_lower_ascii w = true ∧ (3 <= String.length w)%nat.
Proof.
  intros Hs. unfold match_at. destruct (word_boundary _ _); [|done].
  intros (k & Hk & ->)%try_lengths_some.
  destruct (substring_letter_run s k) as [H1 H2]; [lia | done |].
  rewrite H1, H2. split; [done | lia].
Qed.

Lemma findall_from_tokens s : forall skip prev,
  all_chars (fun c => negb (is_upper_ascii c)) s = true ->
  Forall (fun w => all_chars is_lower_ascii w = true ∧ (3 <= String.length w)%nat)
    (findall_from skip prev s).
Proof.
  induction s as [|c s IH]; intros skip prev Hs; [constructor|].
  assert (all_chars (fun c => negb (is_upper_ascii c)) s = true) as Hs'
    by (simpl in Hs; by apply andb_prop in Hs as [_ ?]).
  cbn [findall_from]. destruct skip as [|skip]; [|by apply IH].
  destruct (match_at prev (String c s)) as [w|] eqn:Hm; [|by apply IH].
  constructor; [exact (match_at_some _ _ _ Hs Hm) | by apply IH].
Qed.

(** Every token is a word of lower-case letters, three at least. *)
Lemma tokenize_tokens text :
  Forall (fun w => all_chars is_lower_ascii w = true ∧ (3 <= String.length w)%nat)
    (tokenize text).
Proof. apply findall_from_tokens, all_chars_lower_not_upper. Qed.

End Tokenize.

Section Frequencies.
Import Py LiveContext Spec.

Lemma freq_get_set freq w n w' d :
  freq_get (freq_set freq w n) w' d = if decide (w = w') then n else freq_get freq w' d.
Proof.
  induction freq as [|[k m] freq IH]; simpl.
  - destruct (String.eqb_spec w w'); case_decide; done.
  - destruct (String.eqb_spec k w) as [->|Hkw]; simpl.
    + destruct (String.eqb_spec w w'); case_decide; done.
    + destruct (String.eqb_spec k w') as [->|Hkw'].
      * by rewrite decide_False by done.
      * apply IH.
Qed.

Lemma freq_keys_set_old freq w n :
  w ∈ freq_keys freq -> freq_keys (freq_set freq w n) = freq_keys freq.
Proof.
  induction freq as [|[k m] freq IH]; intros Hin; [by apply elem_of_nil in Hin|].
  simpl. destruct (String.eqb_spec k w) as [->|Hkw]; [done|].
  simpl. f_equal. apply IH.
  apply elem_of_cons in Hin as [->|Hin]; done.
Qed.

Lemma freq_keys_set_new freq w n :
  w ∉ freq_keys freq -> freq_keys (freq_set freq w n) = freq_keys freq ++ [w].
Proof.
  induction freq as [|[k m] freq IH]; intros Hin; [done|].
  simpl. apply not_elem_of_cons in Hin as [Hkw Hin].
  destruct (String.eqb_spec k w) as [->|_]; [done|].
  simpl. f_equal. by apply IH.
Qed.

Lemma freq_keys_set freq w n :
  freq_keys (freq_set freq w n)
  = if decide (w ∈ freq_keys freq) then freq_keys freq else freq_keys freq ++ [w].
Proof.
  case_decide; [by apply freq_keys_set_old | by apply freq_keys_set_new].
Qed.

Lemma occurrences_cons w x l :
  occurrences w (x :: l) = ((if decide (x = w) then 1 else 0) + occurrences w l)%nat.
Proof. unfold occurrences. rewrite filter_cons. by destruct (decide (x = w)). Qed.

Lemma occurrences_pos w l : (0 < occurrences w l)%nat <-> w ∈ l.
Proof.
  induction l as [|x l IH].
  - rewrite elem_of_nil. unfold occurrences. simpl. lia.
  - rewrite occurrences_cons, elem_of_cons. case_decide; [naive_solver lia|].
    simpl. rewrite IH. naive_solver.
Qed.

(** What the counting loop keeps: the keys stay distinct, each count
    grows by the occurrences seen, and the keys are those seen. *)
Lemma count_loop l : forall freq,
  NoDup (freq_keys freq) ->
  let freq' := fold_left (fun freq w => freq_set freq w (freq_get freq w 0 + 1)%nat) l freq in
  NoDup (freq_keys freq')
  ∧ (∀ w, freq_get freq' w 0%nat = (freq_get freq w 0 + occurrences w l)%nat)
  ∧ (∀ w, w ∈ freq_keys freq' <-> w ∈ freq_keys freq ∨ w ∈ l).
Proof.
  induction l as [|x l IH]; intros freq Hnd; simpl.
  - split; [done|]. split; [intros w; unfold occurrences; simpl; lia|].
    intros w. rewrite elem_of_nil. naive_solver.
  - set (freq1 := freq_set freq x (freq_get freq x 0 + 1)%nat).
    assert (NoDup (freq_keys freq1)) as Hnd1.
    { unfold freq1. rewrite freq_keys_set. case_decide; [done|].
      apply NoDup_app. split; [done|]. split; [|apply NoDup_singleton].
      intros y Hy ->%list_elem_of_singleton. done. }
    destruct (IH freq1 Hnd1) as (H1 & H2 & H3).
    split; [done|]. split.
    + intros w. rewrite H2, occurrences_cons. unfold freq1.
      rewrite freq_get_set. case_decide; subst; lia.
    + intros w. rewrite H3, elem_of_cons. unfold freq1.
      rewrite freq_keys_set. case_decide.
      * naive_solver.
      * rewrite elem_of_app, list_elem_of_singleton. naive_solver.
Qed.

Lemma count_frequencies_spec l :
  NoDup (freq_keys (count_frequencies l))
  ∧ (∀ w, freq_get (count_frequencies l) w 0%nat = occurrences w l)
  ∧ (∀ w, w ∈ freq_keys (count_frequencies l) <-> w ∈ l).
Proof.
  destruct (count_loop l [] (NoDup_nil_2)) as (H1 & H2 & H3).
  split; [done|]. split; [intros w; by rewrite H2|].
  intros w. rewrite H3, elem_of_nil. naive_solver.
Qed.

Lemma freq_get_item freq w n d :
  NoDup (freq_keys freq) -> (w, n) ∈ freq -> freq_get freq w d = n.
Proof.
  induction freq as [|[k m] freq IH]; intros Hnd Hin; [by apply elem_of_nil in Hin|].
  simpl in *. apply NoDup_cons in Hnd as [Hk Hnd].
  apply elem_of_cons in Hin as [[= <- <-]|Hin].
  - by rewrite String.eqb_refl.
  - destruct (String.eqb_spec k w) as [->|]; [|by apply IH].
    exfalso. apply Hk. apply list_elem_of_fmap. by exists (w, n).
Qed.

End Frequencies.


Section WordRuns.
Import Py LiveContext Spec.

Lemma is_letter_word c : is_letter c = true -> is_word_char c = true.
Proof. unfold is_word_char. by intros ->. Qed.

Lemma word_runs_acc_flush acc s :
  is_word (head_char s) = false ->
  word_runs_acc acc s = flush acc ++ word_runs s.
Proof.
  unfold word_runs. destruct s as [|c s]; simpl.
  - by rewrite app_nil_r.
  - by intros ->.
Qed.

Lemma after_run_head s : is_word (head_char (after_run s)) = false.
Proof.
  induction s as [|c s IH]; simpl; [done|].
  destruct (is_word_char c) eqn:Hc; [done|]. simpl. by rewrite Hc.
Qed.

Lemma word_runs_acc_run s : forall acc,
  word_runs_acc acc s
  = word_runs_acc (rev (list_ascii_of_string (take_run s)) ++ acc) (after_run s).
Proof.
  induction s as [|c s IH]; intros acc; simpl; [done|].
  destruct (is_word_char c) eqn:Hc; simpl; [|by rewrite Hc].
  rewrite IH. by rewrite <- app_assoc.
Qed.

(** A text that starts with a word character starts with a word. *)
Lemma word_runs_head c s :
  is_word_char c = true ->
  word_runs (String c s)
  = take_run (String c s) :: word_runs (after_run (String c s)).
Proof.
  intros Hc. unfold word_runs at 1.
  rewrite word_runs_acc_run, app_nil_r.
  rewrite word_runs_acc_flush by apply after_run_head.
  rewrite flush_rev_word; [done|]. simpl. by rewrite Hc.
Qed.

Lemma word_runs_skip c s :
  is_word_char c = false -> word_runs (String c s) = word_runs s.
Proof. intros Hc. unfold word_runs. simpl. by rewrite Hc. Qed.

Lemma get_in_run s : forall k,
  (k < String.length (take_run s))%nat -> is_word (String.get k s) = true.
Proof.
  induction s as [|c s IH]; intros k Hk; simpl in *; [lia|].
  destruct (is_word_char c) eqn:Hc; simpl in Hk; [|lia].
  destruct k as [|k]; [done|]. apply IH. lia.
Qed.

Lemma get_after_run s :
  is_word (String.get (String.length (take_run s)) s) = false.
Proof.
  induction s as [|c s IH]; simpl; [done|].
  destruct (is_word_char c) eqn:Hc; simpl; [done | by rewrite Hc].
Qed.

Lemma letter_run_le s : (letter_run s <= String.length (take_run s))%nat.
Proof.
  induction s as [|c s IH]; simpl; [done|].
  destruct (is_letter c) eqn:Hl; [|lia].
  rewrite (is_letter_word c Hl). simpl. lia.
Qed.

Lemma letter_run_full s :
  letter_run s = String.length (take_run s) <->
  all_chars is_letter (take_run s) = true.
Proof.
  induction s as [|c s IH]; simpl; [done|].
  destruct (is_word_char c) eqn:Hc; simpl.
  - destruct (is_letter c); simpl; [|done]. rewrite <- IH. lia.
  - destruct (is_letter c) eqn:Hl; [|done].
    by rewrite (is_letter_word c Hl) in Hc.
Qed.

Lemma substring_take_run s :
  substring 0 (String.length (take_run s)) s = take_run s.
Proof.
  induction s as [|c s IH]; simpl; [done|].
  destruct (is_word_char c); simpl; [by rewrite IH | done].
Qed.

Lemma try_lengths_none s : forall k,
  (∀ k', (3 <= k' <= k)%nat ->
         word_boundary (String.get (k' - 1) s) (String.get k' s) = false) ->
  try_lengths k s = None.
Proof.
  induction k as [|k IH]; intros H; [done|].
  destruct (Nat.ltb_spec (S k) 3) as [Hk|Hk].
  - simpl. apply Nat.ltb_lt in Hk. by rewrite Hk.
  - pose proof (H (S k) (conj Hk (le_n _))) as Hb.
    simpl. apply Nat.ltb_ge in Hk. rewrite Hk.
    simpl in Hb. rewrite Hb.
    apply IH. intros k' Hk'. apply H. lia.
Qed.

Lemma try_lengths_first s k :
  (3 <= k)%nat ->
  word_boundary (String.get (k - 1) s) (String.get k s) = true ->
  try_lengths k s = Some (substring 0 k s).
Proof.
  intros Hk Hb. destruct k as [|k]; [lia|].
  simpl. simpl in Hb. rewrite Hb.
  apply Nat.ltb_ge in Hk. by rewrite Hk.
Qed.

(** At the start of a word, the pattern matches the whole word or not
    at all. *)
Lemma match_at_word prev c s :
  is_word prev = false -> is_word_char c = true ->
  match_at prev (String c s)
  = if alphabetic3 (take_run (String c s)) then Some (take_run (String c s))
    else None.
Proof.
  intros Hprev Hc. unfold match_at, word_boundary at 1.
  rewrite Hprev. cbn [head_char is_word]. rewrite Hc. cbn [xorb].
  set (t := String c s).
  assert (0 < String.length (take_run t))%nat as Hpos
    by (unfold t; simpl; rewrite Hc; simpl; lia).
  pose proof (letter_run_le t) as Hle.
  pose proof (letter_run_full t) as Hfull.
  unfold alphabetic3.
  destruct (all_chars is_letter (take_run t)) eqn:Hall; cbn [andb].
  - assert (letter_run t = String.length (take_run t)) as -> by (by apply Hfull).
    destruct (Nat.leb_spec 3 (String.length (take_run t))) as [H3|H3].
    + rewrite try_lengths_first; [by rewrite substring_take_run | done |].
      unfold word_boundary.
      rewrite (get_in_run t) by lia.
      by rewrite (get_after_run t).
    + apply try_lengths_none. intros k' Hk'. lia.
  - apply try_lengths_none. intros k' Hk'.
    assert (k' < String.length (take_run t))%nat as Hlt.
    { destruct (decide (k' = String.length (take_run t))) as [->|]; [|lia].
      assert (letter_run t = String.length (take_run t)) as Heq by lia.
      apply Hfull in Heq. congruence. }
    unfold word_boundary.
    rewrite !(get_in_run t) by lia. done.
Qed.

Lemma match_at_gap prev c s :
  is_word_char c = false -> match_at prev (String c s) = None.
Proof.
  intros Hc. unfold match_at.
  destruct (word_boundary _ _); [|done]. simpl.
  destruct (is_letter c) eqn:Hl; [|done].
  by rewrite (is_letter_word c Hl) in Hc.
Qed.

(** The matches found from a position: outside a word, the alphabetic
    words of three letters or more among the words that follow; inside
    a word, whether its start was matched or not, those among the words
    after it. *)
Lemma findall_from_word_runs s :
  (∀ prev, is_word prev = false ->
     findall_from 0 prev s
     = filter (fun w => alphabetic3 w = true) (word_runs s))
  ∧ (∀ k prev, (k = 0%nat -> is_word prev = true) ->
       (k <= String.length (take_run s))%nat ->
       findall_from k prev s
       = filter (fun w => alphabetic3 w = true) (word_runs (after_run s))).
Proof.
  induction s as [|c s [IH1 IH2]]; [by split|].
  split.
  - intros prev Hprev. cbn [findall_from].
    destruct (is_word_char c) eqn:Hc.
    + rewrite match_at_word, word_runs_head, filter_cons by done.
      assert (findall_from (String.length (take_run (String c s)) - 1) (Some c) s
              = filter (fun w => alphabetic3 w = true)
                  (word_runs (after_run (String c s)))) as Hskip.
      { simpl. rewrite Hc. simpl. rewrite Nat.sub_0_r.
        apply IH2; [done | lia]. }
      destruct (alphabetic3 (take_run (String c s))) eqn:Ha.
      * rewrite decide_True by done. by rewrite Hskip.
      * rewrite decide_False by congruence.
        rewrite IH2; [by simpl; rewrite Hc | done | lia].
    + rewrite match_at_gap, word_runs_skip by done.
      apply IH1. simpl. by rewrite Hc.
  - intros k prev Hk Hrun. cbn [findall_from]. simpl in Hrun.
    destruct (is_word_char c) eqn:Hc; simpl in Hrun.
    + cbn [after_run]. rewrite Hc. destruct k as [|k].
      * assert (match_at prev (String c s) = None) as ->.
        { unfold match_at, word_boundary. rewrite Hk by done.
          simpl. by rewrite Hc. }
        apply IH2; [done | lia].
      * apply IH2; [done | lia].
    + assert (k = 0%nat) as -> by lia.
      rewrite match_at_gap by done.
      cbn [after_run]. rewrite Hc, word_runs_skip by done.
      apply IH1. simpl. by rewrite Hc.
Qed.

(** The tokens are the alphabetic words, of three letters or more, of
    the text in lower case. *)
Lemma tokenize_word_runs text :
  tokenize text = filter (fun w => alphabetic3 w = true) (word_runs (lower text)).
Proof. by apply findall_from_word_runs. Qed.

End WordRuns.

Section Ranking.
Import Py LiveContext Spec.

Lemma insert_desc_perm x l : insert_desc x l ≡ₚ x :: l.
Proof.
  induction l as [|y l IH]; simpl; [done|].
  destruct (x.2 <? y.2)%nat; [|done].
  rewrite IH. apply Permutation_swap.
Qed.

Lemma insert_desc_sorted x l :
  StronglySorted count_desc l -> StronglySorted count_desc (insert_desc x l).
Proof.
  induction l as [|y l IH]; intros Hs; simpl.
  - by repeat constructor.
  - apply StronglySorted_cons in Hs as [Hy Hs].
    destruct (Nat.ltb_spec x.2 y.2) as [Hlt|Hge].
    + apply StronglySorted_cons. split; [|by apply IH].
      rewrite insert_desc_perm. constructor; [unfold count_desc; lia | done].
    + apply StronglySorted_cons. split; [|by apply StronglySorted_cons].
      constructor; [done|].
      eapply Forall_impl; [exact Hy|]. unfold count_desc. intros z Hz. lia.
Qed.

Lemma sorted_desc_perm l : sorted_desc l ≡ₚ l.
Proof.
  induction l as [|x l IH]; simpl; [done|].
  by rewrite insert_desc_perm, IH.
Qed.

Lemma sorted_desc_sorted l : StronglySorted count_desc (sorted_desc l).
Proof.
  induction l as [|x l IH]; simpl; [constructor | by apply insert_desc_sorted].
Qed.

Lemma strongly_sorted_lookup {A} (R : relation A) l : forall i j a b,
  StronglySorted R l -> (i < j)%nat ->
  l !! i = Some a -> l !! j = Some b -> R a b.
Proof.
  induction l as [|x l IH]; intros i j a b Hs Hij Ha Hb; [done|].
  apply StronglySorted_cons in Hs as [Hx Hs].
  destruct j as [|j]; [lia|]. simpl in Hb.
  destruct i as [|i]; simpl in Ha.
  - injection Ha as ->. rewrite Forall_forall in Hx.
    apply Hx. by eapply list_elem_of_lookup_2.
  - eapply (IH i j); [done | lia | done | done].
Qed.

Lemma slice_to_map {A B} (f : A -> B) (l : list A) k :
  map f (slice_to l k) = slice_to (map f l) k.
Proof. unfold slice_to. by rewrite length_map, <- fmap_take. Qed.

Lemma slice_to_nonneg {A} (l : list A) k :
  0 <= k -> slice_to l k = take (Z.to_nat k) l.
Proof.
  intros Hk. unfold slice_to, slice_index.
  destruct (Z.ltb_spec k 0) as [?|_]; [lia|].
  destruct (Z.le_gt_cases k (Z.of_nat (List.length l))).
  - by rewrite Z.min_l.
  - rewrite Z.min_r by lia. rewrite Nat2Z.id.
    rewrite !take_ge; [done | lia | lia].
Qed.

Lemma is_stopword_false w : is_stopword w = false <-> w ∉ stopwords.
Proof. unfold is_stopword. apply bool_decide_eq_false. Qed.

(** C2.  The tokens of [text] are the words of [text.lower()] that are
    alphabetic and have three letters or more, in the order of the
    text; all their letters are lower-case.  [extract_keywords] keeps
    the tokens outside the stopword set and returns the leading part
    [ranked[:max_keywords]] of a list [ranked] that holds each kept word
    once, in an order in which the number of occurrences among the kept
    tokens does not grow; for a [max_keywords] that is not negative
    that part is the first [max_keywords] entries, so at most
    [max_keywords] of them. *)
Theorem extract_keywords_spec (text : string) (max_keywords : Z) :
  let tokens := tokenize text in
  let kept := filter (fun w => is_stopword w = false) tokens in
  tokens = filter (fun w => alphabetic3 w = true) (word_runs (lower text))
  ∧ (∀ w, w ∈ tokens ->
       all_chars is_lower_ascii w = true ∧ (3 <= String.length w)%nat)
  ∧ (∀ w, w ∈ kept <-> w ∈ tokens ∧ w ∉ stopwords)
  ∧ ∃ ranked : list string,
      NoDup ranked
      ∧ (∀ w, w ∈ ranked <-> w ∈ tokens ∧ w ∉ stopwords)
      ∧ (∀ i j a b, (i < j)%nat -> ranked !! i = Some a -> ranked !! j = Some b ->
           (occurrences b kept <= occurrences a kept)%nat)
      ∧ extract_keywords text max_keywords = slice_to ranked max_keywords
      ∧ (0 <= max_keywords ->
           extract_keywords text max_keywords = take (Z.to_nat max_keywords) ranked
           ∧ Z.of_nat (List.length (extract_keywords text max_keywords)) <= max_keywords).
Proof.
  intros tokens kept.
  assert (Hkept : ∀ w, w ∈ kept <-> w ∈ tokens ∧ w ∉ stopwords).
  { intros w. unfold kept. rewrite list_elem_of_filter, is_stopword_false.
    naive_solver. }
  split; [apply tokenize_word_runs|].
  split. { intros w Hw. pose proof (tokenize_tokens text) as Ht.
           rewrite Forall_forall in Ht. by apply Ht. }
  split; [exact Hkept|].
  destruct (count_frequencies_spec kept) as (Hnd & Hget & Hkeys).
  set (freq := count_frequencies kept) in *.
  exists (map fst (sorted_desc freq)).
  assert (Hperm : map fst (sorted_desc freq) ≡ₚ freq_keys freq)
    by (unfold freq_keys; by rewrite sorted_desc_perm).
  assert (Hslice : extract_keywords text max_keywords
                   = slice_to (map fst (sorted_desc freq)) max_keywords)
    by apply slice_to_map.
  split; [by rewrite Hperm|].
  split; [intros w; by rewrite Hperm, Hkeys|].
  split.
  - intros i j a b Hij Ha Hb.
    apply list_lookup_fmap_Some in Ha as ([a' na] & -> & Ha).
    apply list_lookup_fmap_Some in Hb as ([b' nb] & -> & Hb).
    simpl.
    pose proof (strongly_sorted_lookup _ _ _ _ _ _
                  (sorted_desc_sorted freq) Hij Ha Hb) as Hle.
    unfold count_desc in Hle. simpl in Hle.
    assert (∀ w n, sorted_desc freq !! n = Some w -> w ∈ freq) as Hin.
    { intros w n Hw. rewrite <- sorted_desc_perm. by eapply list_elem_of_lookup_2. }
    rewrite <- !Hget.
    rewrite (freq_get_item freq a' na), (freq_get_item freq b' nb); eauto.
  - split; [done|]. intros Hk. rewrite Hslice, slice_to_nonneg by done.
    split; [done|]. rewrite length_take. lia.
Qed.

(** C2 at a short text with the default bound of five keywords. *)
Lemma extract_keywords_spec_witness :
  0 <= 5
  ∧ extract_keywords "The cat and the other cat" 5 = ["cat"]
  ∧ Z.of_nat (List.length (extract_keywords "The cat and the other cat" 5)) <= 5.
Proof.
  split; [lia|]. split; [by vm_compute|].
  destruct (extract_keywords_spec "The cat and the other cat" 5)
    as (_ & _ & _ & ranked & _ & _ & _ & _ & H).
  apply H. lia.
Defined.

End Ranking.


(** * The live context script *)
Section Search.
Import Py LiveContext Spec.

(** What [fallback_search] does: one request, whose rows it returns
    when the status is 200, the empty list for another status. *)
Lemma fallback_search_run w doc_id top_n st :
  fallback_search w doc_id top_n st
  = (match http w (sent st) (fallback_request w doc_id top_n) with
     | Done resp =>
         if status_code resp =? 200 then
           match body resp with
           | Some rows => Ret rows
           | None => Raise JSONDecodeError
           end
         else Ret (VList [])
     | Failed e => Raise e
     end,
     sending (fallback_request w doc_id top_n) st).
Proof.
  unfold fallback_search, mbind, M_bind, send.
  destruct (http w (sent st) _) as [resp|e]; [|done].
  destruct (status_code resp =? 200); [|done].
  unfold json. by destruct (body resp).
Qed.

End Search.

Section Quiet.
Import Py Spec.

Lemma quiet_ret {A} (a : A) : quiet (mret a).
Proof. intros st. exists st. repeat split. left. by exists a. Qed.

Lemma quiet_raise {A} e : quiet (@raise A e).
Proof. intros st. exists st. repeat split. right. by exists e. Qed.

Lemma quiet_lift {A} (o : outcome A) : pure_no_exit o -> quiet (lift o).
Proof. intros [[a ->]|[e ->]] st; exists st; repeat split; [left | right]; eauto. Qed.

Lemma quiet_attempted {A} (a : attempt A) : quiet (attempted a).
Proof. destruct a; [apply quiet_ret | apply quiet_raise]. Qed.

Lemma quiet_send w r : quiet (send w r).
Proof.
  intros st. exists (sending r st). repeat split. unfold send.
  destruct (http w (sent st) r); [left | right]; eauto.
Qed.

Lemma quiet_bind {A B} (m : M A) (k : A -> M B) :
  quiet m -> (∀ a, quiet (k a)) -> quiet (m ≫= k).
Proof.
  intros Hm Hk st. unfold mbind, M_bind.
  destruct (Hm st) as (st1 & Hout & Hwr & [[a ->]|[e ->]]).
  - destruct (Hk a st1) as (st2 & Hout2 & Hwr2 & H).
    exists st2. split; [congruence|]. split; [congruence | done].
  - exists st1. repeat split; [done | done |]. right. eauto.
Qed.

Lemma quiet_raise_for_status r : quiet (raise_for_status r).
Proof.
  unfold raise_for_status. destruct (_ && _); [apply quiet_raise | apply quiet_ret].
Qed.

Lemma quiet_json r : quiet (json r).
Proof. unfold json. destruct (body r); [apply quiet_ret | apply quiet_raise]. Qed.

Lemma pure_no_exit_get v k d : pure_no_exit (get v k d).
Proof. destruct v; simpl; [right | right | right | right | right | right | left]; eauto. Qed.

Lemma pure_no_exit_item v k : pure_no_exit (item v k).
Proof.
  destruct v; simpl; try (right; eauto; fail).
  destruct (lookup_key k d); [left | right]; eauto.
Qed.

Lemma pure_no_exit_first v : pure_no_exit (first v).
Proof.
  destruct v as [| | | |s|l|d]; simpl; try (right; eauto; fail).
  - destruct s; [right | left]; eauto.
  - destruct l; [right | left]; eauto.
Qed.

Lemma pure_no_exit_iterate v : pure_no_exit (iterate v).
Proof. destruct v; simpl; try (right; eauto; fail); left; eauto. Qed.

Lemma pure_no_exit_len v : pure_no_exit (len v).
Proof. destruct v; simpl; try (right; eauto; fail); left; eauto. Qed.

Lemma pure_no_exit_collect {A B} (f : A -> outcome B) l :
  (∀ x, pure_no_exit (f x)) -> pure_no_exit (collect f l).
Proof.
  intros Hf. induction l as [|x l IH]; simpl; [left; eauto|].
  destruct (Hf x) as [[y ->]|[e ->]]; [|right; eauto].
  destruct IH as [[ys ->]|[e ->]]; [left | right]; eauto.
Qed.

(** [try ... except Exception] around a quiet computation, with a
    handler that returns, always returns. *)
Lemma try_except_returns {A} (m : M A) (h : exn -> A) :
  quiet m ->
  ∀ st, ∃ a st',
    try_except m (fun e => mret (h e)) st = (Ret a, st')
    ∧ stdout st' = stdout st ∧ written st' = written st.
Proof.
  intros Hm st. unfold try_except.
  destruct (Hm st) as (st1 & Hout & Hwr & [[a ->]|[e ->]]); eauto 6.
Qed.

End Quiet.

Section Segments.
Import Py LiveContext Spec.

Lemma quiet_get_embedding w text : quiet (get_embedding w text).
Proof.
  unfold get_embedding. destruct (unset _); [apply quiet_ret|].
  repeat (apply quiet_bind; [|intros ?]);
    auto using quiet_send, quiet_raise_for_status, quiet_json,
      quiet_lift, pure_no_exit_item, pure_no_exit_first.
Qed.

Lemma quiet_fallback_search w doc_id top_n : quiet (fallback_search w doc_id top_n).
Proof.
  unfold fallback_search. apply quiet_bind; [apply quiet_send|].
  intros r. destruct (_ =? _); [apply quiet_json | apply quiet_ret].
Qed.

Lemma quiet_semantic_search w query_embedding doc_id top_n :
  quiet (semantic_search w query_embedding doc_id top_n).
Proof.
  unfold semantic_search. destruct (_ || _); [apply quiet_ret|].
  apply quiet_bind; [apply quiet_send|].
  intros r. destruct (_ =? _); [apply quiet_json | apply quiet_fallback_search].
Qed.

(** The search step always yields matches, and prints nothing. *)
Lemma find_matches_returns w text doc_id top_n st :
  ∃ matches st',
    find_matches w text doc_id top_n st = (Ret matches, st')
    ∧ stdout st' = stdout st ∧ written st' = written st.
Proof.
  apply (try_except_returns _ (fun _ => VList [])).
  apply quiet_bind; [apply quiet_get_embedding|].
  intros emb. destruct (truthy emb);
    [apply quiet_semantic_search | apply quiet_ret].
Qed.

(** What the requests built by the script hold. *)
Lemma embedding_request_call w text : embedding_call text (embedding_request w text).
Proof. by repeat split. Qed.

Lemma rpc_request_call w query_embedding doc_id top_n :
  rpc_call w query_embedding doc_id top_n (rpc_request w query_embedding doc_id top_n).
Proof. by repeat split. Qed.

Lemma fallback_request_query w doc_id top_n :
  table_query w doc_id top_n (fallback_request w doc_id top_n).
Proof. by repeat split. Qed.

(** C3, as the code has it.  With the credentials set, an RPC response
    whose status is not 200 makes [semantic_search] run
    [fallback_search]: one further request, the query of the table for
    the content and index of at most [top_n] chunks of the document,
    whose rows are returned when it answers 200 and the empty list when
    it answers otherwise.  The two requests are the RPC call and that
    query, each sent once, and the search step of the loop always ends
    with a list of matches: it neither raises nor exits. *)
Theorem semantic_search_falls_back w query_embedding doc_id top_n st resp :
  unset (SUPABASE_URL w) = false ->
  unset (SUPABASE_KEY w) = false ->
  http w (sent st) (rpc_request w query_embedding doc_id top_n) = Done resp ->
  status_code resp ≠ 200 ->
  let st1 := sending (rpc_request w query_embedding doc_id top_n) st in
  semantic_search w query_embedding doc_id top_n st
  = fallback_search w doc_id top_n st1
  ∧ (∃ rpc query,
       sent (semantic_search w query_embedding doc_id top_n st).2
       = sent st ++ [rpc; query]
       ∧ rpc = rpc_request w query_embedding doc_id top_n
       ∧ rpc_call w query_embedding doc_id top_n rpc
       ∧ query = fallback_request w doc_id top_n
       ∧ table_query w doc_id top_n query)
  ∧ (∀ resp',
       http w (sent st1) (fallback_request w doc_id top_n) = Done resp' ->
       (semantic_search w query_embedding doc_id top_n st).1
       = if status_code resp' =? 200 then
           match body resp' with
           | Some rows => Ret rows
           | None => Raise JSONDecodeError
           end
         else Ret (VList []))
  ∧ (∀ text st0, ∃ matches st',
       find_matches w text doc_id top_n st0 = (Ret matches, st')).
Proof.
  intros Hurl Hkey Hhttp Hstatus st1.
  assert (semantic_search w query_embedding doc_id top_n st
          = fallback_search w doc_id top_n st1) as Heq.
  { unfold semantic_search. rewrite Hurl, Hkey. simpl.
    unfold mbind, M_bind, send. rewrite Hhttp.
    apply Z.eqb_neq in Hstatus. by rewrite Hstatus. }
  split; [done|]. rewrite Heq, fallback_search_run.
  split; [|split].
  - exists (rpc_request w query_embedding doc_id top_n), (fallback_request w doc_id top_n).
    split; [simpl; by rewrite <- app_assoc|].
    split; [done|]. split; [apply rpc_request_call|].
    split; [done | apply fallback_request_query].
  - intros resp' ->. done.
  - intros text st0.
    destruct (find_matches_returns w text doc_id top_n st0) as (m & st' & H & _).
    eauto.
Qed.

(** C3 where the RPC function is missing and the table answers. *)
Lemma semantic_search_falls_back_witness :
  semantic_search Scenarios.rpc_missing Scenarios.sample_embedding "doc-1" 3 initial
  = fallback_search Scenarios.rpc_missing "doc-1" 3
      (sending (rpc_request Scenarios.rpc_missing Scenarios.sample_embedding "doc-1" 3)
         initial).
Proof.
  apply (semantic_search_falls_back Scenarios.rpc_missing Scenarios.sample_embedding
           "doc-1" 3 initial {| status_code := 404; body := None |});
    [reflexivity | reflexivity | reflexivity | by vm_compute].
Defined.

(** C3 as stated fails where the RPC function is missing: the table
    query is sent as a second request (and its row is the result). *)
Lemma semantic_search_substitutes :
  ~ no_substitute_search Scenarios.rpc_missing Scenarios.sample_embedding "doc-1" 3 initial.
Proof.
  intros H.
  specialize (H eq_refl eq_refl {| status_code := 404; body := None |} eq_refl).
  assert (404 ≠ 200) as Hne by lia.
  specialize (H Hne). vm_compute in H. discriminate H.
Qed.

Lemma segment_text_dict seg text :
  segment_text seg = Some text ->
  ∃ d, seg = VDict d ∧ default (VStr "") (lookup_key "text" d) = VStr text.
Proof.
  unfold segment_text. destruct seg as [| | | | | |d]; simpl; try done.
  destruct (default _ _) eqn:E; try done. intros [= ->]. eauto.
Qed.

(** One pass of the loop over a segment whose text is a string. *)
Lemma process_segment_run w doc_id top_n seg text st :
  segment_text seg = Some text ->
  process_segment w doc_id top_n seg st
  = if str_truthy (strip text) then
      let '(r, st1) := find_matches w text doc_id top_n st in
      match r with
      | Ret matches =>
          (Ret tt,
           printing (Json (result_line (field seg "start") (field seg "end")
                             (field seg "speaker") text
                             (extract_keywords text default_max_keywords) matches))
             st1)
      | Raise e => (Raise e, st1)
      | Exit c => (Exit c, st1)
      end
    else (Ret tt, st).
Proof.
  intros (d & -> & Ht)%segment_text_dict.
  unfold process_segment, mbind, M_bind, lift. simpl. rewrite Ht.
  destruct (str_truthy (strip text)); simpl; [|done].
  destruct (find_matches w text doc_id top_n st) as [[matches|e|c] st1]; done.
Qed.

Lemma spoken_text seg text :
  segment_text seg = Some text -> spoken seg = str_truthy (strip text).
Proof. unfold spoken. by intros ->. Qed.

(** The loop prints one line for each spoken segment, in order. *)
Lemma for_each_segment_lines w doc_id top_n segs : forall st,
  Forall (fun seg => is_Some (segment_text seg)) segs ->
  ∃ st' lines,
    for_each (process_segment w doc_id top_n) segs st = (Ret tt, st')
    ∧ stdout st' = stdout st ++ map Json lines
    ∧ Forall2 (line_of w doc_id top_n)
        (filter (fun seg => spoken seg = true) segs) (map Json lines).
Proof.
  induction segs as [|seg segs IH]; intros st Hwf.
  - exists st, []. simpl. by rewrite app_nil_r.
  - apply Forall_cons in Hwf as [[text Ht] Hwf].
    cbn [for_each]. unfold mbind, M_bind.
    rewrite (process_segment_run _ _ _ _ _ _ Ht), filter_cons.
    rewrite (spoken_text _ _ Ht).
    destruct (str_truthy (strip text)) eqn:Hs.
    + destruct (find_matches_returns w text doc_id top_n st)
        as (matches & st1 & Hm & Hout1 & _).
      rewrite Hm.
      set (line := result_line (field seg "start") (field seg "end")
                     (field seg "speaker") text
                     (extract_keywords text default_max_keywords) matches).
      destruct (IH (printing (Json line) st1) Hwf) as (st' & lines & -> & Hout & Hlines).
      exists st', (line :: lines). split; [done|]. split.
      * rewrite Hout. simpl. rewrite Hout1. by rewrite <- app_assoc.
      * rewrite decide_True by done. constructor; [|done].
        by exists text, matches, st, st1.
    + destruct (IH st Hwf) as (st' & lines & -> & Hout & Hlines).
      exists st', lines. rewrite decide_False by done. done.
Qed.

(** The line that the loop builds holds what it should. *)
Lemma result_line_holds seg text matches :
  line_holds seg text matches
    (Json (result_line (field seg "start") (field seg "end") (field seg "speaker")
             text (extract_keywords text default_max_keywords) matches)).
Proof. unfold line_holds, result_line. eexists _, _. by repeat split. Qed.

(** The loop over well-formed segments returns, and prints the lines
    of the run. *)
Lemma for_each_run_lines w doc_id top_n segs : forall st,
  Forall (fun seg => is_Some (segment_text seg)) segs ->
  ∃ st' lines,
    for_each (process_segment w doc_id top_n) segs st = (Ret tt, st')
    ∧ run_lines w doc_id top_n segs st lines st'
    ∧ stdout st' = stdout st ++ lines.
Proof.
  induction segs as [|seg segs IH]; intros st Hwf.
  - exists st, []. simpl. rewrite app_nil_r. repeat split. constructor.
  - apply Forall_cons in Hwf as [[text Ht] Hwf].
    cbn [for_each]. unfold mbind, M_bind.
    rewrite (process_segment_run _ _ _ _ _ _ Ht).
    pose proof (spoken_text _ _ Ht) as Hspoken.
    destruct (str_truthy (strip text)) eqn:Hs.
    + destruct (find_matches_returns w text doc_id top_n st)
        as (matches & st1 & Hm & Hout1 & _).
      rewrite Hm.
      set (line := Json (result_line (field seg "start") (field seg "end")
                           (field seg "speaker") text
                           (extract_keywords text default_max_keywords) matches)).
      destruct (IH (printing line st1) Hwf) as (st' & lines & -> & Hlines & Hout).
      exists st', (line :: lines). split; [done|]. split.
      * eapply run_lines_spoken; [exact Ht | exact Hspoken | exact Hm | | exact Hlines].
        apply result_line_holds.
      * rewrite Hout. simpl. rewrite Hout1. by rewrite <- app_assoc.
    + destruct (IH st Hwf) as (st' & lines & -> & Hlines & Hout).
      exists st', lines. split; [done|]. split; [|done].
      by apply run_lines_silent.
Qed.

(** The lines of a run are those of the spoken segments, in order. *)
Lemma run_lines_spoken_segments w doc_id top_n segs st lines st' :
  run_lines w doc_id top_n segs st lines st' ->
  Forall2 (fun seg line =>
             ∃ text matches,
               segment_text seg = Some text ∧ line_holds seg text matches line)
    (filter (fun seg => spoken seg = true) segs) lines.
Proof.
  induction 1 as [st|seg segs st lines st' Hs _ IH
                 |seg text matches st1 line segs st lines st' Ht Hs Hm Hl _ IH].
  - constructor.
  - rewrite filter_cons, decide_False by (by rewrite Hs). exact IH.
  - rewrite filter_cons, decide_True by done. constructor; [|exact IH].
    by exists text, matches.
Qed.

(** C4, as the code has it.  For a transcript whose segments are
    objects with a string (or no) text, the run returns and prints one
    JSON line for each segment whose text is more than whitespace, in
    the order of the segments, and nothing for the others.  The line
    of a segment is an object with the keys ["segment"], ["keywords"]
    and ["context_matches"]: it holds the start, end, speaker and text
    of the segment, the keywords of the text, and the matches that the
    search step returned when it ran for this segment, in the state of
    the run after the lines before it. *)
Theorem process_live_context_lines w transcript_path doc_id top_n st data segs :
  json_file w transcript_path = Done data ->
  get data "segments" (VList []) = Ret (VList segs) ->
  Forall (fun seg => is_Some (segment_text seg)) segs ->
  ∃ st' lines,
    process_live_context w transcript_path doc_id top_n st = (Ret tt, st')
    ∧ stdout st' = stdout st ++ lines
    ∧ run_lines w doc_id top_n segs st lines st'
    ∧ Forall2 (fun seg line =>
                 ∃ text matches,
                   segment_text seg = Some text ∧ line_holds seg text matches line)
        (filter (fun seg => spoken seg = true) segs) lines.
Proof.
  intros Hfile Hsegs Hwf.
  destruct (for_each_run_lines w doc_id top_n segs st Hwf)
    as (st' & lines & Hrun & Hlines & Hout).
  exists st', lines. split; [|split; [done|split; [done|]]].
  - unfold process_live_context, load_transcript, mbind, M_bind, attempted, lift.
    rewrite Hfile. simpl. by rewrite Hsegs.
  - by eapply run_lines_spoken_segments.
Qed.

(** C4 on a transcript of a silent and a spoken segment, without any
    service: one line, for the spoken segment. *)
Lemma process_live_context_lines_witness :
  ∃ st' line,
    process_live_context Scenarios.offline "talk.json" "doc-1" 3 initial = (Ret tt, st')
    ∧ stdout st' = [line]
    ∧ ∃ matches,
        line_holds (VDict Scenarios.speech_segment) "budget review for the budget"
          matches line.
Proof.
  destruct (process_live_context_lines Scenarios.offline "talk.json" "doc-1" 3 initial
              Scenarios.silence_then_speech
              [VDict [("start", VInt 0); ("end", VInt 2);
                      ("speaker", VStr "SPEAKER_00"); ("text", VStr "   ")];
               VDict Scenarios.speech_segment])
    as (st' & lines & Hrun & Hout & _ & Hlines);
    [reflexivity | reflexivity | repeat constructor; by eexists |].
  change (filter _ _) with [VDict Scenarios.speech_segment] in Hlines.
  apply Forall2_cons_inv_l in Hlines
    as (line & rest & (text & matches & Ht & Hline) & ->%Forall2_nil_inv_l & ->).
  injection Ht as <-.
  exists st', line. split; [exact Hrun|]. split; [exact Hout|]. by exists matches.
Defined.

(** C4 as stated fails on that transcript: two segments, one line. *)
Lemma process_live_context_skips_silence :
  ~ one_line_per_segment Scenarios.offline "talk.json" "doc-1" 3.
Proof.
  intros H.
  destruct (H Scenarios.silence_then_speech _ eq_refl eq_refl) as (st' & Hrun & Hlen).
  vm_compute in Hrun. injection Hrun as <-. simpl in Hlen. discriminate Hlen.
Qed.

(** C10.  When, for a segment whose text is more than whitespace,
    [get_embedding] raises or returns the empty list, or the search
    raises, the line of the segment is printed all the same: it holds
    the fields of the segment, the keywords of its text and the empty
    list under ["context_matches"]; and the loop goes on with the
    remaining segments from the state in which this line is printed. *)
Theorem search_failure_is_contained w doc_id top_n d text rest st st1 :
  default (VStr "") (lookup_key "text" d) = VStr text ->
  str_truthy (strip text) = true ->
  (∃ e, get_embedding w text st = (Raise e, st1))
  ∨ get_embedding w text st = (Ret (VList []), st1)
  ∨ (∃ embedding st0 e,
       get_embedding w text st = (Ret embedding, st0)
       ∧ truthy embedding = true
       ∧ semantic_search w embedding doc_id top_n st0 = (Raise e, st1)) ->
  ∃ line,
    line_holds (VDict d) text (VList []) line
    ∧ find_matches w text doc_id top_n st = (Ret (VList []), st1)
    ∧ process_segment w doc_id top_n (VDict d) st = (Ret tt, printing line st1)
    ∧ for_each (process_segment w doc_id top_n) (VDict d :: rest) st
      = for_each (process_segment w doc_id top_n) rest (printing line st1).
Proof.
  intros Ht Hs Hfail.
  assert (find_matches w text doc_id top_n st = (Ret (VList []), st1)) as Hfind.
  { unfold find_matches, try_except, mbind, M_bind.
    destruct Hfail as [[e ->]|[->|(emb & st0 & e & -> & Hemb & Hsearch)]];
      [done | done |].
    by rewrite Hemb, Hsearch. }
  assert (process_segment w doc_id top_n (VDict d) st
          = (Ret tt,
             printing
               (Json (result_line (field (VDict d) "start") (field (VDict d) "end")
                        (field (VDict d) "speaker") text
                        (extract_keywords text default_max_keywords) (VList [])))
               st1)) as Hstep.
  { rewrite (process_segment_run _ _ _ (VDict d) text).
    2:{ unfold segment_text. simpl. by rewrite Ht. }
    by rewrite Hs, Hfind. }
  eexists. split; [apply result_line_holds|]. split; [exact Hfind|].
  split; [exact Hstep|].
  cbn [for_each]. unfold mbind at 1, M_bind at 1. by rewrite Hstep.
Qed.

(** C10 where the key is set and the network is down: the line of the
    segment is printed without matches and the loop goes on. *)
Lemma search_failure_is_contained_witness :
  ∃ line,
    line_holds (VDict Scenarios.speech_segment) "budget review for the budget"
      (VList []) line
    ∧ for_each (process_segment Scenarios.network_down "doc-1" 3)
        [VDict Scenarios.speech_segment; VDict Scenarios.speech_segment] initial
      = for_each (process_segment Scenarios.network_down "doc-1" 3)
          [VDict Scenarios.speech_segment]
          (printing line
             (sending
                (embedding_request Scenarios.network_down "budget review for the budget")
                initial)).
Proof.
  destruct (search_failure_is_contained Scenarios.network_down "doc-1" 3
              Scenarios.speech_segment "budget review for the budget"
              [VDict Scenarios.speech_segment] initial
              (sending
                 (embedding_request Scenarios.network_down "budget review for the budget")
                 initial))
    as (line & Hline & _ & _ & Hloop);
    [reflexivity | reflexivity | left; by exists ConnectionError |].
  exists line. split; [exact Hline | exact Hloop].
Defined.

End Segments.


(** * The adversarial analysis script *)
Section Analysis.
Import Py Adversarial Spec.

Variable fixed1 : value -> string.
Variable repr : value -> string.

Lemma quiet_call_openai w system_prompt user_prompt :
  quiet (call_openai w system_prompt user_prompt).
Proof.
  unfold call_openai. destruct (unset _); [apply quiet_ret|].
  repeat (apply quiet_bind; [|intros ?]);
    auto using quiet_send, quiet_raise_for_status, quiet_json,
      quiet_lift, pure_no_exit_item, pure_no_exit_first.
Qed.

(** A call sends the chat request, once, when the key is set, and
    nothing without a key. *)
Lemma call_openai_sent w system_prompt user_prompt st :
  sent (call_openai w system_prompt user_prompt st).2
  = sent st ++ (if unset (OPENAI_API_KEY w) then []
                else [chat_request w system_prompt user_prompt]).
Proof.
  unfold call_openai. destruct (unset _); [simpl; by rewrite app_nil_r|].
  unfold mbind, M_bind, send.
  destruct (http w (sent st) _) as [resp|e]; [|done].
  unfold raise_for_status. destruct (_ && _); [done|]. simpl.
  unfold json. destruct (body resp) as [reply|]; [|done]. simpl.
  unfold lift.
  destruct (item reply "choices") as [choices| |]; [|done|done].
  destruct (first choices) as [choice| |]; [|done|done].
  destruct (item choice "message") as [message| |]; [|done|done].
  by destruct (item message "content").
Qed.

Lemma pure_no_exit_join_values sep l : pure_no_exit (join_values sep l).
Proof.
  unfold join_values.
  assert (pure_no_exit (strings_of l)) as [[ss ->]|[e ->]];
    [|left; eauto|right; eauto].
  induction l as [|v l IH]; [left; eauto|].
  destruct v; try (right; eauto; fail). simpl.
  destruct IH as [[ss ->]|[e ->]]; [left | right]; eauto.
Qed.

Lemma quiet_get_document_chunks w doc_id : quiet (get_document_chunks w doc_id).
Proof.
  unfold get_document_chunks. destruct (_ || _); [apply quiet_ret|].
  apply quiet_bind; [apply quiet_send|]. intros r.
  destruct (_ =? _); [|apply quiet_ret].
  repeat (apply quiet_bind; [|intros ?]);
    auto using quiet_json, quiet_lift, pure_no_exit_iterate,
      pure_no_exit_collect, pure_no_exit_item.
Qed.

Lemma quiet_load_documents w doc_id : quiet (load_documents w doc_id).
Proof.
  unfold load_documents. destruct (unset doc_id); [apply quiet_ret|].
  repeat (apply quiet_bind; [|intros ?]);
    auto using quiet_get_document_chunks, quiet_lift, pure_no_exit_join_values,
      quiet_ret.
Qed.

(** Without a usable [doc_id] no chunk is fetched and none is counted;
    with one, the chunks fetched are counted. *)
Lemma load_documents_count w doc_id st :
  (unset doc_id = true -> load_documents w doc_id st = (Ret ("", 0), st))
  ∧ (unset doc_id = false ->
     ∀ chunks st1 doc_text,
       get_document_chunks w (env_text doc_id) st = (Ret chunks, st1) ->
       join_values (nl +:+ nl) chunks = Ret doc_text ->
       load_documents w doc_id st
       = (Ret (doc_text, Z.of_nat (List.length chunks)), st1)).
Proof.
  unfold load_documents. split; intros ->; [done|].
  intros chunks st1 doc_text Hc Hj.
  unfold mbind, M_bind, lift. by rewrite Hc, Hj.
Qed.

(** The run after the transcript is loaded and formatted: the chunks,
    then the three calls in their order, then the report. *)
Lemma run_full_analysis_steps w transcript_path doc_id st segments st0 text n :
  load_transcript w transcript_path st = (Ret segments, st0) ->
  format_transcript fixed1 repr segments = Ret text ->
  len segments = Ret n ->
  run_full_analysis fixed1 repr w transcript_path doc_id st
  = match load_documents w doc_id st0 with
    | (Ret (doc_text, k), st1) =>
        match call_openai w coherence_system_prompt
                (coherence_user_prompt text doc_text) st1 with
        | (Ret r1, st2) =>
            match call_openai w tone_system_prompt (tone_user_prompt text) st2 with
            | (Ret r2, st3) =>
                match call_openai w summary_system_prompt
                        (summary_user_prompt text doc_text) st3 with
                | (Ret r3, st4) =>
                    let results :=
                      report n k [analysis "coherence" r1;
                                  analysis "tone_deception" r2;
                                  analysis "adversarial_summary" r3] in
                    (Ret results, printing (Json results) st4)
                | (Raise e, st4) => (Raise e, st4)
                | (Exit c, st4) => (Exit c, st4)
                end
            | (Raise e, st3) => (Raise e, st3)
            | (Exit c, st3) => (Exit c, st3)
            end
        | (Raise e, st2) => (Raise e, st2)
        | (Exit c, st2) => (Exit c, st2)
        end
    | (Raise e, st1) => (Raise e, st1)
    | (Exit c, st1) => (Exit c, st1)
    end.
Proof.
  intros Hload Hfmt Hlen.
  unfold run_full_analysis, mbind at 1, M_bind at 1. rewrite Hload.
  unfold mbind at 1, M_bind at 1, lift at 1. rewrite Hfmt.
  unfold mbind at 1, M_bind at 1, lift at 1. rewrite Hlen.
  unfold mbind at 1, M_bind at 1.
  destruct (load_documents w doc_id st0) as [[[doc_text k]|e|c] st1]; [|done|done].
  unfold coherence_analysis, tone_deception_analysis, adversarial_summary.
  unfold mbind, M_bind.
  destruct (call_openai w coherence_system_prompt _ st1) as [[r1|e|c] st2];
    [|done|done]. simpl.
  destruct (call_openai w tone_system_prompt _ st2) as [[r2|e|c] st3];
    [|done|done]. simpl.
  destruct (call_openai w summary_system_prompt _ st3) as [[r3|e|c] st4];
    [|done|done]. done.
Qed.

Lemma report_report_holds n k r1 r2 r3 :
  report_holds n k r1 r2 r3
    (report n k [analysis "coherence" r1; analysis "tone_deception" r2;
                 analysis "adversarial_summary" r3]).
Proof.
  unfold report_holds, report, analysis. eexists _, _, _, _.
  repeat split; eexists; by repeat split.
Qed.

Lemma chat_request_call w system_prompt user_prompt :
  chat_call system_prompt user_prompt (chat_request w system_prompt user_prompt).
Proof. unfold chat_call, chat_request. eexists _, _. by repeat split. Qed.

(** C5.  Let the transcript be loaded and formatted, with [n] segments.
    A run that returns a report has fetched the chunks, made the calls
    for the coherence, the tone and the summary template in this order,
    and printed that report.  The report is an object with the three
    keys ["transcript_segments"], which holds [n], ["doc_chunks"], which
    holds the number of chunks, and ["analyses"], which holds a list of
    three objects with the types ["coherence"], ["tone_deception"] and
    ["adversarial_summary"], in this order, each with what its call
    returned as its analysis.  With the key set each call sends one
    chat request with the system prompt and the user prompt of its
    template, so those are three.  The run returns whenever the chunks
    are fetched and the three calls return. *)
Theorem run_full_analysis_report w transcript_path doc_id st segments st0 text n :
  load_transcript w transcript_path st = (Ret segments, st0) ->
  format_transcript fixed1 repr segments = Ret text ->
  len segments = Ret n ->
  (∀ results st',
     run_full_analysis fixed1 repr w transcript_path doc_id st = (Ret results, st') ->
     ∃ doc_text k st1 r1 st2 r2 st3 r3 st4 c1 c2 c3,
       load_documents w doc_id st0 = (Ret (doc_text, k), st1)
       ∧ call_openai w coherence_system_prompt
           (coherence_user_prompt text doc_text) st1 = (Ret r1, st2)
       ∧ call_openai w tone_system_prompt (tone_user_prompt text) st2 = (Ret r2, st3)
       ∧ call_openai w summary_system_prompt
           (summary_user_prompt text doc_text) st3 = (Ret r3, st4)
       ∧ report_holds n k r1 r2 r3 results
       ∧ st' = printing (Json results) st4
       ∧ stdout st' = stdout st0 ++ [Json results]
       ∧ sent st4 = sent st1 ++ (if unset (OPENAI_API_KEY w) then [] else [c1; c2; c3])
       ∧ chat_call coherence_system_prompt (coherence_user_prompt text doc_text) c1
       ∧ chat_call tone_system_prompt (tone_user_prompt text) c2
       ∧ chat_call summary_system_prompt (summary_user_prompt text doc_text) c3)
  ∧ (∀ doc_text k st1 r1 st2 r2 st3 r3 st4,
       load_documents w doc_id st0 = (Ret (doc_text, k), st1) ->
       call_openai w coherence_system_prompt
         (coherence_user_prompt text doc_text) st1 = (Ret r1, st2) ->
       call_openai w tone_system_prompt (tone_user_prompt text) st2 = (Ret r2, st3) ->
       call_openai w summary_system_prompt
         (summary_user_prompt text doc_text) st3 = (Ret r3, st4) ->
       ∃ results,
         run_full_analysis fixed1 repr w transcript_path doc_id st
         = (Ret results, printing (Json results) st4)
         ∧ report_holds n k r1 r2 r3 results)
  ∧ (unset doc_id = true -> load_documents w doc_id st0 = (Ret ("", 0), st0))
  ∧ (unset doc_id = false ->
     ∀ chunks st1 doc_text,
       get_document_chunks w (env_text doc_id) st0 = (Ret chunks, st1) ->
       join_values (nl +:+ nl) chunks = Ret doc_text ->
       load_documents w doc_id st0
       = (Ret (doc_text, Z.of_nat (List.length chunks)), st1)).
Proof.
  intros Hload Hfmt Hlen.
  pose proof (run_full_analysis_steps w transcript_path doc_id st segments st0 text n
                Hload Hfmt Hlen) as Hrun.
  split; [|split; [|apply load_documents_count]].
  - intros results st' Hret. rewrite Hrun in Hret.
    destruct (quiet_load_documents w doc_id st0)
      as (st1 & Ho1 & _ & [[[doc_text k] Hd]|[e Hd]]); rewrite Hd in Hret; [|done].
    pose proof (call_openai_sent w coherence_system_prompt
                  (coherence_user_prompt text doc_text) st1) as Hs1.
    destruct (quiet_call_openai w coherence_system_prompt
                (coherence_user_prompt text doc_text) st1)
      as (st2 & Ho2 & _ & [[r1 H1]|[e H1]]); rewrite H1 in Hret, Hs1; [|done].
    pose proof (call_openai_sent w tone_system_prompt (tone_user_prompt text) st2) as Hs2.
    destruct (quiet_call_openai w tone_system_prompt (tone_user_prompt text) st2)
      as (st3 & Ho3 & _ & [[r2 H2]|[e H2]]); rewrite H2 in Hret, Hs2; [|done].
    pose proof (call_openai_sent w summary_system_prompt
                  (summary_user_prompt text doc_text) st3) as Hs3.
    destruct (quiet_call_openai w summary_system_prompt
                (summary_user_prompt text doc_text) st3)
      as (st4 & Ho4 & _ & [[r3 H3]|[e H3]]); rewrite H3 in Hret, Hs3; [|done].
    injection Hret as <- <-.
    exists doc_text, k, st1, r1, st2, r2, st3, r3, st4,
      (chat_request w coherence_system_prompt (coherence_user_prompt text doc_text)),
      (chat_request w tone_system_prompt (tone_user_prompt text)),
      (chat_request w summary_system_prompt (summary_user_prompt text doc_text)).
    repeat (split; [done|]).
    split; [apply report_report_holds|]. split; [done|]. split; [simpl; congruence|].
    split; [|repeat split; apply chat_request_call].
    simpl in Hs1, Hs2, Hs3. rewrite Hs3, Hs2, Hs1.
    destruct (unset (OPENAI_API_KEY w)); simpl.
    + by rewrite !app_nil_r.
    + by rewrite <- !app_assoc.
  - intros doc_text k st1 r1 st2 r2 st3 r3 st4 Hd H1 H2 H3.
    eexists. split; [|apply report_report_holds].
    rewrite Hrun, Hd, H1, H2, H3. done.
Qed.

(** C9.  When the transcript file holds an object without ["segments"],
    or with an empty list of them, [load_transcript] returns the empty
    list in both scripts.  The live context script then returns at once,
    with nothing sent or printed.  The analysis script formats the empty
    text for zero segments and goes on to the chunks and the three
    calls: it returns a report with [transcript_segments = 0] whenever
    these return, and when it raises, the exception is that of the
    chunks or of a call. *)
Theorem missing_segments_no_error w transcript_path live_doc_id top_n doc_id d st :
  json_file w transcript_path = Done (VDict d) ->
  lookup_key "segments" d = None ∨ lookup_key "segments" d = Some (VList []) ->
  LiveContext.load_transcript w transcript_path st = (Ret (VList []), st)
  ∧ load_transcript w transcript_path st = (Ret (VList []), st)
  ∧ LiveContext.process_live_context w transcript_path live_doc_id top_n st
    = (Ret tt, st)
  ∧ format_transcript fixed1 repr (VList []) = Ret ""
  ∧ (∀ doc_text k st1 r1 st2 r2 st3 r3 st4,
       load_documents w doc_id st = (Ret (doc_text, k), st1) ->
       call_openai w coherence_system_prompt
         (coherence_user_prompt "" doc_text) st1 = (Ret r1, st2) ->
       call_openai w tone_system_prompt (tone_user_prompt "") st2 = (Ret r2, st3) ->
       call_openai w summary_system_prompt
         (summary_user_prompt "" doc_text) st3 = (Ret r3, st4) ->
       let results := report 0 k [analysis "coherence" r1;
                                  analysis "tone_deception" r2;
                                  analysis "adversarial_summary" r3] in
       run_full_analysis fixed1 repr w transcript_path doc_id st
       = (Ret results, printing (Json results) st4))
  ∧ (∀ e st',
       run_full_analysis fixed1 repr w transcript_path doc_id st = (Raise e, st') ->
       load_documents w doc_id st = (Raise e, st')
       ∨ ∃ system_prompt user_prompt st1,
           call_openai w system_prompt user_prompt st1 = (Raise e, st')).
Proof.
  intros Hfile Hsegs.
  assert (LiveContext.load_transcript w transcript_path st = (Ret (VList []), st))
    as Hlive
    by (unfold LiveContext.load_transcript, mbind, M_bind, attempted, lift;
        rewrite Hfile; simpl; by destruct Hsegs as [-> | ->]).
  assert (load_transcript w transcript_path st = (Ret (VList []), st)) as Hload
    by (unfold load_transcript, mbind, M_bind, attempted, lift;
        rewrite Hfile; simpl; by destruct Hsegs as [-> | ->]).
  pose proof (run_full_analysis_steps w transcript_path doc_id st (VList []) st "" 0
                Hload eq_refl eq_refl) as Hrun.
  split; [done|]. split; [done|]. split.
  { unfold LiveContext.process_live_context, mbind at 1, M_bind at 1.
    by rewrite Hlive. }
  split; [done|]. split.
  - intros doc_text k st1 r1 st2 r2 st3 r3 st4 Hd H1 H2 H3.
    rewrite Hrun, Hd, H1, H2, H3. done.
  - intros e st' Hraise. rewrite Hrun in Hraise.
    destruct (load_documents w doc_id st) as [[[doc_text k]|e0|c] st1];
      [|left; by injection Hraise as -> ->|done].
    right.
    destruct (call_openai w coherence_system_prompt _ st1) as [[r1|e1|c] st2] eqn:H1;
      [|injection Hraise as <- <-; eauto|done].
    destruct (call_openai w tone_system_prompt _ st2) as [[r2|e2|c] st3] eqn:H2;
      [|injection Hraise as <- <-; eauto|done].
    destruct (call_openai w summary_system_prompt _ st3) as [[r3|e3|c] st4] eqn:H3;
      [done|injection Hraise as <- <-; eauto|done].
Qed.

End Analysis.

Section AnalysisRuns.
Import Py Adversarial Spec.

(** C5 where the chat service answers and no document is given: the
    report has two segments, no chunk and the three analyses, and three
    chat requests are sent. *)
Lemma run_full_analysis_report_witness :
  ∃ results st' c1 c2 c3,
    run_full_analysis Scenarios.fixed1_int Scenarios.repr_none Scenarios.analyst
      "talk.json" None initial = (Ret results, st')
    ∧ stdout st' = [Json results]
    ∧ report_holds 2 0 (VStr "No contradiction found.")
        (VStr "No contradiction found.") (VStr "No contradiction found.") results
    ∧ sent st' = [c1; c2; c3]
    ∧ chat_call coherence_system_prompt
        (coherence_user_prompt
           ("[0.0s] SPEAKER_00:    " +:+ nl
            +:+ "[2.0s] SPEAKER_01: budget review for the budget") "") c1.
Proof.
  destruct (run_full_analysis_report Scenarios.fixed1_int Scenarios.repr_none
              Scenarios.analyst "talk.json" None initial
              (VList [VDict [("start", VInt 0); ("end", VInt 2);
                             ("speaker", VStr "SPEAKER_00"); ("text", VStr "   ")];
                      VDict Scenarios.speech_segment])
              initial _ 2 eq_refl eq_refl eq_refl) as (Hret & Hrun & _ & _).
  epose proof (Hrun "" 0 initial (VStr "No contradiction found.") _
                 (VStr "No contradiction found.") _ (VStr "No contradiction found.") _
                 eq_refl eq_refl eq_refl eq_refl) as (results & Hresults & Hrep).
  destruct (Hret _ _ Hresults)
    as (doc_text & k & st1 & r1 & st2 & r2 & st3 & r3 & st4 & c1 & c2 & c3
        & Hd & _ & _ & _ & _ & Hst & Hout & Hsent & Hc1 & _).
  injection Hd as <- <- <-.
  eexists results, _, c1, c2, c3.
  split; [exact Hresults|]. split; [exact Hout|]. split; [exact Hrep|].
  split; [|exact Hc1].
  rewrite Hst. exact Hsent.
Defined.

(** C9 on a transcript file without ["segments"]. *)
Lemma missing_segments_no_error_witness :
  LiveContext.process_live_context Scenarios.untranscribed "talk.json" "doc-1" 3 initial
  = (Ret tt, initial)
  ∧ ∃ results st',
      run_full_analysis Scenarios.fixed1_int Scenarios.repr_none
        Scenarios.untranscribed "talk.json" None initial = (Ret results, st')
      ∧ item results "transcript_segments" = Ret (VInt 0).
Proof.
  destruct (missing_segments_no_error Scenarios.fixed1_int Scenarios.repr_none
              Scenarios.untranscribed "talk.json" "doc-1" 3 None
              [("language", VStr "en")] initial eq_refl (or_introl eq_refl))
    as (_ & _ & Hlive & _ & Hrun & _).
  split; [exact Hlive|].
  eexists _, _. split.
  - eapply (Hrun "" 0 initial); reflexivity.
  - reflexivity.
Defined.

End AnalysisRuns.


(** * Rounding of doubles *)
Section Doubles.
Import Py Spec.


Lemma div_half_even_spec a b :
  0 < b ->
  let k := div_half_even a b in
  2 * Z.abs (a - k * b) <= b
  ∧ (2 * Z.abs (a - k * b) = b -> Z.even k = true)
  ∧ ∀ k', Z.abs (a - k * b) <= Z.abs (a - k' * b).
Proof.
  intros Hb k. subst k. unfold div_half_even.
  pose proof (Z.div_mod a b ltac:(lia)) as Hdm.
  pose proof (Z.mod_pos_bound a b Hb) as Hr.
  set (q := a / b) in *. set (r := a mod b) in *.
  assert (∀ c k', 2 * Z.abs (a - c * b) <= b -> Z.abs (a - c * b) <= Z.abs (a - k' * b))
    as Hnear.
  { intros c k' Hc. destruct (Z.eq_dec k' c) as [->|Hne]; [lia|].
    assert (b <= Z.abs ((c - k') * b)) by nia.
    replace (a - k' * b) with ((a - c * b) + (c - k') * b) by ring. lia. }
  destruct (2 * r <? b) eqn:H1; [apply Z.ltb_lt in H1|apply Z.ltb_ge in H1].
  { assert (2 * Z.abs (a - q * b) <= b) by lia.
    split; [done|]. split; [lia|]. intros k'. by apply Hnear. }
  destruct (b <? 2 * r) eqn:H2; [apply Z.ltb_lt in H2|apply Z.ltb_ge in H2].
  { assert (2 * Z.abs (a - (q + 1) * b) <= b) by lia.
    split; [done|]. split; [lia|]. intros k'. by apply Hnear. }
  destruct (Z.even q) eqn:He.
  - assert (2 * Z.abs (a - q * b) <= b) by lia.
    split; [done|]. split; [done|]. intros k'. by apply Hnear.
  - assert (2 * Z.abs (a - (q + 1) * b) <= b) by lia.
    split; [done|]. split.
    + intros _. rewrite Z.even_add, He. done.
    + intros k'. by apply Hnear.
Qed.

Lemma div_half_even_exact c b : 0 < b -> div_half_even (c * b) b = c.
Proof.
  intros Hb. unfold div_half_even.
  rewrite Z.div_mul, Z.mod_mul by lia.
  destruct (2 * 0 <? b) eqn:H; [done|]. apply Z.ltb_ge in H. lia.
Qed.

Lemma div_half_even_ge a b c : 0 < b -> c * b <= a -> c <= div_half_even a b.
Proof.
  intros Hb Hc. assert (c <= a / b) by (apply Z.div_le_lower_bound; lia).
  unfold div_half_even. repeat case_match; lia.
Qed.

Lemma div_half_even_le a b c : 0 < b -> a <= c * b -> div_half_even a b <= c.
Proof.
  intros Hb Hc.
  destruct (Z.eq_dec a (c * b)) as [->|Hne]; [by rewrite div_half_even_exact|].
  assert (a / b < c) by (apply Z.div_lt_upper_bound; lia).
  unfold div_half_even. repeat case_match; lia.
Qed.



Lemma float_fields_range f :
  0 <= float_bits f < 2 ^ 64
  ∧ 0 <= float_exponent f < 2 ^ 11
  ∧ 0 <= float_fraction f < 2 ^ 52.
Proof.
  unfold float_exponent, float_fraction.
  split; [destruct f as [b]; apply Z.mod_pos_bound; lia|].
  split; apply Z.mod_pos_bound; lia.
Qed.

Lemma float_units_magnitude f :
  float_finite f = true -> is_magnitude (float_units f).
Proof.
  unfold float_finite, float_units. intros He%Z.ltb_lt.
  destruct (float_fields_range f) as (_ & Hexp & Hfrac).
  destruct (float_exponent f =? 0) eqn:H0; [by left|].
  apply Z.eqb_neq in H0. right.
  exists (float_exponent f - 1), (2 ^ 52 + float_fraction f). lia.
Qed.

Lemma float_of_fields (s : bool) e fraction :
  0 <= e < 2 ^ 11 -> 0 <= fraction < 2 ^ 52 ->
  let f := FloatBits ((if s then 2 ^ 63 else 0) + (e * 2 ^ 52 + fraction)) in
  float_negative f = s ∧ float_exponent f = e ∧ float_fraction f = fraction.
Proof.
  intros He Hf f. subst f.
  set (b := (if s then 2 ^ 63 else 0) + (e * 2 ^ 52 + fraction)).
  assert (0 <= b < 2 ^ 64) as Hb by (subst b; destruct s; lia).
  unfold float_negative, float_exponent, float_fraction, float_bits.
  rewrite (Z.mod_small b) by done.
  assert (b / 2 ^ 52 = (if s then 2 ^ 11 else 0) + e) as ->.
  { symmetry. apply (Z.div_unique _ _ _ fraction); [lia|]. subst b. destruct s; lia. }
  assert (b mod 2 ^ 52 = fraction) as ->.
  { symmetry. apply (Z.mod_unique _ _ ((if s then 2 ^ 11 else 0) + e)); [lia|].
    subst b. destruct s; lia. }
  split; [|split; [|done]].
  - subst b. destruct s; [apply Z.leb_le | apply Z.leb_gt]; lia.
  - destruct s; [|by apply Z.mod_small].
    rewrite <- (Z.mul_1_l (2 ^ 11)) at 1. rewrite Z.add_comm, Z.mod_add by lia.
    by apply Z.mod_small.
Qed.

Lemma float_of_units_small s u :
  0 <= u < 2 ^ 52 ->
  let f := float_of_units s u in
  float_finite f = true ∧ float_negative f = s ∧ float_units f = u.
Proof.
  intros Hu f. subst f. unfold float_of_units.
  destruct (u <? 2 ^ 52) eqn:H; [|apply Z.ltb_ge in H; lia].
  change (0 <=? 2046) with true. cbv iota.
  destruct (float_of_fields s 0 u ltac:(lia) Hu) as (Hs & He & Hf).
  unfold float_finite, float_units. rewrite He, Hf. done.
Qed.

Lemma log2_scaled m j :
  2 ^ 52 <= m < 2 ^ 53 -> 0 <= j -> Z.log2 (m * 2 ^ j) = 52 + j.
Proof.
  intros Hm Hj. apply Z.log2_unique; [lia|].
  rewrite Z.pow_succ_r, !Z.pow_add_r by lia.
  pose proof (Z.pow_pos_nonneg 2 j ltac:(lia) Hj). nia.
Qed.

Lemma float_of_units_normal s m j :
  2 ^ 52 <= m < 2 ^ 53 -> 0 <= j <= 2045 ->
  let f := float_of_units s (m * 2 ^ j) in
  float_finite f = true ∧ float_negative f = s ∧ float_units f = m * 2 ^ j.
Proof.
  intros Hm Hj f. subst f. unfold float_of_units.
  pose proof (Z.pow_pos_nonneg 2 j ltac:(lia) ltac:(lia)) as Hp.
  rewrite log2_scaled by lia.
  replace (Z.max 0 (52 + j - 52)) with j by lia.
  destruct (m * 2 ^ j <? 2 ^ 52) eqn:H; [apply Z.ltb_lt in H; nia|].
  rewrite Z.div_mul by lia.
  destruct (j + 1 <=? 2046) eqn:H1; [|apply Z.leb_gt in H1; lia].
  destruct (float_of_fields s (j + 1) (m - 2 ^ 52) ltac:(lia) ltac:(lia))
    as (Hs & He & Hf).
  unfold float_finite, float_units. rewrite He, Hf.
  split; [apply Z.ltb_lt; lia|]. split; [done|].
  destruct (j + 1 =? 0) eqn:H0; [apply Z.eqb_eq in H0; lia|].
  replace (j + 1 - 1) with j by lia. f_equal. lia.
Qed.

Lemma float_of_units_magnitude s u :
  is_magnitude u ->
  let f := float_of_units s u in
  float_finite f = true ∧ float_negative f = s ∧ float_units f = u.
Proof.
  intros [Hu|(j & m & Hj & Hm & ->)];
    [by apply float_of_units_small | by apply float_of_units_normal].
Qed.



Lemma magnitude_multiple u j :
  is_magnitude u -> 0 < j -> 2 ^ (52 + j) <= u -> ∃ c, u = c * 2 ^ j.
Proof.
  intros [Hu|(j' & m & Hj' & Hm & ->)] Hj Hle.
  - pose proof (Z.pow_le_mono_r 2 52 (52 + j) ltac:(lia) ltac:(lia)). lia.
  - destruct (Z.le_gt_cases j j') as [Hjj|Hjj].
    + exists (m * 2 ^ (j' - j)). rewrite <- Z.mul_assoc, <- Z.pow_add_r by lia.
      do 2 f_equal. lia.
    + exfalso. assert (m * 2 ^ j' < 2 ^ (52 + j)); [|lia].
      replace (52 + j) with (53 + (j - 1)) by lia. rewrite Z.pow_add_r by lia.
      pose proof (Z.pow_le_mono_r 2 j' (j - 1) ltac:(lia) ltac:(lia)).
      pose proof (Z.pow_pos_nonneg 2 j' ltac:(lia) ltac:(lia)). nia.
Qed.

(** [nearest_units p q] is a multiple [m * 2 ^ j] with [m] of at most
    53 bits, nearest to [p / q] among the magnitudes. *)
Lemma nearest_units_spec p q :
  0 < q -> 0 <= p ->
  let j := Z.max 0 (Z.log2 (p / q) - 52) in
  let m := div_half_even p (q * 2 ^ j) in
  nearest_units p q = m * 2 ^ j
  ∧ 0 <= m <= 2 ^ 53 ∧ (0 < j -> 2 ^ 52 <= m)
  ∧ ∀ d, is_magnitude d ->
      Z.abs (nearest_units p q * q - p) <= Z.abs (d * q - p).
Proof.
  intros Hq Hp j m. assert (0 <= j) as Hj by lia.
  pose proof (Z.pow_pos_nonneg 2 j ltac:(lia) Hj) as Hpj.
  assert (0 < q * 2 ^ j) as Hb by lia.
  assert (0 <= p / q) as Hdiv by (apply Z.div_pos; lia).
  pose proof (Z.div_mod p q ltac:(lia)) as Hdm.
  pose proof (Z.mod_pos_bound p q Hq) as Hr.
  (* the quotient lies below 2 ^ (53 + j), and from 2 ^ (52 + j) on when 0 < j *)
  assert (p < 2 ^ (53 + j) * q) as Hup.
  { destruct (Z.eq_dec (p / q) 0) as [H0|H0].
    - pose proof (Z.pow_pos_nonneg 2 (53 + j) ltac:(lia) ltac:(lia)). nia.
    - pose proof (Z.log2_spec (p / q) ltac:(lia)) as [_ Hlt].
      assert (2 ^ Z.succ (Z.log2 (p / q)) <= 2 ^ (53 + j))
        by (apply Z.pow_le_mono_r; lia).
      assert (p / q + 1 <= 2 ^ (53 + j)) by lia. nia. }
  assert (0 < j -> 2 ^ (52 + j) * q <= p) as Hlow.
  { intros H. assert (p / q ≠ 0) as H0.
    { intros H0. unfold j in H. rewrite H0 in H. simpl in H. lia. }
    pose proof (Z.log2_spec (p / q) ltac:(lia)) as [Hle _].
    replace (52 + j) with (Z.log2 (p / q)) by lia. nia. }
  assert (0 <= m <= 2 ^ 53) as Hm.
  { split.
    - apply div_half_even_ge; lia.
    - apply div_half_even_le; [done|].
      rewrite Z.pow_add_r in Hup by lia. nia. }
  assert (0 < j -> 2 ^ 52 <= m) as Hm'.
  { intros H. apply div_half_even_ge; [done|]. specialize (Hlow H).
    rewrite Z.pow_add_r in Hlow by lia. nia. }
  split; [done|]. split; [done|]. split; [done|].
  intros d Hd. unfold nearest_units. fold j. fold m.
  destruct (div_half_even_spec p (q * 2 ^ j) Hb) as (_ & _ & Hnear). fold m in Hnear.
  assert (∀ c, Z.abs (m * 2 ^ j * q - p) <= Z.abs (c * 2 ^ j * q - p)) as Hmult.
  { intros c. specialize (Hnear c).
    replace (m * 2 ^ j * q - p) with (- (p - m * (q * 2 ^ j))) by ring.
    replace (c * 2 ^ j * q - p) with (- (p - c * (q * 2 ^ j))) by ring.
    by rewrite !Z.abs_opp. }
  destruct (Z.eq_dec j 0) as [Hj0|Hj0].
  { specialize (Hmult d). rewrite Hj0 in *. by rewrite !Z.mul_1_r in *. }
  destruct (Z.le_gt_cases (2 ^ (52 + j)) d) as [Hbig|Hsmall].
  - destruct (magnitude_multiple d j Hd ltac:(lia) Hbig) as [c ->]. apply Hmult.
  - specialize (Hmult (2 ^ 52)). specialize (Hlow ltac:(lia)).
    rewrite Z.pow_add_r in Hlow, Hsmall by lia.
    assert (0 <= d) by (destruct Hd as [?|(j' & m' & ? & ? & ->)]; [lia|];
      pose proof (Z.pow_pos_nonneg 2 j' ltac:(lia) ltac:(lia)); nia).
    etrans; [exact Hmult|]. rewrite !Z.abs_neq by nia. nia.
Qed.

Lemma nearest_units_magnitude p q :
  0 < q -> 0 <= p -> p <= 2 ^ 1126 * q -> is_magnitude (nearest_units p q).
Proof.
  intros Hq Hp Hle.
  destruct (nearest_units_spec p q Hq Hp) as (-> & Hm & Hm' & _).
  set (j := Z.max 0 (Z.log2 (p / q) - 52)) in *.
  set (m := div_half_even p (q * 2 ^ j)) in *.
  assert (Z.log2 (p / q) <= 1126) as Hlog.
  { assert (p / q <= 2 ^ 1126) by (apply Z.div_le_upper_bound; lia).
    rewrite <- (Z.log2_pow2 1126) by lia. by apply Z.log2_le_mono. }
  assert (0 <= j <= 1074) as Hj by lia.
  pose proof (Z.pow_pos_nonneg 2 j ltac:(lia) ltac:(lia)) as Hpj.
  destruct (Z.eq_dec m (2 ^ 53)) as [->|Hne].
  - right. exists (j + 1), (2 ^ 52). split; [lia|]. split; [lia|].
    rewrite Z.pow_add_r by lia. lia.
  - destruct (Z.le_gt_cases (2 ^ 52) m) as [Hge|Hlt].
    + right. exists j, m. lia.
    + left. assert (j = 0) as -> by lia. lia.
Qed.

Lemma nearest_units_exact u s :
  0 < s -> is_magnitude u -> nearest_units (u * s) s = u.
Proof.
  intros Hs Hu. unfold nearest_units. rewrite Z.div_mul by lia.
  destruct Hu as [Hu|(j & m & Hj & Hm & ->)].
  - assert (Z.log2 u <= 52).
    { destruct (Z.eq_dec u 0) as [->|]; [done|].
      assert (Z.log2 u < 52); [|lia]. apply Z.log2_lt_pow2; lia. }
    replace (Z.max 0 (Z.log2 u - 52)) with 0 by lia.
    rewrite Z.pow_0_r, !Z.mul_1_r. by rewrite div_half_even_exact by lia.
  - rewrite log2_scaled by lia. replace (Z.max 0 (52 + j - 52)) with j by lia.
    pose proof (Z.pow_pos_nonneg 2 j ltac:(lia) ltac:(lia)).
    replace (m * 2 ^ j * s) with (m * (s * 2 ^ j)) by ring.
    by rewrite div_half_even_exact by lia.
Qed.



Lemma double_round_rounded f places :
  0 <= places -> rounded places f (double_round f places).
Proof.
  intros Hplaces. unfold rounded, double_round.
  destruct (float_finite f) eqn:Hfin; [|done].
  pose proof (float_units_magnitude f Hfin) as Hu.
  set (u := float_units f) in *. set (s := 10 ^ places).
  assert (0 < s) as Hs by (apply Z.pow_pos_nonneg; lia).
  assert (0 <= u) as Hu0.
  { destruct Hu as [?|(j & m & ? & ? & ->)]; [lia|].
    pose proof (Z.pow_pos_nonneg 2 j ltac:(lia) ltac:(lia)). nia. }
  set (k := div_half_even (u * s) (2 ^ 1074)).
  assert (0 < 2 ^ 1074) as HU by (apply Z.pow_pos_nonneg; lia).
  assert (2 ^ 1074 = 2 * 2 ^ 1073) as HU2
    by (by rewrite <- Z.pow_succ_r by lia).
  assert (2 ^ 1126 = 2 ^ 52 * 2 ^ 1074) as HU3
    by (by rewrite <- Z.pow_add_r by lia).
  assert (0 <= k) as Hk by (apply div_half_even_ge; lia).
  destruct (div_half_even_spec (u * s) (2 ^ 1074) HU) as (Hhalf & Heven & _).
  fold k in Hhalf, Heven.
  assert (is_magnitude (nearest_units (k * 2 ^ 1074) s)) as Hmag.
  { destruct Hu as [Hsmall|(j & m & Hj & Hm & Hum)].
    - apply nearest_units_magnitude; [done | lia |].
      assert (k <= 2 ^ 52 * s); [|rewrite HU3; nia].
      apply div_half_even_le; [done|]. nia.
    - destruct (Z.le_gt_cases 1074 j) as [Hbig|Hlow].
      + assert (u * s = (m * 2 ^ (j - 1074) * s) * 2 ^ 1074) as Hex.
        { rewrite Hum. replace j with ((j - 1074) + 1074) at 1 by lia.
          rewrite Z.pow_add_r by lia. ring. }
        assert (k = m * 2 ^ (j - 1074) * s) as Hkx
          by (unfold k; rewrite Hex; by apply div_half_even_exact).
        replace (k * 2 ^ 1074) with (u * s) by (rewrite Hex, Hkx; ring).
        rewrite nearest_units_exact; [|done|]; right; exists j, m; done.
      + apply nearest_units_magnitude; [done | lia |].
        assert (k <= 2 ^ 52 * s); [|rewrite HU3; nia].
        apply div_half_even_le; [done|].
        assert (u <= 2 ^ 52 * 2 ^ 1074); [|nia].
        rewrite Hum, <- Z.pow_add_r by lia.
        replace (52 + 1074) with (53 + 1073) by lia. rewrite Z.pow_add_r by lia.
        pose proof (Z.pow_le_mono_r 2 j 1073 ltac:(lia) ltac:(lia)).
        pose proof (Z.pow_pos_nonneg 2 j ltac:(lia) ltac:(lia)). nia. }
  destruct (float_of_units_magnitude (float_negative f) _ Hmag) as (Hf & Hn & Hunits).
  split; [done|]. split; [done|]. exists k. rewrite Hunits.
  split; [lia|]. split; [intros H; apply Heven; lia|].
  intros d Hd%float_units_magnitude.
  by destruct (nearest_units_spec (k * 2 ^ 1074) s Hs ltac:(lia)) as (_ & _ & _ & Hnear);
    apply Hnear.
Qed.

End Doubles.

(** * The transcription script *)
Section Entries.
Import Py Transcribe Spec.

Variable float_round : float64 -> Z -> float64.

Lemma collect_ret {A B} (f : A -> outcome B) l ys :
  collect f l = Ret ys <-> Forall2 (fun x y => f x = Ret y) l ys.
Proof.
  revert ys. induction l as [|x l IH]; intros ys; simpl.
  - split; [intros [= <-]; constructor | by intros ->%Forall2_nil_inv_l].
  - split.
    + destruct (f x) as [y| |] eqn:Hx; [|done|done].
      destruct (collect f l) as [ys'| |]; [|done|done].
      intros [= <-]. constructor; [done | by apply IH].
    + intros (y & ys' & Hx & Hl & ->)%Forall2_cons_inv_l.
      rewrite Hx. apply IH in Hl. by rewrite Hl.
Qed.

Lemma round_number v ndigits :
  is_number v = true -> ∃ r, round float_round v ndigits = Ret r.
Proof. destruct v; simpl; try done; eauto. Qed.

Lemma entry_function_timed whisperx seg :
  timed_segment seg -> ∃ entry, entry_function float_round whisperx seg = Ret entry.
Proof.
  intros (d & -> & Hs & He & Ht).
  destruct (round_number _ 2 Hs) as [start Hstart].
  destruct (round_number _ 2 He) as [end_ Hend].
  destruct (default (VStr "") (lookup_key "text" d)) as [| | | |text| |] eqn:Htext;
    try done.
  destruct whisperx; unfold entry_function, whisperx_entry, whisper_entry,
    mbind, outcome_bind; simpl; rewrite Hstart, Hend, Htext; simpl; eauto.
Qed.

Lemma collect_entries whisperx segs :
  Forall timed_segment segs ->
  ∃ transcript, collect (entry_function float_round whisperx) segs = Ret transcript.
Proof.
  induction 1 as [|seg segs Hseg _ [transcript IH]]; [by exists []|].
  destruct (entry_function_timed whisperx seg Hseg) as [entry He].
  exists (entry :: transcript). simpl. by rewrite He, IH.
Qed.

Lemma pure_no_exit_round v ndigits : pure_no_exit (round float_round v ndigits).
Proof. destruct v; simpl; (left; eauto; fail) || (right; eauto). Qed.

Lemma pure_no_exit_strip_method v : pure_no_exit (strip_method v).
Proof. destruct v; simpl; (left; eauto; fail) || (right; eauto). Qed.

Lemma pure_no_exit_entry whisperx seg :
  pure_no_exit (entry_function float_round whisperx seg).
Proof.
  destruct whisperx; unfold entry_function, whisperx_entry, whisper_entry.
  all: destruct (pure_no_exit_get seg "start" (VInt 0)) as [[v1 ->]|[e ->]];
    [|right; eauto]; cbn [mbind outcome_bind].
  all: destruct (pure_no_exit_round v1 2) as [[start ->]|[e ->]];
    [|right; eauto]; cbn [mbind outcome_bind].
  all: destruct (pure_no_exit_get seg "end" (VInt 0)) as [[v2 ->]|[e ->]];
    [|right; eauto]; cbn [mbind outcome_bind].
  all: destruct (pure_no_exit_round v2 2) as [[end_ ->]|[e ->]];
    [|right; eauto]; cbn [mbind outcome_bind].
  1: destruct (pure_no_exit_get seg "speaker" (VStr "SPEAKER_00")) as [[v3 ->]|[e ->]];
    [|right; eauto]; cbn [mbind outcome_bind].
  all: destruct (pure_no_exit_get seg "text" (VStr "")) as [[v4 ->]|[e ->]];
    [|right; eauto]; cbn [mbind outcome_bind].
  all: destruct (pure_no_exit_strip_method v4) as [[text ->]|[e ->]];
    [|right; eauto]; cbn [mbind outcome_bind]; left; eauto.
Qed.

Lemma printed_since_refl st : printed_since st st.
Proof. repeat split. exists []. by rewrite app_nil_r. Qed.

Lemma printed_since_trans st1 st2 st3 :
  printed_since st1 st2 -> printed_since st2 st3 -> printed_since st1 st3.
Proof.
  intros (Hs1 & Hw1 & l1 & Ho1) (Hs2 & Hw2 & l2 & Ho2).
  split; [congruence|]. split; [congruence|].
  exists (l1 ++ l2). by rewrite Ho2, Ho1, app_assoc.
Qed.

Lemma printed_since_printing line st st' :
  printed_since st st' -> printed_since st (printing line st').
Proof.
  intros H. apply (printed_since_trans _ st'); [done|].
  repeat split. by exists [line].
Qed.

(** What [save_transcript] does: it writes the entries, reports the
    file and returns them, or fails and leaves the state as it was. *)
Lemma save_transcript_run w entry result output_path st :
  save_transcript w entry result output_path st
  = match (segments ← get result "segments" (VList []);
           segs ← iterate segments;
           collect entry segs) with
    | Ret transcript =>
        match create_file w output_path with
        | Done _ =>
            (Ret transcript,
             printing (saved_line output_path)
               (writing output_path (transcript_document transcript) st))
        | Failed e => (Raise e, st)
        end
    | Raise e => (Raise e, st)
    | Exit c => (Exit c, st)
    end.
Proof.
  unfold save_transcript, mbind, M_bind, outcome_bind, lift, dump_json.
  destruct (get result "segments" (VList [])) as [segments| |]; [|done|done].
  destruct (iterate segments) as [segs| |]; [|done|done].
  destruct (collect entry segs) as [transcript| |]; [|done|done].
  by destruct (create_file w output_path).
Qed.

Lemma save_transcript_returns w entry result output_path st transcript st' :
  save_transcript w entry result output_path st = (Ret transcript, st') ->
  ∃ segments segs,
    get result "segments" (VList []) = Ret segments
    ∧ iterate segments = Ret segs
    ∧ collect entry segs = Ret transcript
    ∧ st' = printing (saved_line output_path)
              (writing output_path (transcript_document transcript) st).
Proof.
  rewrite save_transcript_run. unfold mbind, outcome_bind.
  destruct (get result "segments" (VList [])) as [segments| |] eqn:Hg; [|done|done].
  destruct (iterate segments) as [segs| |] eqn:Hi; [|done|done].
  destruct (collect entry segs) as [t| |] eqn:Hc; [|done|done].
  destruct (create_file w output_path); [|done].
  intros [= <- <-]. by exists segments, segs.
Qed.

(** Saving writes the file and returns, or raises and leaves the state
    as it was. *)
Lemma save_transcript_cases w whisperx result output_path st :
  let run := save_transcript w (entry_function float_round whisperx) result
               output_path st in
  (∃ transcript,
      run = (Ret transcript,
             printing (saved_line output_path)
               (writing output_path (transcript_document transcript) st)))
  ∨ (∃ e, run = (Raise e, st)).
Proof.
  intros run. subst run. rewrite save_transcript_run.
  destruct (pure_no_exit_get result "segments" (VList [])) as [[segments ->]|[e ->]];
    [|right; eauto]. cbn [mbind outcome_bind].
  destruct (pure_no_exit_iterate segments) as [[segs ->]|[e ->]]; [|right; eauto].
  cbn [mbind outcome_bind].
  destruct (pure_no_exit_collect (entry_function float_round whisperx) segs
              (pure_no_exit_entry whisperx)) as [[transcript ->]|[e ->]];
    [|right; eauto].
  destruct (create_file w output_path); [left | right]; eauto.
Qed.

Ltac printed :=
  repeat (apply printed_since_printing); apply printed_since_refl.

(** The WhisperX path comes to saving the transcript of its result,
    or raises after progress lines only. *)
Lemma with_whisperx_run w lib audio_path output_path hf_token st :
  (∃ result st1,
      speech_result lib audio_path hf_token true result
      ∧ printed_since st st1
      ∧ with_whisperx float_round w lib audio_path output_path hf_token st
        = save_transcript w (whisperx_entry float_round) result output_path st1)
  ∨ (∃ e st',
        with_whisperx float_round w lib audio_path output_path hf_token st
        = (Raise e, st')
        ∧ printed_since st st').
Proof.
  unfold with_whisperx, speech_result, mbind, M_bind, attempted, lift, print.
  destruct (whisperx_cuda lib) as [cuda|e] eqn:Hcuda; simpl;
    [|right; eexists _, _; split; [done | printed]].
  destruct (whisperx_load_model lib _) as [[]|e] eqn:Hload; simpl;
    [|right; eexists _, _; split; [done | printed]].
  destruct (whisperx_transcribe lib audio_path) as [raw|e] eqn:Hraw; simpl;
    [|right; eexists _, _; split; [done | printed]].
  destruct (pure_no_exit_item raw "language") as [[language Hl]|[e Hl]]; rewrite Hl;
    [|right; eexists _, _; split; [done | printed]].
  destruct (whisperx_load_align_model lib language) as [model_a|e] eqn:Hm; simpl;
    [|right; eexists _, _; split; [done | printed]].
  destruct (pure_no_exit_item raw "segments") as [[segments Hsg]|[e Hsg]]; rewrite Hsg;
    [|right; eexists _, _; split; [done | printed]].
  destruct (whisperx_align lib segments model_a) as [aligned|e] eqn:Ha; simpl;
    [|right; eexists _, _; split; [done | printed]].
  destruct (unset hf_token) eqn:Hu; simpl.
  - left. eexists aligned, _. split; [|split; [|done]]; [|printed].
    by exists cuda, raw, language, model_a, segments, aligned.
  - destruct (whisperx_diarize lib (env_text hf_token) aligned) as [result|e] eqn:Hd;
      simpl; [|right; eexists _, _; split; [done | printed]].
    left. eexists result, _. split; [|split; [|done]]; [|printed].
    by exists cuda, raw, language, model_a, segments, aligned.
Qed.

Lemma with_whisper_run w lib audio_path output_path st :
  (∃ result st1,
      speech_result lib audio_path None false result
      ∧ printed_since st st1
      ∧ with_whisper float_round w lib audio_path output_path st
        = save_transcript w (whisper_entry float_round) result output_path st1)
  ∨ (∃ e st',
        with_whisper float_round w lib audio_path output_path st = (Raise e, st')
        ∧ printed_since st st').
Proof.
  unfold with_whisper, speech_result, mbind, M_bind, attempted, lift, print.
  destruct (whisper_import lib) as [[]|e] eqn:Himport; simpl;
    [|right; eexists _, _; split; [done | printed]].
  destruct (whisper_load_model lib) as [[]|e] eqn:Hload; simpl;
    [|right; eexists _, _; split; [done | printed]].
  destruct (whisper_transcribe lib audio_path) as [result|e] eqn:Hres; simpl;
    [|right; eexists _, _; split; [done | printed]].
  left. eexists result, _. split; [done|]. split; [|done]. printed.
Qed.

(** The outcome of the plain Whisper path does not depend on what has
    been printed before. *)
Lemma with_whisper_outcome w lib audio_path output_path st st0 :
  (with_whisper float_round w lib audio_path output_path st).1
  = (with_whisper float_round w lib audio_path output_path st0).1.
Proof.
  unfold with_whisper, mbind, M_bind, attempted, lift, print.
  destruct (whisper_import lib) as [[]|e]; simpl; [|done].
  destruct (whisper_load_model lib) as [[]|e]; simpl; [|done].
  destruct (whisper_transcribe lib audio_path) as [result|e]; simpl; [|done].
  rewrite !save_transcript_run.
  destruct (_ ≫= _) as [t| |]; [|done|done].
  by destruct (create_file w output_path).
Qed.

(** A path returns with the file written and reported last, or raises
    with no file written. *)
Lemma with_whisperx_cases w lib audio_path output_path hf_token st :
  let run := with_whisperx float_round w lib audio_path output_path hf_token st in
  (∃ transcript st1,
      printed_since st st1
      ∧ run = (Ret transcript,
               printing (saved_line output_path)
                 (writing output_path (transcript_document transcript) st1)))
  ∨ (∃ e st', run = (Raise e, st') ∧ printed_since st st').
Proof.
  intros run. subst run.
  destruct (with_whisperx_run w lib audio_path output_path hf_token st)
    as [(result & st1 & _ & Hst1 & ->)|H]; [|by right].
  destruct (save_transcript_cases w true result output_path st1) as [[t Ht]|[e He]];
    unfold entry_function in *.
  - left. by exists t, st1.
  - right. by exists e, st1.
Qed.

Lemma with_whisper_cases w lib audio_path output_path st :
  let run := with_whisper float_round w lib audio_path output_path st in
  (∃ transcript st1,
      printed_since st st1
      ∧ run = (Ret transcript,
               printing (saved_line output_path)
                 (writing output_path (transcript_document transcript) st1)))
  ∨ (∃ e st', run = (Raise e, st') ∧ printed_since st st').
Proof.
  intros run. subst run.
  destruct (with_whisper_run w lib audio_path output_path st)
    as [(result & st1 & _ & Hst1 & ->)|H]; [|by right].
  destruct (save_transcript_cases w false result output_path st1) as [[t Ht]|[e He]];
    unfold entry_function in *.
  - left. by exists t, st1.
  - right. by exists e, st1.
Qed.

(** The two [try] blocks: plain Whisper is tried after an
    [ImportError] of the WhisperX path, and the run leaves with status 1
    after an [ImportError] of both. *)
Lemma transcribe_and_diarize_steps w lib audio_path output_path hf_token st :
  transcribe_and_diarize float_round w lib audio_path output_path hf_token st
  = match with_whisperx float_round w lib audio_path output_path hf_token st with
    | (Raise ImportError, s1) =>
        match with_whisper float_round w lib audio_path output_path
                (printing (Text "⚠️ WhisperX not available, falling back to basic whisper...") s1) with
        | (Raise ImportError, s2) =>
            (Exit 1,
             printing (Text "   Install with: pip install openai-whisper  OR  pip install whisperx")
               (printing (Text "❌ Neither whisperx nor whisper is installed.") s2))
        | r => r
        end
    | r => r
    end.
Proof.
  unfold transcribe_and_diarize, try_except_import.
  by destruct (with_whisperx float_round w lib audio_path output_path hf_token st)
    as [[t|e|c] s1].
Qed.

(** A run that returns has saved the transcript of the result of one
    of the two paths, after progress lines only. *)
Lemma transcribe_and_diarize_returns w lib audio_path output_path hf_token st
    transcript st' :
  transcribe_and_diarize float_round w lib audio_path output_path hf_token st
  = (Ret transcript, st') ->
  ∃ whisperx result st1,
    speech_result lib audio_path hf_token whisperx result
    ∧ printed_since st st1
    ∧ save_transcript w (entry_function float_round whisperx) result output_path st1
      = (Ret transcript, st').
Proof.
  unfold transcribe_and_diarize, try_except_import.
  destruct (with_whisperx_run w lib audio_path output_path hf_token st)
    as [(result & st1 & Hres & Hst1 & ->)|(e & s1 & -> & Hs1)].
  - destruct (save_transcript_cases w true result output_path st1) as [[t Ht]|[e He]];
      unfold entry_function in *.
    + rewrite Ht. intros [= <- <-]. by exists true, result, st1.
    + rewrite He. destruct e; try done.
      unfold mbind, M_bind, print.
      destruct (with_whisper_run w lib audio_path output_path
                  (printing (Text "⚠️ WhisperX not available, falling back to basic whisper...") st1))
        as [(result2 & st2 & Hres2 & Hst2 & ->)|(e & s2 & -> & Hs2)].
      * destruct (save_transcript_cases w false result2 output_path st2)
          as [[t Ht]|[e He2]]; unfold entry_function in *.
        -- rewrite Ht. intros [= <- <-]. exists false, result2, st2.
           split; [exact Hres2|]. split; [|done].
           eapply printed_since_trans; [|exact Hst2].
           by apply printed_since_printing.
        -- rewrite He2. by destruct e.
      * by destruct e.
  - destruct e; try done.
    unfold mbind, M_bind, print.
    destruct (with_whisper_run w lib audio_path output_path
                (printing (Text "⚠️ WhisperX not available, falling back to basic whisper...") s1))
      as [(result2 & st2 & Hres2 & Hst2 & ->)|(e & s2 & -> & Hs2)].
    + destruct (save_transcript_cases w false result2 output_path st2)
        as [[t Ht]|[e He2]]; unfold entry_function in *.
      * rewrite Ht. intros [= <- <-]. exists false, result2, st2.
        split; [exact Hres2|]. split; [|done].
        eapply printed_since_trans; [|exact Hst2].
        by apply printed_since_printing.
      * rewrite He2. by destruct e.
    + by destruct e.
Qed.

End Entries.

Section RoundedEntries.
Import Py Transcribe Spec.

Lemma round_rounded_time v r :
  round double_round v 2 = Ret r -> rounded_time v r.
Proof.
  destruct v as [| | |f| | |]; simpl; try done; intros [= <-]; try done.
  exists (double_round f 2). split; [done|]. by apply double_round_rounded.
Qed.

Lemma entry_function_of whisperx seg entry :
  entry_function double_round whisperx seg = Ret entry -> entry_of whisperx seg entry.
Proof.
  destruct whisperx; unfold entry_function, whisperx_entry, whisper_entry,
    mbind, outcome_bind.
  all: destruct seg as [| | | | | |d]; simpl; try done.
  all: destruct (round double_round (default (VInt 0) (lookup_key "start" d)) 2)
    as [start| |] eqn:Hs; [|done|done].
  all: destruct (round double_round (default (VInt 0) (lookup_key "end" d)) 2)
    as [end_| |] eqn:He; [|done|done].
  all: destruct (default (VStr "") (lookup_key "text" d)) as [| | | |text| |] eqn:Ht;
    simpl; try done.
  all: intros [= <-]; eexists d, _, start, end_, text.
  all: apply round_rounded_time in Hs; apply round_rounded_time in He.
  all: by repeat split.
Qed.

Lemma collect_entry_of whisperx segs transcript :
  collect (entry_function double_round whisperx) segs = Ret transcript ->
  Forall2 (entry_of whisperx) segs transcript.
Proof.
  intros Hc%collect_ret. eapply Forall2_impl; [exact Hc|].
  intros seg entry. apply entry_function_of.
Qed.

(** C6.  With the rounding of CPython, a run that returns has taken
    the result of the speech model on one of the two paths and has
    written, to [output_path], an object whose ["segments"] are the
    entries of the segments of that result, in order.  Each entry has
    exactly the fields start, end, speaker and text: the times of the
    segment rounded to two decimal places (0 for a missing time), the
    label of the segment, or ["SPEAKER_00"] for a segment without one
    and on the plain Whisper path, and the stripped text.  The file is
    the only one written, its path is the last line on standard output,
    and nothing is sent.  The run returns in this way whenever the
    model gives a result whose segments are timed segments and the file
    can be created (on the plain Whisper path: when the WhisperX path
    raises [ImportError]). *)
Theorem transcribe_and_diarize_transcript w lib audio_path output_path hf_token st :
  (∀ transcript st',
     transcribe_and_diarize double_round w lib audio_path output_path hf_token st
     = (Ret transcript, st') ->
     ∃ whisperx result segments segs lines,
       speech_result lib audio_path hf_token whisperx result
       ∧ get result "segments" (VList []) = Ret segments
       ∧ iterate segments = Ret segs
       ∧ Forall2 (entry_of whisperx) segs transcript
       ∧ written st' = written st ++ [(output_path, transcript_document transcript)]
       ∧ stdout st' = stdout st ++ lines ++ [saved_line output_path]
       ∧ sent st' = sent st)
  ∧ (∀ whisperx result segs,
       speech_result lib audio_path hf_token whisperx result ->
       (whisperx = false ->
        (with_whisperx double_round w lib audio_path output_path hf_token st).1
        = Raise ImportError) ->
       get result "segments" (VList []) = Ret (VList segs) ->
       Forall timed_segment segs ->
       create_file w output_path = Done tt ->
       ∃ transcript st',
         transcribe_and_diarize double_round w lib audio_path output_path hf_token st
         = (Ret transcript, st')
         ∧ Forall2 (entry_of whisperx) segs transcript
         ∧ written st' = written st ++ [(output_path, transcript_document transcript)]).
Proof.
  split.
  - intros transcript st' Hrun.
    apply transcribe_and_diarize_returns in Hrun
      as (whisperx & result & st1 & Hres & (Hsent & Hwr & lines & Hout) & Hsave).
    apply save_transcript_returns in Hsave as (segments & segs & Hg & Hi & Hc & ->).
    exists whisperx, result, segments, segs, lines.
    split; [done|]. split; [done|]. split; [done|].
    split; [by apply collect_entry_of|].
    simpl. rewrite Hwr, Hout, Hsent, <- app_assoc. done.
  - intros whisperx result segs Hres Himport Hget Hsegs Hcreate.
    destruct (collect_entries double_round whisperx segs Hsegs) as [transcript Hc].
    assert (∀ s, save_transcript w (entry_function double_round whisperx) result
                   output_path s
                 = (Ret transcript,
                    printing (saved_line output_path)
                      (writing output_path (transcript_document transcript) s)))
      as Hsave.
    { intros s. rewrite save_transcript_run. unfold mbind, outcome_bind.
      rewrite Hget. simpl. by rewrite Hc, Hcreate. }
    exists transcript.
    unfold transcribe_and_diarize, try_except_import.
    destruct whisperx; unfold entry_function in Hsave.
    + destruct (with_whisperx_run double_round w lib audio_path output_path hf_token st)
        as [(result' & st1 & Hres' & (Hsent & Hwr & _) & ->)|(e & s1 & Hfail & _)].
      * assert (result' = result) as ->.
        { destruct Hres as (cuda & raw & language & model_a & segments & aligned
                            & Hcuda & Hload & Hraw & Hlang & Hmodel & Hseg & Halign & Hdia).
          destruct Hres' as (cuda' & raw' & language' & model_a' & segments' & aligned'
                             & Hcuda' & Hload' & Hraw' & Hlang' & Hmodel' & Hseg'
                             & Halign' & Hdia').
          assert (raw' = raw) as -> by congruence.
          assert (language' = language) as -> by congruence.
          assert (model_a' = model_a) as -> by congruence.
          assert (segments' = segments) as -> by congruence.
          assert (aligned' = aligned) as -> by congruence.
          destruct (unset hf_token); congruence. }
        rewrite Hsave. eexists. split; [done|].
        split; [by apply collect_entry_of|]. simpl. by rewrite Hwr.
      * exfalso. revert Hfail.
        destruct Hres as (cuda & raw & language & model_a & segments & aligned
                          & Hcuda & Hload & Hraw & Hlang & Hmodel & Hseg & Halign & Hdia).
        unfold with_whisperx, mbind, M_bind, attempted, lift, print.
        rewrite Hcuda. simpl. rewrite Hload. simpl. rewrite Hraw. simpl.
        rewrite Hlang, Hmodel. simpl. rewrite Hseg, Halign. simpl.
        destruct (unset hf_token); simpl.
        -- subst. by rewrite Hsave.
        -- rewrite Hdia. simpl. by rewrite Hsave.
    + specialize (Himport eq_refl).
      destruct (with_whisperx double_round w lib audio_path output_path hf_token st)
        as [r1 s1] eqn:H1. simpl in Himport. subst r1.
      assert (printed_since st s1) as (Hsent & Hwr & _).
      { destruct (with_whisperx_run double_round w lib audio_path output_path hf_token st)
          as [(result' & st1 & _ & Hst1 & Heq)|(e & s' & Heq & Hs')];
          rewrite H1 in Heq.
        - destruct (save_transcript_cases double_round w true result' output_path st1)
            as [[t Ht]|[e He]]; unfold entry_function in *; rewrite <- Heq in *.
          + done.
          + by injection He as _ ->.
        - by injection Heq as _ ->. }
      destruct Hres as (Himp & Hload & Hres).
      unfold mbind at 1, M_bind at 1, print at 1.
      unfold with_whisper, mbind, M_bind, attempted, lift, print.
      rewrite Himp. simpl. rewrite Hload. simpl. rewrite Hres. simpl.
      rewrite Hsave. eexists. split; [done|].
      split; [by apply collect_entry_of|]. simpl. by rewrite Hwr.
Qed.

End RoundedEntries.

Section TranscriptionRuns.
Import Py Transcribe Spec.

(** C6 where only plain Whisper is installed: the two segments of its
    result are written with the speaker ["SPEAKER_00"], and the end of
    the second one, [4.2567], as [4.26]. *)
Lemma transcribe_and_diarize_transcript_witness :
  ∃ st',
    transcribe_and_diarize double_round Scenarios.offline
      Scenarios.whisper_only "talk.wav" "talk.json" None initial
    = (Ret Scenarios.whisper_transcript, st')
    ∧ written st' = [("talk.json", transcript_document Scenarios.whisper_transcript)]
    ∧ stdout st'
      = [Text "⚠️ WhisperX not available, falling back to basic whisper...";
         Text "🎙️ Loading Whisper model...";
         Text "🎙️ Transcribing: talk.wav";
         Text "✅ Transcript saved to: talk.json"]
    ∧ ∃ segs,
        get Scenarios.whisper_output "segments" (VList []) = Ret (VList segs)
        ∧ Forall2 (entry_of false) segs Scenarios.whisper_transcript.
Proof.
  destruct (transcribe_and_diarize_transcript Scenarios.offline
              Scenarios.whisper_only "talk.wav" "talk.json" None initial)
    as [_ Hrun].
  destruct (Hrun false Scenarios.whisper_output _
              (conj eq_refl (conj eq_refl eq_refl)) (fun _ => eq_refl) eq_refl)
    as (transcript & st' & Hret & Hent & Hwr).
  - repeat constructor; eexists; (split; [reflexivity|]); repeat split.
  - reflexivity.
  - assert (transcript = Scenarios.whisper_transcript) as ->.
    { revert Hret. vm_compute. by intros [= <- _]. }
    exists st'. split; [exact Hret|]. split; [exact Hwr|].
    split; [|eexists; split; [reflexivity | exact Hent]].
    revert Hret. vm_compute. by intros [= <-].
Defined.

End TranscriptionRuns.



(** * The document ingestion script *)
Section Ingestion.
Import Py DocIngest Spec.

(** A quiet computation that returns has printed nothing. *)
Lemma quiet_returns {A} (m : M A) st a st' :
  quiet m -> m st = (Ret a, st') -> stdout st' = stdout st.
Proof.
  intros Hm H. destruct (Hm st) as (st1 & Hout & _ & [[a1 H1]|[e H1]]);
    rewrite H1 in H; [by injection H as <- <-|done].
Qed.

Lemma extract_text_returns w pdf file_path st text st' :
  extract_text w pdf file_path st = (Ret text, st') -> stdout st' = stdout st.
Proof.
  unfold extract_text.
  destruct (String.eqb _ ".txt"); [apply quiet_returns, quiet_attempted|].
  destruct (String.eqb _ ".pdf"); [|done].
  unfold try_except_import, mbind, M_bind, attempted.
  destruct (pdf_pages pdf file_path) as [pages|e]; simpl; [by intros [= _ <-]|].
  by destruct e.
Qed.

Lemma quiet_embeddings_call w texts :
  quiet (response ← send w (embeddings_request w texts);
         raise_for_status response;;
         data ← json response;
         items ← lift (item data "data");
         items ← lift (iterate items);
         lift (collect (fun entry => item entry "embedding") items)).
Proof.
  repeat (apply quiet_bind; [|intros ?]);
    auto using quiet_send, quiet_raise_for_status, quiet_json, quiet_lift,
      pure_no_exit_item, pure_no_exit_iterate, pure_no_exit_collect.
Qed.

Lemma get_embeddings_returns w texts st embeddings st' :
  get_embeddings w texts st = (Ret embeddings, st') -> stdout st' = stdout st.
Proof.
  unfold get_embeddings. destruct (unset _); [done|].
  unfold try_except.
  destruct (quiet_embeddings_call w texts st) as (st1 & Hout & _ & [[a H]|[e H]]);
    rewrite H; [by intros [= _ <-] | done].
Qed.

Lemma quiet_store_rows w doc_id rows : forall i, quiet (store_rows w doc_id i rows).
Proof.
  induction rows as [|[chunk embedding] rows IH]; intros i; simpl;
    [apply quiet_ret|].
  apply quiet_bind; [apply quiet_send | intros _; apply IH].
Qed.

Lemma store_chunks_returns w doc_id chunks embeddings st st' :
  store_chunks_in_supabase w doc_id chunks embeddings st = (Ret tt, st') ->
  stdout st' = stdout st.
Proof.
  unfold store_chunks_in_supabase. destruct (_ || _); [done|].
  unfold try_except.
  destruct (quiet_store_rows w doc_id (zip chunks embeddings) 0 st)
    as (st1 & Hout & _ & [[a H]|[e H]]);
    rewrite H; [by intros [= _ <-] | done].
Qed.

(** C7.  A run of [ingest_document] that returns has extracted a text
    and has printed one line on standard output, the JSON object
    [result]: its ["chunks_created"] is the number of chunks that
    [chunk_text] makes of that text and its ["status"] is ["success"]. *)
Theorem ingest_document_result w pdf file_path doc_id st result st' :
  ingest_document w pdf file_path doc_id st = (Ret result, st') ->
  ∃ text st0,
    extract_text w pdf file_path st = (Ret text, st0)
    ∧ result = ingest_result doc_id (chunk_text_default text)
    ∧ item result "chunks_created"
      = Ret (VInt (Z.of_nat (List.length (chunk_text_default text))))
    ∧ (∀ fuel chunks,
         chunk_text fuel text default_chunk_size default_overlap = Some chunks ->
         item result "chunks_created" = Ret (VInt (Z.of_nat (List.length chunks))))
    ∧ item result "status" = Ret (VStr "success")
    ∧ stdout st' = stdout st ++ [Json result].
Proof.
  unfold ingest_document, mbind at 1, M_bind at 1.
  destruct (extract_text w pdf file_path st) as [[text|e|c] st0] eqn:Ht;
    [|done|done].
  unfold mbind at 1, M_bind at 1.
  destruct (get_embeddings w (chunk_text_default text) st0)
    as [[embeddings|e|c] st1] eqn:He; [|done|done].
  unfold mbind at 1, M_bind at 1.
  destruct (store_chunks_in_supabase w doc_id (chunk_text_default text) embeddings st1)
    as [[[]|e|c] st2] eqn:Hs; [|done|done].
  intros [= <- <-].
  exists text, st0. split; [done|]. split; [done|]. split; [done|].
  split; [|split; [done|]].
  - intros fuel chunks Hc. by rewrite (chunk_text_default_fuel _ _ _ Hc).
  - simpl. apply extract_text_returns in Ht. apply get_embeddings_returns in He.
    apply store_chunks_returns in Hs. congruence.
Qed.

(** C7 on a text file of three words: one chunk is reported. *)
Lemma ingest_document_result_witness :
  ∃ st',
    ingest_document Scenarios.ingestion Scenarios.no_pdf "notes.txt" "doc-1" initial
    = (Ret (ingest_result "doc-1" ["alpha beta gamma"]), st')
    ∧ item (ingest_result "doc-1" ["alpha beta gamma"]) "chunks_created" = Ret (VInt 1)
    ∧ stdout st' = [Json (ingest_result "doc-1" ["alpha beta gamma"])].
Proof.
  exists (ingest_document Scenarios.ingestion Scenarios.no_pdf
            "notes.txt" "doc-1" initial).2.
  assert (ingest_document Scenarios.ingestion Scenarios.no_pdf "notes.txt" "doc-1" initial
          = (Ret (ingest_result "doc-1" ["alpha beta gamma"]),
             (ingest_document Scenarios.ingestion Scenarios.no_pdf
                "notes.txt" "doc-1" initial).2)) as Hrun by (by vm_compute).
  split; [exact Hrun|].
  destruct (ingest_document_result Scenarios.ingestion Scenarios.no_pdf
              "notes.txt" "doc-1" initial _ _ Hrun)
    as (text & st0 & Ht & _ & _ & _ & _ & Hout).
  split; [reflexivity | exact Hout].
Defined.

End Ingestion.

(** * Further properties of [chunk_text] *)
Section ChunkTextMore.
Import Py DocIngest Spec.

(** X1.  A chunk of [chunk_text(text)] is never empty and is in normal
    form: its words joined by single spaces give the chunk back,
    whatever whitespace separates the words in the text. *)
Theorem chunk_text_default_normal (text : string) (c : string) :
  c ∈ chunk_text_default text ->
  c ≠ EmptyString ∧ split c ≠ [] ∧ join " " (split c) = c.
Proof.
  intros (k & Hk)%list_elem_of_lookup.
  pose proof (chunk_words _ _ _ Hk) as Hw.
  apply chunk_text_default_lookup in Hk as [Hlt ->].
  assert (take 500 (drop (450 * k) (split text)) ≠ []) as Hne.
  { intros H. apply (f_equal List.length) in H.
    rewrite length_take, length_drop in H.
    change (List.length (@nil string)) with 0%nat in H. lia. }
  split; [|split; [by rewrite Hw | by rewrite Hw]].
  intros H. rewrite H in Hw. by rewrite <- Hw in Hne.
Qed.

(** X1 at a text with tabs, line feeds and doubled spaces. *)
Lemma chunk_text_default_normal_witness :
  let text := String.concat nl ["  alpha   beta"; "gamma "] in
  "alpha beta gamma" ∈ chunk_text_default text
  ∧ join " " (split "alpha beta gamma") = "alpha beta gamma".
Proof.
  assert ("alpha beta gamma"
          ∈ chunk_text_default (String.concat nl ["  alpha   beta"; "gamma "])) as Hin
    by (vm_compute; apply list_elem_of_here).
  split; [exact Hin|].
  apply (chunk_text_default_normal _ _ Hin).
Defined.

(** X2.  A text without words gives no chunk, and a text of 1 to 450
    words gives one chunk: all its words joined by single spaces.  A
    text of [n] words gives [(n + 449) / 450] chunks. *)
Theorem chunk_text_default_count (text : string) :
  let words := split text in
  Z.of_nat (List.length (chunk_text_default text))
  = (Z.of_nat (List.length words) + 449) / 450
  ∧ (words = [] -> chunk_text_default text = [])
  ∧ (words ≠ [] -> (List.length words <= 450)%nat ->
     chunk_text_default text = [join " " words]).
Proof.
  intros words. unfold words. clear words.
  assert (Hlen : Z.of_nat (List.length (chunk_text_default text))
                 = (Z.of_nat (List.length (split text)) + 449) / 450).
  { rewrite chunk_text_default_length. unfold passes.
    rewrite Z2Nat.id by (apply Z.div_pos; lia). f_equal. lia. }
  split; [exact Hlen|]. split.
  - intros Hw. apply length_zero_iff_nil. rewrite Hw in Hlen.
    change ((Z.of_nat (List.length (@nil string)) + 449) / 450) with 0 in Hlen. lia.
  - intros Hne Hle.
    assert (0 < List.length (split text))%nat as Hpos
      by (destruct (split text); [done | simpl; lia]).
    assert ((Z.of_nat (List.length (split text)) + 449) / 450 = 1) as H1.
    { symmetry.
      apply Z.div_unique with (r := Z.of_nat (List.length (split text)) - 1);
        [left|]; lia. }
    rewrite H1 in Hlen.
    destruct (chunk_text_default text) as [|c [|c' cs]] eqn:Hcs;
      [cbn [List.length] in Hlen; exfalso; lia |
       | cbn [List.length] in Hlen; exfalso; lia].
    f_equal.
    assert (chunk_text_default text !! 0%nat = Some c) as Hc by (by rewrite Hcs).
    apply chunk_text_default_lookup in Hc as [_ ->].
    rewrite Nat.mul_0_r, drop_0. by rewrite take_ge by lia.
Qed.

(** X2 at a text of three words. *)
Lemma chunk_text_default_count_witness :
  chunk_text_default "alpha beta gamma" = [join " " (split "alpha beta gamma")].
Proof.
  apply (chunk_text_default_count "alpha beta gamma"); [done | simpl; lia].
Defined.

Lemma window_take_drop words (chunk_size overlap k : nat) :
  (overlap < chunk_size)%nat ->
  window words (Z.of_nat chunk_size) (Z.of_nat chunk_size - Z.of_nat overlap) k
  = take chunk_size (drop (k * (chunk_size - overlap)) words).
Proof.
  intros Hlt. unfold window.
  rewrite <- (slice_take_drop words (k * (chunk_size - overlap)) chunk_size).
  rewrite Nat2Z.inj_mul, Nat2Z.inj_sub by lia. done.
Qed.

Lemma concat_windows {A} (l : list A) (s m : nat) :
  concat (map (fun k => take s (drop (k * s) l)) (seq 0 m)) = take (m * s) l.
Proof.
  induction m as [|m IH]; [done|].
  rewrite seq_S, map_app, concat_app, IH. simpl. rewrite app_nil_r.
  rewrite take_take_drop. f_equal. lia.
Qed.

(** X3.  For any chunk size and any overlap below it (not negative),
    with one pass per word as fuel: [chunk_text] returns chunks of 1 to
    [chunk_size] words each, chunk [k] being the words from position
    [k * (chunk_size - overlap)] on; every word of the text is in a
    chunk; and without overlap the words of the chunks, one chunk after
    the other, are the words of the text. *)
Theorem chunk_text_covers (text : string) (chunk_size overlap fuel : nat) :
  (overlap < chunk_size)%nat ->
  (List.length (split text) <= fuel)%nat ->
  let words := split text in
  let step := (chunk_size - overlap)%nat in
  ∃ chunks,
    chunk_text fuel text (Z.of_nat chunk_size) (Z.of_nat overlap) = Some chunks
    ∧ (∀ k c, chunks !! k = Some c ->
         split c = take chunk_size (drop (k * step) words)
         ∧ (1 <= List.length (split c) <= chunk_size)%nat)
    ∧ (∀ i w, words !! i = Some w ->
         ∃ c, chunks !! (i / step)%nat = Some c
              ∧ split c !! (i mod step)%nat = Some w)
    ∧ (overlap = 0%nat -> concat (map split chunks) = words).
Proof.
  intros Hlt Hfuel words step.
  assert (Hs : (chunk_size - overlap)%nat = step) by reflexivity.
  assert (Hw : split text = words) by reflexivity.
  clearbody step words.
  assert (0 < step)%nat as Hstep by lia.
  assert (Hz : Z.of_nat chunk_size - Z.of_nat overlap = Z.of_nat step) by lia.
  remember (passes (Z.of_nat (List.length words)) (Z.of_nat step)) as m eqn:Hmdef.
  assert (Hm : ∀ k, (k < m)%nat <-> (k * step < List.length words)%nat).
  { intros k. rewrite Hmdef, passes_lt by lia. lia. }
  remember (map (fun k => join " " (take chunk_size (drop (k * step) words)))
              (seq 0 m)) as chunks eqn:Hchunks.
  assert (Hrun : chunk_text fuel text (Z.of_nat chunk_size) (Z.of_nat overlap)
                 = Some chunks).
  { rewrite chunk_text_windows; [|lia|].
    - rewrite Hw, Hz, <- Hmdef, Hchunks. f_equal. apply map_ext. intros k.
      rewrite <- Hz, window_take_drop by done. by rewrite Hs.
    - rewrite Hw, Hz.
      etrans; [apply passes_le_length; lia|]. rewrite Nat2Z.id. by rewrite <- Hw. }
  assert (Hlook : ∀ k c, chunks !! k = Some c ->
            (k * step < List.length words)%nat
            ∧ split c = take chunk_size (drop (k * step) words)).
  { intros k c. rewrite Hchunks, list_lookup_fmap.
    destruct (decide (k < m)%nat) as [Hk|Hk].
    - rewrite lookup_seq_lt by done. simpl. intros [= <-].
      split; [by apply Hm|].
      apply split_join, Forall_take, Forall_drop. rewrite <- Hw. apply split_wordlike.
    - by rewrite lookup_seq_ge by lia. }
  exists chunks. split; [done|]. split; [|split].
  - intros k c Hc. destruct (Hlook k c Hc) as [Hk ->].
    split; [done|]. rewrite length_take, length_drop. lia.
  - intros i w Hi.
    assert (i < List.length words)%nat as Hin by (by apply lookup_lt_Some in Hi).
    pose proof (Nat.div_mod_eq i step) as Hdm.
    pose proof (Nat.mod_upper_bound i step) as Hmod.
    assert (i / step < m)%nat as Hk by (apply Hm; nia).
    exists (join " " (take chunk_size (drop (i / step * step) words))).
    assert (chunks !! (i / step)%nat
            = Some (join " " (take chunk_size (drop (i / step * step) words)))) as Hc.
    { rewrite Hchunks, list_lookup_fmap, lookup_seq_lt by done. done. }
    split; [done|]. destruct (Hlook _ _ Hc) as [_ ->].
    rewrite lookup_take_drop. case_decide; [|lia].
    rewrite <- Hi. f_equal. lia.
  - intros ->. rewrite Nat.sub_0_r in Hs. subst step.
    assert (map split chunks
            = map (fun k => take chunk_size (drop (k * chunk_size) words)) (seq 0 m))
      as ->.
    { rewrite Hchunks, map_map. apply map_ext. intros k.
      apply split_join, Forall_take, Forall_drop. rewrite <- Hw. apply split_wordlike. }
    rewrite concat_windows. apply take_ge.
    destruct (decide (m * chunk_size < List.length words)%nat) as [H|H]; [|lia].
    apply Hm in H. lia.
Qed.

(** X3 at a text of five words, chunks of two words, no overlap. *)
Lemma chunk_text_covers_witness :
  ∃ chunks,
    chunk_text 5 "a b c d e" 2 0 = Some chunks
    ∧ concat (map split chunks) = split "a b c d e".
Proof.
  destruct (chunk_text_covers "a b c d e" 2 0 5) as (chunks & Hrun & _ & _ & Hcat);
    [lia | simpl; lia |].
  exists chunks. split; [exact Hrun | by apply Hcat].
Defined.

End ChunkTextMore.

(** * Further properties of [extract_keywords] *)
Section KeywordOrder.
Import Py LiveContext Spec.

Lemma index_of_lt w l : w ∈ l -> (index_of w l < List.length l)%nat.
Proof.
  induction l as [|x l IH]; [by intros ?%elem_of_nil|].
  intros Hin. simpl. destruct (String.eqb_spec x w) as [|Hne]; [lia|].
  apply elem_of_cons in Hin as [->|Hin]; [done|]. apply IH in Hin. lia.
Qed.

Lemma index_of_app_in w l l' : w ∈ l -> index_of w (l ++ l') = index_of w l.
Proof.
  induction l as [|x l IH]; [by intros ?%elem_of_nil|].
  intros Hin. simpl. destruct (String.eqb_spec x w) as [|Hne]; [done|].
  apply elem_of_cons in Hin as [->|Hin]; [done|]. by rewrite IH.
Qed.

Lemma index_of_app_new w l : w ∉ l -> index_of w (l ++ [w]) = List.length l.
Proof.
  induction l as [|x l IH]; intros Hin; simpl.
  - by rewrite String.eqb_refl.
  - apply not_elem_of_cons in Hin as [Hne Hin].
    destruct (String.eqb_spec x w) as [->|_]; [done|]. by rewrite IH.
Qed.

Lemma count_frequencies_snoc l x :
  count_frequencies (l ++ [x])
  = freq_set (count_frequencies l) x (freq_get (count_frequencies l) x 0 + 1)%nat.
Proof. unfold count_frequencies. by rewrite fold_left_app. Qed.

(** The keys of [freq] stand in the order in which their words first
    occur. *)
Lemma freq_keys_order l : forall a b,
  [a; b] `sublist_of` freq_keys (count_frequencies l) ->
  (index_of a l < index_of b l)%nat.
Proof.
  induction l as [|x l IH] using rev_ind; intros a b Hab.
  - apply sublist_nil_r in Hab. discriminate Hab.
  - destruct (count_frequencies_spec l) as (_ & _ & Hkeys).
    rewrite count_frequencies_snoc, freq_keys_set in Hab.
    destruct (decide (x ∈ freq_keys (count_frequencies l))) as [Hx|Hx].
    + assert (a ∈ l ∧ b ∈ l) as [Ha Hb].
      { split; apply Hkeys; eapply elem_of_sublist; try exact Hab;
          [apply list_elem_of_here | apply list_elem_of_further, list_elem_of_here]. }
      rewrite !index_of_app_in by done. by apply IH.
    + apply sublist_app_r in Hab as (l1 & l2 & Heq & H1 & H2).
      apply sublist_cons_r in H2 as [H2|(l2' & -> & H2)].
      * apply sublist_nil_r in H2 as ->. rewrite app_nil_r in Heq. subst l1.
        assert (a ∈ l ∧ b ∈ l) as [Ha Hb].
        { split; apply Hkeys; eapply elem_of_sublist; try exact H1;
            [apply list_elem_of_here | apply list_elem_of_further, list_elem_of_here]. }
        rewrite !index_of_app_in by done. by apply IH.
      * apply sublist_nil_r in H2 as ->.
        destruct l1 as [|a' [|b' l1]]; simplify_eq/=;
          [|by destruct l1].
        assert (a' ∈ l) as Ha
          by (apply Hkeys; eapply elem_of_sublist; [apply list_elem_of_here | exact H1]).
        rewrite index_of_app_in by done.
        rewrite index_of_app_new by (by rewrite <- Hkeys).
        by apply index_of_lt.
Qed.

(** Sorting is stable: two items of equal count keep their order. *)
Lemma insert_desc_stable x s a b :
  [a; b] `sublist_of` insert_desc x s -> a.2 = b.2 ->
  [a; b] `sublist_of` x :: s.
Proof.
  induction s as [|y s IH]; simpl; [done|].
  destruct (Nat.ltb_spec x.2 y.2) as [Hlt|Hge]; [|done].
  intros Hab Heq.
  apply sublist_cons_r in Hab as [Hab|(l' & [= -> <-] & Hb)].
  - apply IH in Hab; [|done].
    apply sublist_cons_r in Hab as [Hab|(l' & [= -> <-] & Hb)].
    + by do 2 apply sublist_cons.
    + apply sublist_skip, sublist_cons, Hb.
  - apply singleton_sublist_l in Hb.
    rewrite insert_desc_perm in Hb.
    apply elem_of_cons in Hb as [->|Hb]; [lia|].
    apply sublist_cons, sublist_skip. by apply singleton_sublist_l.
Qed.

Lemma sorted_desc_stable l a b :
  [a; b] `sublist_of` sorted_desc l -> a.2 = b.2 -> [a; b] `sublist_of` l.
Proof.
  induction l as [|x l IH]; simpl; [done|].
  intros Hab Heq. apply insert_desc_stable in Hab; [|done].
  apply sublist_cons_r in Hab as [Hab|(l' & [= -> <-] & Hb)].
  - apply sublist_cons. by apply IH.
  - apply sublist_skip. apply singleton_sublist_l.
    rewrite <- sorted_desc_perm. by apply singleton_sublist_l.
Qed.

Lemma lookup_sublist {A} (l : list A) i j x y :
  (i < j)%nat -> l !! i = Some x -> l !! j = Some y -> [x; y] `sublist_of` l.
Proof.
  revert i j. induction l as [|z l IH]; intros i j Hij Hx Hy; [done|].
  destruct j as [|j]; [lia|]. simpl in Hy.
  destruct i as [|i]; simpl in Hx.
  - injection Hx as ->. apply sublist_skip, singleton_sublist_l.
    by eapply list_elem_of_lookup_2.
  - apply sublist_cons. eapply (IH i j); [lia | done | done].
Qed.

(** X4.  The order of the keywords is fixed by the text: of two
    keywords, the earlier one occurs more often among the kept tokens,
    or as often and its first occurrence comes first. *)
Theorem extract_keywords_order (text : string) (max_keywords : Z) i j a b :
  let kept := filter (fun w => is_stopword w = false) (tokenize text) in
  (i < j)%nat ->
  extract_keywords text max_keywords !! i = Some a ->
  extract_keywords text max_keywords !! j = Some b ->
  (occurrences b kept < occurrences a kept)%nat
  ∨ (occurrences b kept = occurrences a kept
     ∧ (index_of a kept < index_of b kept)%nat).
Proof.
  intros kept Hij Ha Hb.
  destruct (count_frequencies_spec kept) as (Hnd & Hget & Hkeys).
  assert (∀ n w, extract_keywords text max_keywords !! n = Some w ->
            ∃ c, sorted_desc (count_frequencies kept) !! n = Some (w, c)) as Hitem.
  { intros n w. unfold extract_keywords, slice_to. fold kept.
    rewrite list_lookup_fmap. intros H.
    apply fmap_Some in H as ([w' c] & H & ->).
    apply lookup_take_Some in H as [H _]. by exists c. }
  destruct (Hitem _ _ Ha) as [na Ha'], (Hitem _ _ Hb) as [nb Hb'].
  pose proof (lookup_sublist _ _ _ _ _ Hij Ha' Hb') as Hsub.
  assert (∀ n w c, sorted_desc (count_frequencies kept) !! n = Some (w, c) ->
            c = occurrences w kept) as Hcount.
  { intros n w c H. rewrite <- Hget. symmetry. apply freq_get_item; [done|].
    rewrite <- sorted_desc_perm. by eapply list_elem_of_lookup_2. }
  rewrite <- (Hcount _ _ _ Ha'), <- (Hcount _ _ _ Hb').
  pose proof (strongly_sorted_lookup _ _ _ _ _ _
                (sorted_desc_sorted (count_frequencies kept)) Hij Ha' Hb') as Hle.
  unfold count_desc in Hle. simpl in Hle.
  destruct (decide (nb = na)) as [->|Hne]; [right | left; lia].
  split; [done|]. apply freq_keys_order.
  apply sorted_desc_stable in Hsub; [|done].
  unfold freq_keys. by apply (fmap_sublist fst) in Hsub.
Qed.

(** X4 at a text in which two words occur twice. *)
Lemma extract_keywords_order_witness :
  extract_keywords "zebra apple zebra apple mango" 5 = ["zebra"; "apple"; "mango"]
  ∧ ((occurrences "apple" ["zebra"; "apple"; "zebra"; "apple"; "mango"]
      < occurrences "zebra" ["zebra"; "apple"; "zebra"; "apple"; "mango"])%nat
     ∨ (occurrences "apple" ["zebra"; "apple"; "zebra"; "apple"; "mango"]
        = occurrences "zebra" ["zebra"; "apple"; "zebra"; "apple"; "mango"]
        ∧ (index_of "zebra" ["zebra"; "apple"; "zebra"; "apple"; "mango"]
           < index_of "apple" ["zebra"; "apple"; "zebra"; "apple"; "mango"])%nat)).
Proof.
  split; [by vm_compute|].
  apply (extract_keywords_order "zebra apple zebra apple mango" 5 0 1 "zebra" "apple");
    [lia | by vm_compute | by vm_compute].
Defined.

End KeywordOrder.

(** * Further properties of the live context script *)
Section Calls.
Import Py Spec.

Lemma calls_ret {A} (a : A) : calls 0 (mret a).
Proof. intros st. exists []. simpl. by rewrite app_nil_r. Qed.

Lemma calls_raise {A} e : calls 0 (@raise A e).
Proof. intros st. exists []. simpl. by rewrite app_nil_r. Qed.

Lemma calls_lift {A} (o : outcome A) : pure_no_exit o -> calls 0 (lift o).
Proof.
  intros Ho st. exists []. simpl. rewrite app_nil_r. repeat split; [lia|].
  intros c ->. by destruct Ho as [[a ?]|[e ?]].
Qed.

Lemma calls_attempted {A} (a : attempt A) : calls 0 (attempted a).
Proof. destruct a; [apply calls_ret | apply calls_raise]. Qed.

Lemma calls_send w r : calls 1 (send w r).
Proof.
  intros st. exists [r]. unfold send.
  destruct (http w (sent st) r); simpl; repeat split; done.
Qed.

Lemma calls_mono {A} (m : M A) n n' : (n <= n')%nat -> calls n m -> calls n' m.
Proof.
  intros Hn Hm st. destruct (Hm st) as (extra & ? & ? & ? & ? & ?).
  exists extra. repeat split; try done. lia.
Qed.

Lemma calls_bind {A B} (m : M A) (k : A -> M B) n1 n2 :
  calls n1 m -> (∀ a, calls n2 (k a)) -> calls (n1 + n2) (m ≫= k).
Proof.
  intros Hm Hk st. unfold mbind, M_bind.
  destruct (Hm st) as (e1 & Hs1 & Hl1 & Ho1 & Hw1 & Hx1).
  destruct (m st) as [[a|e|c] st1]; simpl in *.
  - destruct (Hk a st1) as (e2 & Hs2 & Hl2 & Ho2 & Hw2 & Hx2).
    exists (e1 ++ e2). rewrite Hs2, Hs1, Ho2, Ho1, Hw2, Hw1, length_app, app_assoc.
    repeat split; [lia | done].
  - exists e1. repeat split; try done. lia.
  - by destruct (Hx1 c).
Qed.

Lemma calls_try_except {A} (m : M A) (h : exn -> M A) n1 n2 :
  calls n1 m -> (∀ e, calls n2 (h e)) -> calls (n1 + n2) (try_except m h).
Proof.
  intros Hm Hh st. unfold try_except.
  destruct (Hm st) as (e1 & Hs1 & Hl1 & Ho1 & Hw1 & Hx1).
  destruct (m st) as [[a|e|c] st1]; simpl in *.
  - exists e1. repeat split; try done. lia.
  - destruct (Hh e st1) as (e2 & Hs2 & Hl2 & Ho2 & Hw2 & Hx2).
    exists (e1 ++ e2). rewrite Hs2, Hs1, Ho2, Ho1, Hw2, Hw1, length_app, app_assoc.
    repeat split; [lia | done].
  - by destruct (Hx1 c).
Qed.

Lemma calls_raise_for_status r : calls 0 (raise_for_status r).
Proof.
  unfold raise_for_status. destruct (_ && _); [apply calls_raise | apply calls_ret].
Qed.

Lemma calls_json r : calls 0 (json r).
Proof. unfold json. destruct (body r); [apply calls_ret | apply calls_raise]. Qed.

End Calls.

Section LiveRequests.
Import Py LiveContext Spec.

Lemma calls_get_embedding w text : calls 1 (get_embedding w text).
Proof.
  unfold get_embedding.
  destruct (unset _); [apply (calls_mono _ 0); [lia | apply calls_ret]|].
  apply (calls_bind _ _ 1 0); [apply calls_send|]. intros r.
  repeat (apply (calls_bind _ _ 0 0); [|intros ?]);
    auto using calls_raise_for_status, calls_json, calls_lift,
      pure_no_exit_item, pure_no_exit_first.
Qed.

Lemma calls_fallback_search w doc_id top_n : calls 1 (fallback_search w doc_id top_n).
Proof.
  unfold fallback_search. apply (calls_bind _ _ 1 0); [apply calls_send|].
  intros r. destruct (_ =? _); [apply calls_json | apply calls_ret].
Qed.

Lemma calls_semantic_search w query_embedding doc_id top_n :
  calls 2 (semantic_search w query_embedding doc_id top_n).
Proof.
  unfold semantic_search.
  destruct (_ || _); [apply (calls_mono _ 0); [lia | apply calls_ret]|].
  apply (calls_bind _ _ 1 1); [apply calls_send|].
  intros r. destruct (_ =? _);
    [apply (calls_mono _ 0); [lia | apply calls_json] | apply calls_fallback_search].
Qed.

Lemma calls_find_matches w text doc_id top_n : calls 3 (find_matches w text doc_id top_n).
Proof.
  unfold find_matches.
  apply (calls_try_except _ _ 3 0); [|intros _; apply calls_ret].
  apply (calls_bind _ _ 1 2); [apply calls_get_embedding|].
  intros emb. destruct (truthy emb);
    [apply calls_semantic_search | apply (calls_mono _ 0); [lia | apply calls_ret]].
Qed.

(** The case of a step that fails before it sends or prints. *)
Ltac nothing_done :=
  exists [], []; simpl; rewrite ?app_nil_r; repeat split; (lia || done).

(** One pass of the loop sends at most three requests and prints at
    most one line. *)
Lemma process_segment_bounds w doc_id top_n seg st :
  ∃ extra lines,
    sent (process_segment w doc_id top_n seg st).2 = sent st ++ extra
    ∧ (List.length extra <= 3)%nat
    ∧ stdout (process_segment w doc_id top_n seg st).2 = stdout st ++ map Json lines
    ∧ (List.length lines <= 1)%nat
    ∧ written (process_segment w doc_id top_n seg st).2 = written st
    ∧ ∀ c, (process_segment w doc_id top_n seg st).1 ≠ Exit c.
Proof.
  assert (∀ (r : outcome unit), (∀ c, r ≠ Exit c) ->
            ∃ extra lines,
              sent (r, st).2 = sent st ++ extra ∧ (List.length extra <= 3)%nat
              ∧ stdout (r, st).2 = stdout st ++ map Json lines
              ∧ (List.length lines <= 1)%nat
              ∧ written (r, st).2 = written st ∧ ∀ c, (r, st).1 ≠ Exit c) as Hnil.
  { intros r Hr. exists [], []. simpl. rewrite !app_nil_r. repeat split; [lia | lia | done]. }
  unfold process_segment, mbind, M_bind, lift.
  destruct (pure_no_exit_get seg "text" (VStr "")) as [[text ->]|[e ->]];
    [|by apply Hnil].
  destruct text as [| | | |text| |]; try by apply Hnil.
  destruct (negb (str_truthy (strip text))); [by apply Hnil|].
  destruct (calls_find_matches w text doc_id top_n st) as (extra & Hs & Hl & Ho & Hw & Hx).
  destruct (find_matches w text doc_id top_n st) as [[matches|e|c] st1];
    simpl in Hs, Ho, Hw, Hx; [| |by destruct (Hx c)].
  - destruct (pure_no_exit_get seg "start" VNone) as [[start ->]|[e ->]];
      [|exists extra, []; simpl; rewrite app_nil_r; repeat split; try done; lia].
    destruct (pure_no_exit_get seg "end" VNone) as [[end_ ->]|[e ->]];
      [|exists extra, []; simpl; rewrite app_nil_r; repeat split; try done; lia].
    destruct (pure_no_exit_get seg "speaker" VNone) as [[speaker ->]|[e ->]];
      [|exists extra, []; simpl; rewrite app_nil_r; repeat split; try done; lia].
    eexists extra, [_]. simpl. rewrite Ho. repeat split; done.
  - exists extra, []. simpl. rewrite app_nil_r. repeat split; try done. lia.
Qed.

Lemma for_each_segment_bounds w doc_id top_n segs : forall st,
  ∃ extra lines,
    sent (for_each (process_segment w doc_id top_n) segs st).2 = sent st ++ extra
    ∧ (List.length extra <= 3 * List.length segs)%nat
    ∧ stdout (for_each (process_segment w doc_id top_n) segs st).2
      = stdout st ++ map Json lines
    ∧ (List.length lines <= List.length segs)%nat
    ∧ written (for_each (process_segment w doc_id top_n) segs st).2 = written st
    ∧ ∀ c, (for_each (process_segment w doc_id top_n) segs st).1 ≠ Exit c.
Proof.
  induction segs as [|seg segs IH]; intros st.
  - exists [], []. simpl. rewrite !app_nil_r. repeat split; [lia | lia | done].
  - cbn [for_each]. unfold mbind, M_bind.
    destruct (process_segment_bounds w doc_id top_n seg st)
      as (e1 & l1 & Hs1 & Hn1 & Ho1 & Hm1 & Hw1 & Hx1).
    destruct (process_segment w doc_id top_n seg st) as [[[]|e|c] st1];
      simpl in Hs1, Ho1, Hw1, Hx1; [| |by destruct (Hx1 c)].
    + destruct (IH st1) as (e2 & l2 & Hs2 & Hn2 & Ho2 & Hm2 & Hw2 & Hx2).
      exists (e1 ++ e2), (l1 ++ l2).
      rewrite Hs2, Hs1, Ho2, Ho1, Hw2, Hw1, map_app, !length_app, !app_assoc.
      repeat split; try done; simpl; lia.
    + exists e1, l1. simpl. repeat split; try done; lia.
Qed.

(** X5.  Whatever the transcript holds and whatever the services
    answer, a run sends at most three requests for each segment (the
    embedding, the RPC and the fallback query, none tried again),
    prints on standard output nothing but result lines, at most one
    for each segment, writes no file and does not leave through
    [sys.exit]. *)
Theorem process_live_context_bounds w transcript_path doc_id top_n st :
  let n := List.length (transcript_segments w transcript_path) in
  let run := process_live_context w transcript_path doc_id top_n st in
  ∃ extra lines,
    sent run.2 = sent st ++ extra ∧ (List.length extra <= 3 * n)%nat
    ∧ stdout run.2 = stdout st ++ map Json lines ∧ (List.length lines <= n)%nat
    ∧ written run.2 = written st
    ∧ ∀ c, run.1 ≠ Exit c.
Proof.
  intros n run. subst n run.
  unfold process_live_context, load_transcript, transcript_segments.
  unfold mbind, M_bind, attempted, lift.
  destruct (json_file w transcript_path) as [data|e]; simpl; [|nothing_done].
  destruct (pure_no_exit_get data "segments" (VList [])) as [[segments ->]|[e ->]];
    [|nothing_done].
  destruct (pure_no_exit_iterate segments) as [[segs ->]|[e ->]]; [|nothing_done].
  apply for_each_segment_bounds.
Qed.

(** The search step without an OpenAI key, and without the
    credentials of the database. *)
Lemma find_matches_no_key w text doc_id top_n st :
  unset (OPENAI_API_KEY w) = true ->
  find_matches w text doc_id top_n st = (Ret (VList []), st).
Proof.
  intros Hkey. unfold find_matches, try_except, mbind, M_bind, get_embedding.
  by rewrite Hkey.
Qed.

Lemma find_matches_no_database w text doc_id top_n st :
  unset (OPENAI_API_KEY w) = false ->
  unset (SUPABASE_URL w) || unset (SUPABASE_KEY w) = true ->
  find_matches w text doc_id top_n st
  = (Ret (VList []), sending (embedding_request w text) st).
Proof.
  intros Hkey Hdb.
  unfold find_matches, try_except, mbind, M_bind, get_embedding, semantic_search.
  rewrite Hkey, Hdb. unfold mbind, M_bind, send.
  destruct (http w (sent st) _) as [resp|e]; [|done].
  unfold raise_for_status. destruct (_ && _); [done|]. simpl.
  unfold json. destruct (body resp) as [reply|]; [|done]. simpl.
  unfold lift.
  destruct (pure_no_exit_item reply "data") as [[data ->]|[e ->]]; [|done].
  destruct (pure_no_exit_first data) as [[entry ->]|[e ->]]; [|done].
  destruct (pure_no_exit_item entry "embedding") as [[emb ->]|[e ->]]; [|done].
  by destruct (truthy emb).
Qed.

Lemma keyword_line_eq seg text :
  segment_text seg = Some text ->
  keyword_line seg
  = Json (result_line (field seg "start") (field seg "end") (field seg "speaker")
            text (extract_keywords text default_max_keywords) (VList [])).
Proof. unfold keyword_line. by intros ->. Qed.

(** The loop when every search step returns the empty list after
    sending the requests [reqs text]. *)
Lemma for_each_keyword_lines w doc_id top_n (reqs : string -> list request) segs :
  (∀ text st, ∃ st1,
      find_matches w text doc_id top_n st = (Ret (VList []), st1)
      ∧ sent st1 = sent st ++ reqs text
      ∧ stdout st1 = stdout st ∧ written st1 = written st) ->
  Forall (fun seg => is_Some (segment_text seg)) segs ->
  forall st,
  ∃ st',
    for_each (process_segment w doc_id top_n) segs st = (Ret tt, st')
    ∧ stdout st' = stdout st ++ map keyword_line (filter (fun seg => spoken seg = true) segs)
    ∧ sent st'
      = sent st ++ concat (map (fun seg => reqs (default "" (segment_text seg)))
                             (filter (fun seg => spoken seg = true) segs))
    ∧ written st' = written st.
Proof.
  intros Hfind. induction 1 as [|seg segs [text Ht] _ IH]; intros st.
  - exists st. simpl. by rewrite !app_nil_r.
  - cbn [for_each]. unfold mbind, M_bind.
    rewrite (process_segment_run _ _ _ _ _ _ Ht), filter_cons, (spoken_text _ _ Ht).
    destruct (str_truthy (strip text)) eqn:Hs.
    + destruct (Hfind text st) as (st1 & -> & Hs1 & Ho1 & Hw1).
      rewrite decide_True by done.
      destruct (IH (printing (Json (result_line (field seg "start") (field seg "end")
                      (field seg "speaker") text
                      (extract_keywords text default_max_keywords) (VList []))) st1))
        as (st' & -> & Hout & Hsent & Hwr).
      exists st'. split; [done|].
      rewrite Hout, Hsent, Hwr. simpl. rewrite Ho1, Hs1, Hw1, <- !app_assoc.
      by rewrite (keyword_line_eq _ _ Ht), Ht.
    + rewrite decide_False by done. apply IH.
Qed.

(** X6.  Without an OpenAI key, or without the URL or the key of the
    database, a run over well-formed segments returns and prints on
    standard output one line for each spoken segment, in order: the
    line holds the fields of the segment, the keywords of its text and
    the empty list under ["context_matches"].  Without the OpenAI key
    nothing is sent; with it, the embedding of the text of every spoken
    segment is still requested, and nothing else. *)
Theorem process_live_context_without_services w transcript_path doc_id top_n st
    data segs :
  json_file w transcript_path = Done data ->
  get data "segments" (VList []) = Ret (VList segs) ->
  Forall (fun seg => is_Some (segment_text seg)) segs ->
  unset (OPENAI_API_KEY w) || unset (SUPABASE_URL w) || unset (SUPABASE_KEY w) = true ->
  let speech := filter (fun seg => spoken seg = true) segs in
  ∃ st' lines requests,
    process_live_context w transcript_path doc_id top_n st = (Ret tt, st')
    ∧ stdout st' = stdout st ++ lines
    ∧ Forall2 (fun seg line =>
                 ∃ text, segment_text seg = Some text
                         ∧ line_holds seg text (VList []) line) speech lines
    ∧ sent st' = sent st ++ requests
    ∧ (if unset (OPENAI_API_KEY w) then requests = []
       else Forall2 (fun seg r =>
                       ∃ text, segment_text seg = Some text ∧ embedding_call text r)
              speech requests)
    ∧ written st' = written st.
Proof.
  intros Hfile Hsegs Hwf Hunset speech.
  assert (process_live_context w transcript_path doc_id top_n st
          = for_each (process_segment w doc_id top_n) segs st) as ->.
  { unfold process_live_context, load_transcript, mbind, M_bind, attempted, lift.
    rewrite Hfile. simpl. by rewrite Hsegs. }
  assert (Forall (fun seg => is_Some (segment_text seg)) speech) as Hspeech.
  { apply Forall_forall. intros seg [_ Hin]%list_elem_of_filter.
    by apply (proj1 (Forall_forall _ _) Hwf). }
  assert (Forall2 (fun seg line =>
                     ∃ text, segment_text seg = Some text
                             ∧ line_holds seg text (VList []) line)
            speech (map keyword_line speech)) as Hlines.
  { clear -Hspeech. induction Hspeech as [|seg speech [text Ht] _ IH]; [constructor|].
    cbn [map]. constructor; [|exact IH]. exists text. split; [done|].
    rewrite (keyword_line_eq _ _ Ht). apply result_line_holds. }
  destruct (unset (OPENAI_API_KEY w)) eqn:Hkey.
  - destruct (for_each_keyword_lines w doc_id top_n (fun _ => []) segs) with (st := st)
      as (st' & Hrun & Hout & Hsent & Hwr); [|done|].
    { intros text st0. exists st0. rewrite find_matches_no_key by done.
      by rewrite app_nil_r. }
    exists st', (map keyword_line speech), [].
    split; [done|]. split; [done|]. split; [done|]. split; [|done].
    rewrite Hsent. f_equal. fold speech. clear. induction speech; [done | by simpl].
  - simpl in Hunset.
    destruct (for_each_keyword_lines w doc_id top_n
                (fun text => [embedding_request w text]) segs) with (st := st)
      as (st' & Hrun & Hout & Hsent & Hwr); [|done|].
    { intros text st0. exists (sending (embedding_request w text) st0).
      by rewrite find_matches_no_database. }
    exists st', (map keyword_line speech),
      (map (fun seg => embedding_request w (default "" (segment_text seg))) speech).
    split; [done|]. split; [done|]. split; [done|]. split; [|split; [|done]].
    + rewrite Hsent. f_equal. fold speech. clear.
      induction speech; [done | simpl; by f_equal].
    + clear -Hspeech. induction Hspeech as [|seg speech [text Ht] _ IH]; [constructor|].
      cbn [map]. constructor; [|exact IH]. exists text. split; [done|].
      rewrite Ht. apply embedding_request_call.
Qed.

(** X6 on the transcript of a silent and a spoken segment, with no
    service configured. *)
Lemma process_live_context_without_services_witness :
  ∃ st' line,
    process_live_context Scenarios.offline "talk.json" "doc-1" 3 initial = (Ret tt, st')
    ∧ stdout st' = [line]
    ∧ line_holds (VDict Scenarios.speech_segment) "budget review for the budget"
        (VList []) line
    ∧ sent st' = []
    ∧ written st' = [].
Proof.
  destruct (process_live_context_without_services Scenarios.offline "talk.json" "doc-1" 3
              initial Scenarios.silence_then_speech
              [VDict [("start", VInt 0); ("end", VInt 2);
                      ("speaker", VStr "SPEAKER_00"); ("text", VStr "   ")];
               VDict Scenarios.speech_segment])
    as (st' & lines & requests & Hrun & Hout & Hlines & Hsent & Hreq & Hwr);
    [reflexivity | reflexivity | repeat constructor; by eexists | reflexivity |].
  change (filter _ _) with [VDict Scenarios.speech_segment] in Hlines.
  apply Forall2_cons_inv_l in Hlines
    as (line & rest & (text & Ht & Hline) & ->%Forall2_nil_inv_l & ->).
  injection Ht as <-. change (unset _) with true in Hreq. cbv iota in Hreq.
  rewrite Hreq in Hsent.
  exists st', line. split; [exact Hrun|]. split; [exact Hout|].
  split; [exact Hline|]. split; [exact Hsent | exact Hwr].
Defined.

Lemma for_each_app {A} (f : A -> M unit) l1 l2 st :
  for_each f (l1 ++ l2) st
  = match for_each f l1 st with
    | (Ret _, st1) => for_each f l2 st1
    | other => other
    end.
Proof.
  revert st. induction l1 as [|x l1 IH]; intros st; [done|].
  cbn [for_each app]. unfold mbind, M_bind.
  destruct (f x st) as [[[]|e|c] st1]; [apply IH | done | done].
Qed.

Lemma process_segment_no_text w doc_id top_n seg st :
  segment_text seg = None ->
  process_segment w doc_id top_n seg st = (Raise AttributeError, st).
Proof.
  unfold segment_text, process_segment, mbind, M_bind, lift.
  destruct seg as [| | | | | |d]; try done. simpl.
  by destruct (default (VStr "") (lookup_key "text" d)).
Qed.

(** X7.  A segment that is not an object, or whose text is not a
    string, stops the run with [AttributeError]: the lines of the
    spoken segments before it have been printed on standard output by
    then, and no segment after it is looked at. *)
Theorem process_live_context_ill_formed w transcript_path doc_id top_n st
    data segments good bad rest :
  json_file w transcript_path = Done data ->
  get data "segments" (VList []) = Ret segments ->
  iterate segments = Ret (good ++ bad :: rest) ->
  Forall (fun seg => is_Some (segment_text seg)) good ->
  segment_text bad = None ->
  ∃ st' lines,
    process_live_context w transcript_path doc_id top_n st = (Raise AttributeError, st')
    ∧ stdout st' = stdout st ++ map Json lines
    ∧ Forall2 (line_of w doc_id top_n)
        (filter (fun seg => spoken seg = true) good) (map Json lines).
Proof.
  intros Hfile Hsegs Hiter Hgood Hbad.
  destruct (for_each_segment_lines w doc_id top_n good st Hgood)
    as (st' & lines & Hrun & Hout & Hlines).
  exists st', lines. split; [|done].
  unfold process_live_context, load_transcript, mbind, M_bind, attempted, lift.
  rewrite Hfile. simpl. rewrite Hsegs, Hiter, for_each_app, Hrun.
  cbn [for_each]. unfold mbind, M_bind.
  by rewrite process_segment_no_text.
Qed.

(** X7 on a transcript of three segments, the second with [null] for
    its text: one line, then the error. *)
Lemma process_live_context_ill_formed_witness :
  ∃ st' lines,
    process_live_context Scenarios.damaged "talk.json" "doc-1" 3 initial
    = (Raise AttributeError, st')
    ∧ stdout st' = map Json lines
    ∧ List.length lines = 1%nat.
Proof.
  destruct (process_live_context_ill_formed Scenarios.damaged "talk.json" "doc-1" 3
              initial Scenarios.null_text
              (VList [VDict Scenarios.speech_segment;
                      VDict [("start", VInt 5); ("end", VInt 6); ("text", VNone)];
                      VDict Scenarios.speech_segment])
              [VDict Scenarios.speech_segment]
              (VDict [("start", VInt 5); ("end", VInt 6); ("text", VNone)])
              [VDict Scenarios.speech_segment])
    as (st' & lines & Hrun & Hout & Hlines);
    [reflexivity | reflexivity | reflexivity | repeat constructor; by eexists
    | reflexivity |].
  exists st', lines. split; [done|]. split; [done|].
  apply Forall2_length in Hlines. rewrite length_map in Hlines.
  rewrite <- Hlines. reflexivity.
Defined.

End LiveRequests.

(** * Further properties of the analysis script *)
Section AnalysisMore.
Import Py Adversarial Spec.

Variable fixed1 : value -> string.
Variable repr : value -> string.

Lemma format_segment_run seg :
  format_segment fixed1 repr seg
  = match format_error seg with
    | None => Ret (transcript_line fixed1 repr seg)
    | Some e => Raise e
    end.
Proof.
  unfold format_segment, format_error, transcript_line, field_or.
  destruct seg as [| | | | | |d]; try done. cbn [get mbind outcome_bind].
  destruct (default (VInt 0) (lookup_key "start" d)) as [| |z| | | |]; try done.
  unfold to_fixed1, int_overflows_float. rewrite Z.ltb_antisym.
  by destruct (_ <=? _).
Qed.

Lemma first_error_cons seg segs :
  head (omap format_error (seg :: segs))
  = match format_error seg with
    | Some e => Some e
    | None => head (omap format_error segs)
    end.
Proof.
  change (omap format_error (seg :: segs))
    with (match format_error seg with
          | Some e => e :: omap format_error segs
          | None => omap format_error segs
          end).
  by destruct (format_error seg).
Qed.

Lemma format_transcript_run segs :
  format_transcript fixed1 repr (VList segs)
  = match head (omap format_error segs) with
    | None => Ret (join nl (map (transcript_line fixed1 repr) segs))
    | Some e => Raise e
    end.
Proof.
  unfold format_transcript. cbn [iterate mbind outcome_bind].
  assert (collect (format_segment fixed1 repr) segs
          = match head (omap format_error segs) with
            | None => Ret (map (transcript_line fixed1 repr) segs)
            | Some e => Raise e
            end) as ->; [|by destruct (head _)].
  induction segs as [|seg segs IH]; [done|].
  rewrite first_error_cons. cbn [collect map].
  rewrite format_segment_run, IH.
  destruct (format_error seg); [done|]. by destruct (head _).
Qed.

Lemma formattable_no_error seg : formattable seg = true -> format_error seg = None.
Proof.
  unfold formattable, stamped, format_error, field_or, in_float_range.
  destruct seg as [| | | | | |d]; try done. cbn [get].
  destruct (default (VInt 0) (lookup_key "start" d)) as [| |z| | | |]; try done.
  cbn [is_number andb]. by intros ->.
Qed.

Lemma format_transcript_ok segs :
  forallb formattable segs = true ->
  format_transcript fixed1 repr (VList segs)
  = Ret (join nl (map (transcript_line fixed1 repr) segs)).
Proof.
  intros Hall. rewrite format_transcript_run.
  assert (omap format_error segs = []) as ->; [|done].
  induction segs as [|seg segs IH]; [done|].
  cbn [forallb] in Hall. apply andb_prop in Hall as [Hseg Hall].
  change (omap format_error (seg :: segs))
    with (match format_error seg with
          | Some e => e :: omap format_error segs
          | None => omap format_error segs
          end).
  rewrite (formattable_no_error _ Hseg). by apply IH.
Qed.

Lemma first_error_kind segs e :
  head (omap format_error segs) = Some e ->
  e ∈ [AttributeError; TypeError; ValueError; OverflowError].
Proof.
  induction segs as [|seg segs IH]; [done|]. rewrite first_error_cons.
  destruct (format_error seg) as [e'|] eqn:He; [|exact IH].
  intros [= <-]. revert He. unfold format_error.
  destruct seg as [| | | | | |d]; try (intros [= <-]; set_solver).
  destruct (default (VInt 0) (lookup_key "start" d)) as [| |z| | | |];
    try destruct (_ <? _); try done; intros [= <-]; set_solver.
Qed.

(** X8.  [format_transcript] stops at the first segment that it cannot
    write, with the exception of that segment: [AttributeError] for a
    segment that is no object, [ValueError] for a text as its start,
    [OverflowError] for an [int] as its start that is at or beyond
    [2 ^ 1024 - 2 ^ 970] in either direction, and [TypeError] for any
    other start that is no number.  When there is no such segment it
    returns the line of every segment, in order, joined by newlines:
    the start (0 for a missing one) with one decimal between brackets
    and followed by [s], then the speaker ([UNKNOWN] for a missing
    one), a colon and the text. *)
Theorem format_transcript_lines segs :
  format_transcript fixed1 repr (VList segs)
  = match head (omap format_error segs) with
    | None => Ret (join nl (map (transcript_line fixed1 repr) segs))
    | Some e => Raise e
    end.
Proof. apply format_transcript_run. Qed.

Lemma calls_call_openai w system_prompt user_prompt :
  calls 1 (call_openai w system_prompt user_prompt).
Proof.
  unfold call_openai.
  destruct (unset _); [apply (calls_mono _ 0); [lia | apply calls_ret]|].
  apply (calls_bind _ _ 1 0); [apply calls_send|]. intros r.
  repeat (apply (calls_bind _ _ 0 0); [|intros ?]);
    auto using calls_raise_for_status, calls_json, calls_lift,
      pure_no_exit_item, pure_no_exit_first.
Qed.

Lemma calls_get_document_chunks w doc_id : calls 1 (get_document_chunks w doc_id).
Proof.
  unfold get_document_chunks.
  destruct (_ || _); [apply (calls_mono _ 0); [lia | apply calls_ret]|].
  apply (calls_bind _ _ 1 0); [apply calls_send|]. intros r.
  destruct (_ =? _); [|apply calls_ret].
  repeat (apply (calls_bind _ _ 0 0); [|intros ?]);
    auto using calls_json, calls_lift, pure_no_exit_iterate,
      pure_no_exit_collect, pure_no_exit_item.
Qed.

Lemma calls_load_documents w doc_id : calls 1 (load_documents w doc_id).
Proof.
  unfold load_documents.
  destruct (unset doc_id); [apply (calls_mono _ 0); [lia | apply calls_ret]|].
  apply (calls_bind _ _ 1 0); [apply calls_get_document_chunks|]. intros chunks.
  apply (calls_bind _ _ 0 0); [|intros ?; apply calls_ret].
  apply calls_lift, pure_no_exit_join_values.
Qed.

Lemma calls_load_transcript w transcript_path : calls 0 (load_transcript w transcript_path).
Proof.
  unfold load_transcript. apply (calls_bind _ _ 0 0); [apply calls_attempted|].
  intros data. apply calls_lift, pure_no_exit_get.
Qed.

Lemma pure_no_exit_format_transcript segments :
  pure_no_exit (format_transcript fixed1 repr segments).
Proof.
  unfold format_transcript.
  destruct (pure_no_exit_iterate segments) as [[segs ->]|[e ->]]; [|right; eauto].
  cbn [mbind outcome_bind].
  assert (pure_no_exit (collect (format_segment fixed1 repr) segs))
    as [[lines ->]|[e ->]]; [|left; eauto | right; eauto].
  apply pure_no_exit_collect. intros seg. unfold format_segment.
  destruct (pure_no_exit_get seg "speaker" (VStr "UNKNOWN")) as [[? ->]|[e ->]];
    [|right; eauto].
  destruct (pure_no_exit_get seg "text" (VStr "")) as [[? ->]|[e ->]]; [|right; eauto].
  destruct (pure_no_exit_get seg "start" (VInt 0)) as [[start ->]|[e ->]];
    [|right; eauto].
  cbn [mbind outcome_bind].
  destruct start; simpl; try destruct (int_overflows_float _);
    first [by left; eauto | by right; eauto].
Qed.

Lemma reports_print results : reports 0 (print (Json results);; mret results).
Proof. intros st. exists []. simpl. rewrite app_nil_r. repeat split; [lia | done]. Qed.

Lemma reports_bind {A} (m : M A) (k : A -> M value) n1 n2 :
  calls n1 m -> (∀ a, reports n2 (k a)) -> reports (n1 + n2) (m ≫= k).
Proof.
  intros Hm Hk st. unfold mbind, M_bind.
  destruct (Hm st) as (e1 & Hs1 & Hl1 & Ho1 & Hw1 & Hx1).
  destruct (m st) as [[a|e|c] st1]; simpl in *.
  - destruct (Hk a st1) as (e2 & Hs2 & Hl2 & Ho2 & Hw2 & Hx2).
    exists (e1 ++ e2). rewrite Hs2, Hs1, Ho2, Ho1, Hw2, Hw1, length_app, app_assoc.
    repeat split; [lia | done].
  - exists e1. rewrite app_nil_r. repeat split; try done. lia.
  - by destruct (Hx1 c).
Qed.

(** X9.  Whatever the transcript holds and whatever the services
    answer, a run of the analysis sends at most four requests (the
    chunks and the three chat calls, none tried again), prints on
    standard output the report exactly when it returns it and nothing
    when it raises, writes no file and does not leave through
    [sys.exit]. *)
Theorem run_full_analysis_bounds w transcript_path doc_id st :
  let run := run_full_analysis fixed1 repr w transcript_path doc_id st in
  ∃ extra,
    sent run.2 = sent st ++ extra ∧ (List.length extra <= 4)%nat
    ∧ stdout run.2
      = stdout st ++ match run.1 with Ret results => [Json results] | _ => [] end
    ∧ written run.2 = written st
    ∧ ∀ c, run.1 ≠ Exit c.
Proof.
  intros run. subst run. revert st.
  change (reports 4 (run_full_analysis fixed1 repr w transcript_path doc_id)).
  unfold run_full_analysis.
  apply (reports_bind _ _ 0 4); [apply calls_load_transcript|]. intros segments.
  apply (reports_bind _ _ 0 4);
    [apply calls_lift, pure_no_exit_format_transcript|]. intros text.
  apply (reports_bind _ _ 0 4); [apply calls_lift, pure_no_exit_len|]. intros n.
  apply (reports_bind _ _ 1 3); [apply calls_load_documents|]. intros [doc_text k].
  unfold coherence_analysis, tone_deception_analysis, adversarial_summary.
  apply (reports_bind _ _ 1 2);
    [apply (calls_bind _ _ 1 0); [apply calls_call_openai | intros ?; apply calls_ret]|].
  intros r1.
  apply (reports_bind _ _ 1 1);
    [apply (calls_bind _ _ 1 0); [apply calls_call_openai | intros ?; apply calls_ret]|].
  intros r2.
  apply (reports_bind _ _ 1 0);
    [apply (calls_bind _ _ 1 0); [apply calls_call_openai | intros ?; apply calls_ret]|].
  intros r3. apply reports_print.
Qed.

(** X10.  Without an OpenAI key the run still returns a report and
    prints it on standard output, once the transcript is loaded and
    formatted and the chunks are fetched.  The report holds the number
    of segments, the number of chunks and three analyses of the types
    ["coherence"], ["tone_deception"] and ["adversarial_summary"]: the
    analysis of each is the text that [call_openai] returns without a
    key, a cross mark followed by [OPENAI_API_KEY not set].  No chat
    request is sent. *)
Theorem run_full_analysis_without_key w transcript_path doc_id st
    data segs doc_text k st1 :
  unset (OPENAI_API_KEY w) = true ->
  json_file w transcript_path = Done data ->
  get data "segments" (VList []) = Ret (VList segs) ->
  forallb formattable segs = true ->
  load_documents w doc_id st = (Ret (doc_text, k), st1) ->
  ∃ results,
    run_full_analysis fixed1 repr w transcript_path doc_id st
    = (Ret results, printing (Json results) st1)
    ∧ report_holds (Z.of_nat (List.length segs)) k no_key no_key no_key results.
Proof.
  intros Hkey Hfile Hsegs Hfmt Hdocs.
  eexists. split; [|apply report_report_holds].
  rewrite (run_full_analysis_steps fixed1 repr w transcript_path doc_id st
             (VList segs) st (join nl (map (transcript_line fixed1 repr) segs))
             (Z.of_nat (List.length segs))).
  - rewrite Hdocs. unfold call_openai. by rewrite Hkey.
  - unfold load_transcript, mbind, M_bind, attempted, lift.
    rewrite Hfile. simpl. by rewrite Hsegs.
  - by apply format_transcript_ok.
  - done.
Qed.

(** X11.  A transcript with a segment that [format_transcript] cannot
    write (one that is no object, or whose start is no number or an
    [int] beyond the range of the floats) makes the run raise the
    exception of the first such segment, which is [AttributeError],
    [TypeError], [ValueError] or [OverflowError], before any request is
    sent and before anything is printed on standard output. *)
Theorem run_full_analysis_rejects w transcript_path doc_id st data segs e :
  json_file w transcript_path = Done data ->
  get data "segments" (VList []) = Ret (VList segs) ->
  head (omap format_error segs) = Some e ->
  run_full_analysis fixed1 repr w transcript_path doc_id st = (Raise e, st)
  ∧ e ∈ [AttributeError; TypeError; ValueError; OverflowError].
Proof.
  intros Hfile Hsegs Hfmt. split; [|by eapply first_error_kind].
  unfold run_full_analysis, load_transcript, mbind, M_bind, attempted, lift.
  rewrite Hfile. simpl. by rewrite Hsegs, format_transcript_run, Hfmt.
Qed.

(** X19.  The number of chunks in the report does not tell a missing
    document from a failure: [load_documents] gives the empty text and
    0 chunks without the credentials of the database, sending nothing,
    and also when the database answers with a status other than 200.
    A request that gets no response raises instead. *)
Theorem load_documents_silent w doc_id st :
  unset doc_id = false ->
  (unset (SUPABASE_URL w) || unset (SUPABASE_KEY w) = true ->
   load_documents w doc_id st = (Ret ("", 0), st))
  ∧ (unset (SUPABASE_URL w) || unset (SUPABASE_KEY w) = false ->
     ∀ resp,
       http w (sent st) (chunks_request w (env_text doc_id)) = Done resp ->
       status_code resp ≠ 200 ->
       load_documents w doc_id st
       = (Ret ("", 0), sending (chunks_request w (env_text doc_id)) st))
  ∧ (unset (SUPABASE_URL w) || unset (SUPABASE_KEY w) = false ->
     ∀ e,
       http w (sent st) (chunks_request w (env_text doc_id)) = Failed e ->
       load_documents w doc_id st
       = (Raise e, sending (chunks_request w (env_text doc_id)) st)).
Proof.
  intros Hdoc. unfold load_documents, get_document_chunks. rewrite Hdoc.
  split; [|split].
  - intros ->. done.
  - intros -> resp Hresp Hstatus. unfold mbind, M_bind, send. rewrite Hresp.
    apply Z.eqb_neq in Hstatus. by rewrite Hstatus.
  - intros -> e He. unfold mbind, M_bind, send. by rewrite He.
Qed.

End AnalysisMore.

Section AnalysisMoreRuns.
Import Py Adversarial Spec.

(** X8 on a transcript of two segments, on one whose first segment
    starts beyond the range of the floats, and on one whose only
    segment has [null] for its start. *)
Lemma format_transcript_lines_witness :
  format_transcript Scenarios.fixed1_int Scenarios.repr_none
    (VList [VDict [("start", VInt 0); ("end", VInt 2);
                   ("speaker", VStr "SPEAKER_00"); ("text", VStr "   ")];
            VDict Scenarios.speech_segment])
  = Ret ("[0.0s] SPEAKER_00:    " +:+ nl
         +:+ "[2.0s] SPEAKER_01: budget review for the budget")
  ∧ format_transcript Scenarios.fixed1_int Scenarios.repr_none
      (VList [VDict [("start", VInt (2 ^ 1024)); ("text", VStr "welcome")];
              VDict [("start", VStr "0:05"); ("text", VStr "thank you")]])
    = Raise OverflowError
  ∧ format_transcript Scenarios.fixed1_int Scenarios.repr_none
      (VList [VDict [("start", VNone)]])
    = Raise TypeError.
Proof.
  split; [|split].
  - exact (format_transcript_lines Scenarios.fixed1_int Scenarios.repr_none
             [VDict [("start", VInt 0); ("end", VInt 2);
                     ("speaker", VStr "SPEAKER_00"); ("text", VStr "   ")];
              VDict Scenarios.speech_segment]).
  - exact (format_transcript_lines Scenarios.fixed1_int Scenarios.repr_none
             [VDict [("start", VInt (2 ^ 1024)); ("text", VStr "welcome")];
              VDict [("start", VStr "0:05"); ("text", VStr "thank you")]]).
  - exact (format_transcript_lines Scenarios.fixed1_int Scenarios.repr_none
             [VDict [("start", VNone)]]).
Defined.

(** X10 on the transcript of two segments, with no service configured
    and no document. *)
Lemma run_full_analysis_without_key_witness :
  ∃ results,
    run_full_analysis Scenarios.fixed1_int Scenarios.repr_none Scenarios.offline
      "talk.json" None initial
    = (Ret results, printing (Json results) initial)
    ∧ report_holds 2 0 no_key no_key no_key results.
Proof.
  apply (run_full_analysis_without_key Scenarios.fixed1_int Scenarios.repr_none
           Scenarios.offline "talk.json" None initial Scenarios.silence_then_speech
           [VDict [("start", VInt 0); ("end", VInt 2);
                   ("speaker", VStr "SPEAKER_00"); ("text", VStr "   ")];
            VDict Scenarios.speech_segment] "" 0 initial);
    reflexivity.
Defined.

(** X11 on the transcript whose first segment starts beyond the range
    of the floats and whose second segment has a text for its start. *)
Lemma run_full_analysis_rejects_witness :
  run_full_analysis Scenarios.fixed1_int Scenarios.repr_none Scenarios.overflowing
    "talk.json" None initial = (Raise OverflowError, initial).
Proof.
  apply (run_full_analysis_rejects Scenarios.fixed1_int Scenarios.repr_none
           Scenarios.overflowing "talk.json" None initial Scenarios.beyond_floats
           [VDict [("start", VInt (2 ^ 1024)); ("text", VStr "welcome")];
            VDict [("start", VStr "0:05"); ("text", VStr "thank you")]]);
    reflexivity.
Defined.

(** X19 without credentials, with a database that answers 503, and
    with a database that cannot be reached. *)
Lemma load_documents_silent_witness :
  load_documents Scenarios.offline (Some "doc-1") initial = (Ret ("", 0), initial)
  ∧ load_documents Scenarios.unavailable (Some "doc-1") initial
    = (Ret ("", 0), sending (chunks_request Scenarios.unavailable "doc-1") initial)
  ∧ load_documents Scenarios.unreachable (Some "doc-1") initial
    = (Raise ConnectionError,
       sending (chunks_request Scenarios.unreachable "doc-1") initial).
Proof.
  split; [|split].
  - by apply (load_documents_silent Scenarios.offline (Some "doc-1") initial).
  - destruct (load_documents_silent Scenarios.unavailable (Some "doc-1") initial eq_refl)
      as (_ & Hstatus & _).
    by apply (Hstatus eq_refl {| status_code := 503; body := None |}).
  - destruct (load_documents_silent Scenarios.unreachable (Some "doc-1") initial eq_refl)
      as (_ & _ & Hfail).
    by apply (Hfail eq_refl ConnectionError).
Defined.

End AnalysisMoreRuns.

(** * Further properties of the ingestion script *)
Section IngestionMore.
Import Py DocIngest Spec.

Lemma store_rows_run w doc_id rows : forall i st,
  let reqs := imap (fun j row => row_request w doc_id (i + Z.of_nat j) row.1 row.2) rows in
  let run := store_rows w doc_id i rows st in
  ∃ m, (m <= List.length reqs)%nat
       ∧ sent run.2 = sent st ++ take m reqs
       ∧ stdout run.2 = stdout st ∧ written run.2 = written st
       ∧ ((run.1 = Ret tt ∧ m = List.length reqs) ∨ ∃ e, run.1 = Raise e)
       ∧ (always_answers w -> run.1 = Ret tt).
Proof.
  induction rows as [|[chunk embedding] rows IH]; intros i st reqs run.
  - exists 0%nat. subst reqs run. simpl. rewrite app_nil_r.
    repeat split; [lia | by left].
  - subst reqs run. rewrite imap_cons. cbn [store_rows fst snd].
    rewrite Z.add_0_r. unfold mbind, M_bind, send.
    destruct (http w (sent st) (row_request w doc_id i chunk embedding))
      as [resp|e] eqn:Hhttp.
    + destruct (IH (i + 1) (sending (row_request w doc_id i chunk embedding) st))
        as (m & Hm & Hsent & Hout & Hwr & Hres & Hok).
      rewrite (imap_ext _ (fun j row => row_request w doc_id (i + 1 + Z.of_nat j) row.1 row.2))
        by (intros j [c e] _; simpl; f_equal; lia).
      exists (S m). rewrite Hsent, Hout, Hwr. cbn [List.length take sent sending].
      rewrite <- app_assoc. repeat split; [lia | | done].
      destruct Hres as [[-> ->]|[e ->]]; [left | right]; eauto.
    + exists 1%nat. cbn [List.length take]. rewrite take_0. simpl.
      repeat split; [lia | right; eauto |].
      intros Hans. destruct (Hans (sent st) (row_request w doc_id i chunk embedding))
        as [resp Hresp]. congruence.
Qed.

Lemma store_chunks_run w doc_id chunks embeddings st :
  unset (SUPABASE_URL w) || unset (SUPABASE_KEY w) = false ->
  let rows := row_requests w doc_id chunks embeddings in
  let run := store_chunks_in_supabase w doc_id chunks embeddings st in
  (∃ m, (m <= List.length rows)%nat ∧ sent run.2 = sent st ++ take m rows)
  ∧ stdout run.2 = stdout st ∧ written run.2 = written st
  ∧ ((run.1 = Ret tt ∧ sent run.2 = sent st ++ rows) ∨ run.1 = Exit 1)
  ∧ (always_answers w -> run.1 = Ret tt).
Proof.
  intros Hcreds rows run. subst rows run.
  unfold store_chunks_in_supabase, row_requests. rewrite Hcreds. unfold try_except.
  destruct (store_rows_run w doc_id (zip chunks embeddings) 0 st)
    as (m & Hm & Hsent & Hout & Hwr & Hres & Hok).
  destruct (store_rows w doc_id 0 (zip chunks embeddings) st) as [[[]|e|c] st1];
    simpl in Hsent, Hout, Hwr, Hres, Hok.
  - simpl. split; [by exists m|]. repeat split; try done.
    left. split; [done|]. destruct Hres as [[_ ->]|[e ?]]; [|done].
    by rewrite Hsent, firstn_all.
  - simpl. split; [by exists m|]. repeat split; try done; [by right|].
    intros Hans. by apply Hok in Hans.
  - by destruct Hres as [[? _]|[e ?]].
Qed.

Lemma row_request_post w doc_id i chunk embedding :
  row_post w doc_id i chunk embedding (row_request w doc_id i chunk embedding).
Proof. by repeat split. Qed.

(** X12.  With the credentials of the database set,
    [store_chunks_in_supabase] posts the rows of
    [zip(chunks, embeddings)] in order, as many as the shorter of the
    two lists has: row [i], counted from 0, is a POST to the table
    [document_chunks] that carries the [doc_id], [i] as the chunk
    index, chunk [i] as the content and embedding [i].  The call never
    raises: it returns after the last row, or leaves with status 1 at
    the first request that fails to get a response.  The status of a
    response plays no part: when every request is answered, the call
    returns. *)
Theorem store_chunks_in_supabase_rows w doc_id chunks embeddings st :
  unset (SUPABASE_URL w) || unset (SUPABASE_KEY w) = false ->
  let rows := row_requests w doc_id chunks embeddings in
  let run := store_chunks_in_supabase w doc_id chunks embeddings st in
  List.length rows = (List.length chunks `min` List.length embeddings)%nat
  ∧ (∀ i chunk embedding,
       chunks !! i = Some chunk -> embeddings !! i = Some embedding ->
       ∃ r, rows !! i = Some r
            ∧ row_post w doc_id (Z.of_nat i) chunk embedding r)
  ∧ (∃ m, (m <= List.length rows)%nat ∧ sent run.2 = sent st ++ take m rows)
  ∧ stdout run.2 = stdout st ∧ written run.2 = written st
  ∧ ((run.1 = Ret tt ∧ sent run.2 = sent st ++ rows) ∨ run.1 = Exit 1)
  ∧ (always_answers w -> run.1 = Ret tt).
Proof.
  intros Hcreds rows run. split; [|split].
  - subst rows. unfold row_requests. by rewrite length_imap, length_zip.
  - intros i chunk embedding Hc He. subst rows. unfold row_requests.
    exists (row_request w doc_id (Z.of_nat i) chunk embedding).
    split; [|apply row_request_post].
    rewrite list_lookup_imap.
    assert (zip chunks embeddings !! i = Some (chunk, embedding)) as ->; [|done].
    apply lookup_zip_with_Some. eauto.
  - by apply store_chunks_run.
Qed.

(** X12 on one chunk and one embedding, with a database that rejects
    every row. *)
Lemma store_chunks_in_supabase_rows_witness :
  let run := store_chunks_in_supabase Scenarios.rejecting "doc-1" ["alpha beta gamma"]
               [Scenarios.sample_embedding] initial in
  run.1 = Ret tt
  ∧ ∃ r, sent run.2 = [r]
         ∧ row_post Scenarios.rejecting "doc-1" 0 "alpha beta gamma"
             Scenarios.sample_embedding r.
Proof.
  destruct (store_chunks_in_supabase_rows Scenarios.rejecting "doc-1"
              ["alpha beta gamma"] [Scenarios.sample_embedding] initial eq_refl)
    as (_ & Hrow & _ & _ & _ & Hres & Hok).
  assert (always_answers Scenarios.rejecting) as Hans.
  { intros history r. simpl. destruct (String.eqb _ _); eauto. }
  split; [by apply Hok|].
  destruct (Hrow 0%nat "alpha beta gamma" Scenarios.sample_embedding eq_refl eq_refl)
    as (r & Hr & Hpost).
  exists r. split; [|exact Hpost].
  destruct Hres as [[_ Hsent]|Hexit].
  - rewrite Hsent. injection Hr as <-. reflexivity.
  - apply Hok in Hans. rewrite Hexit in Hans. discriminate Hans.
Defined.

Lemma embeddings_call_run w texts st :
  let call :=
    (response ← send w (embeddings_request w texts);
     raise_for_status response;;
     data ← json response;
     items ← lift (item data "data");
     items ← lift (iterate items);
     lift (collect (fun entry => item entry "embedding") items)) st in
  call.2 = sending (embeddings_request w texts) st ∧ pure_no_exit call.1.
Proof.
  unfold mbind, M_bind, send.
  destruct (http w (sent st) _) as [resp|e]; [|split; [done | right; eauto]].
  unfold raise_for_status.
  destruct (_ && _); [split; [done | right; eauto]|]. simpl.
  unfold json. destruct (body resp) as [reply|]; [|split; [done | right; eauto]].
  simpl. unfold lift.
  destruct (pure_no_exit_item reply "data") as [[data ->]|[e ->]];
    [|split; [done | right; eauto]].
  destruct (pure_no_exit_iterate data) as [[items ->]|[e ->]];
    [|split; [done | right; eauto]].
  split; [done|]. apply pure_no_exit_collect. intros entry. apply pure_no_exit_item.
Qed.

Lemma get_embeddings_run w texts st :
  let run := get_embeddings w texts st in
  ((∃ embeddings, run.1 = Ret embeddings ∧ stdout run.2 = stdout st)
   ∨ (run.1 = Exit 1 ∧ ∃ message, stdout run.2 = stdout st ++ [Text message]))
  ∧ sent run.2
    = sent st ++ (if unset (OPENAI_API_KEY w) then []
                  else [embeddings_request w texts])
  ∧ written run.2 = written st.
Proof.
  intros run. subst run. unfold get_embeddings.
  destruct (unset (OPENAI_API_KEY w)).
  - simpl. rewrite app_nil_r. split; [right; eauto | done].
  - unfold try_except.
    destruct (embeddings_call_run w texts st) as [Hst Hpure]. cbv zeta in Hst, Hpure.
    destruct ((send w (embeddings_request w texts) ≫= _) st) as [r st1].
    cbn [fst snd] in Hst, Hpure. subst st1.
    destruct Hpure as [[embeddings ->]|[e ->]]; simpl.
    + split; [left; eauto | done].
    + split; [right; eauto | done].
Qed.

Lemma embeddings_request_call w texts : embeddings_call texts (embeddings_request w texts).
Proof. by repeat split. Qed.

(** X13.  [get_embeddings] asks for the embeddings of all the texts
    in one request, which carries the list of the texts as its input
    (no request without a key), and never raises: it returns the
    embeddings, having printed nothing on standard output, or prints
    one message there and leaves with status 1. *)
Theorem get_embeddings_outcome w texts st :
  let run := get_embeddings w texts st in
  ((∃ embeddings, run.1 = Ret embeddings ∧ stdout run.2 = stdout st)
   ∨ (run.1 = Exit 1 ∧ ∃ message, stdout run.2 = stdout st ++ [Text message]))
  ∧ (∃ r, embeddings_call texts r
          ∧ sent run.2 = sent st ++ (if unset (OPENAI_API_KEY w) then [] else [r]))
  ∧ written run.2 = written st.
Proof.
  intros run. destruct (get_embeddings_run w texts st) as (Hout & Hsent & Hwr).
  split; [exact Hout|]. split; [|exact Hwr].
  exists (embeddings_request w texts). split; [apply embeddings_request_call|].
  exact Hsent.
Qed.

Lemma extract_text_run w pdf file_path st :
  let run := extract_text w pdf file_path st in
  (∃ text, run = (Ret text, st))
  ∨ (∃ e, run = (Raise e, st))
  ∨ (run.1 = Exit 1 ∧ ∃ message, run.2 = printing (Text message) st).
Proof.
  intros run. subst run. unfold extract_text.
  destruct (String.eqb _ ".txt").
  { unfold attempted. destruct (text_file w file_path); [left | right; left]; eauto. }
  destruct (String.eqb _ ".pdf"); [|right; right; simpl; eauto].
  unfold try_except_import, mbind, M_bind, attempted.
  destruct (pdf_pages pdf file_path) as [pages|e]; simpl; [left; eauto|].
  destruct e; try (right; left; eauto; fail). right; right; simpl; eauto.
Qed.

(** The run of [ingest_document], step by step. *)
Lemma ingest_document_steps w pdf file_path doc_id st :
  ingest_document w pdf file_path doc_id st
  = match extract_text w pdf file_path st with
    | (Ret text, st0) =>
        match get_embeddings w (chunk_text_default text) st0 with
        | (Ret embeddings, st1) =>
            match store_chunks_in_supabase w doc_id (chunk_text_default text)
                    embeddings st1 with
            | (Ret _, st2) =>
                (Ret (ingest_result doc_id (chunk_text_default text)),
                 printing (Json (ingest_result doc_id (chunk_text_default text))) st2)
            | (Raise e, st2) => (Raise e, st2)
            | (Exit c, st2) => (Exit c, st2)
            end
        | (Raise e, st1) => (Raise e, st1)
        | (Exit c, st1) => (Exit c, st1)
        end
    | (Raise e, st0) => (Raise e, st0)
    | (Exit c, st0) => (Exit c, st0)
    end.
Proof.
  unfold ingest_document, mbind at 1, M_bind at 1.
  destruct (extract_text w pdf file_path st) as [[text|e|c] st0]; [|done|done].
  unfold mbind at 1, M_bind at 1.
  destruct (get_embeddings w (chunk_text_default text) st0)
    as [[embeddings|e|c] st1]; [|done|done].
  unfold mbind at 1, M_bind at 1.
  by destruct (store_chunks_in_supabase w doc_id (chunk_text_default text) embeddings st1)
    as [[[]|e|c] st2].
Qed.

(** X14.  A run of [ingest_document] ends in one of three ways: it
    returns the result, it leaves with status 1, or it raises what
    reading the file raised, before anything is sent or printed on
    standard output.  No failure of the embedding service or of the
    database comes out as an exception, and no file is written. *)
Theorem ingest_document_outcome w pdf file_path doc_id st :
  let run := ingest_document w pdf file_path doc_id st in
  ((∃ result, run.1 = Ret result)
   ∨ run.1 = Exit 1
   ∨ (∃ e, run = (Raise e, st) ∧ extract_text w pdf file_path st = (Raise e, st)))
  ∧ written run.2 = written st.
Proof.
  intros run. subst run. rewrite ingest_document_steps.
  destruct (extract_text_run w pdf file_path st)
    as [[text Ht]|[[e Ht]|[Hexit [message Hst]]]].
  - rewrite Ht.
    destruct (get_embeddings_run w (chunk_text_default text) st)
      as ([(embeddings & He & _)|[He _]] & _ & Hwr);
      destruct (get_embeddings w (chunk_text_default text) st) as [r st1];
      simpl in He, Hwr; subst r; [|split; [right; left; done | done]].
    destruct (unset (SUPABASE_URL w) || unset (SUPABASE_KEY w)) eqn:Hcreds.
    { unfold store_chunks_in_supabase. rewrite Hcreds. unfold mbind, M_bind. simpl.
      split; [right; left; done | done]. }
    destruct (store_chunks_run w doc_id (chunk_text_default text) embeddings st1 Hcreds)
      as (_ & _ & Hwr2 & Hres & _).
    destruct (store_chunks_in_supabase w doc_id (chunk_text_default text) embeddings st1)
      as [r st2]. simpl in Hwr2, Hres.
    destruct Hres as [[-> _]| ->]; simpl.
    + split; [left; eauto | congruence].
    + split; [right; left; done | congruence].
  - rewrite Ht. split; [|done]. right; right. eauto.
  - destruct (extract_text w pdf file_path st) as [r st0]. simpl in Hexit, Hst.
    subst r st0. split; [right; left; done | done].
Qed.

(** X15.  Once the text is extracted and the embeddings are returned,
    with the credentials of the database set and every row request
    answered, [ingest_document] returns the result with status
    ["success"] and prints it, whatever the status of the answers: a
    row that the database rejects does not change the result. *)
Theorem ingest_document_ignores_status w pdf file_path doc_id st text st0
    embeddings st1 :
  extract_text w pdf file_path st = (Ret text, st0) ->
  get_embeddings w (chunk_text_default text) st0 = (Ret embeddings, st1) ->
  unset (SUPABASE_URL w) || unset (SUPABASE_KEY w) = false ->
  always_answers w ->
  let chunks := chunk_text_default text in
  let result := ingest_result doc_id chunks in
  ∃ st',
    ingest_document w pdf file_path doc_id st = (Ret result, st')
    ∧ sent st' = sent st1 ++ row_requests w doc_id chunks embeddings
    ∧ stdout st' = stdout st ++ [Json result]
    ∧ item result "status" = Ret (VStr "success").
Proof.
  intros Ht He Hcreds Hans chunks result. subst chunks result.
  rewrite ingest_document_steps, Ht, He.
  destruct (store_chunks_run w doc_id (chunk_text_default text) embeddings st1 Hcreds)
    as (_ & Hout & _ & Hres & Hok).
  specialize (Hok Hans).
  destruct (store_chunks_in_supabase w doc_id (chunk_text_default text) embeddings st1)
    as [r st2]. simpl in Hout, Hres, Hok. subst r.
  destruct Hres as [[_ Hsent]|Hexit]; [|done].
  eexists. split; [reflexivity|]. simpl. split; [done|]. split; [|done].
  apply extract_text_returns in Ht. apply get_embeddings_returns in He. congruence.
Qed.

(** X15 on a text file of three words with a database that answers
    every row with status 500. *)
Lemma ingest_document_ignores_status_witness :
  ∃ st',
    ingest_document Scenarios.rejecting Scenarios.no_pdf "notes.txt" "doc-1" initial
    = (Ret (ingest_result "doc-1" ["alpha beta gamma"]), st')
    ∧ List.length (sent st') = 2%nat
    ∧ stdout st' = [Json (ingest_result "doc-1" ["alpha beta gamma"])].
Proof.
  destruct (ingest_document_ignores_status Scenarios.rejecting Scenarios.no_pdf
              "notes.txt" "doc-1" initial "alpha beta gamma" initial
              [Scenarios.sample_embedding]
              (sending (embeddings_request Scenarios.rejecting ["alpha beta gamma"])
                 initial))
    as (st' & Hrun & Hsent & Hout & _).
  - reflexivity.
  - reflexivity.
  - reflexivity.
  - intros history r. simpl. destruct (String.eqb _ _); eauto.
  - exists st'. split; [exact Hrun|]. split; [by rewrite Hsent | exact Hout].
Defined.

Lemma append_associative (s t u : string) : (s +:+ t) +:+ u = s +:+ t +:+ u.
Proof. induction s as [|c s IH]; [done|]. by rewrite !append_cons, IH. Qed.

Lemma concat_empty_cons (x : string) (l : list string) :
  String.concat "" (x :: l) = x +:+ String.concat "" l.
Proof. destruct l; simpl; [by rewrite append_empty_r | done]. Qed.

Lemma pages_text_lines pages : forall text,
  pages_text pages text = text +:+ String.concat "" (page_lines pages).
Proof.
  unfold page_lines.
  induction pages as [|[page_text|] pages IH]; intros text; cbn [pages_text].
  - simpl. by rewrite append_empty_r.
  - rewrite IH.
    change (omap id (Some page_text :: pages)) with (page_text :: omap id pages).
    rewrite filter_cons. destruct (str_truthy page_text) eqn:Hp.
    + rewrite decide_True by done. cbn [map].
      by rewrite concat_empty_cons, append_associative.
    + by rewrite decide_False by done.
  - apply IH.
Qed.

(** X16.  For a path that ends in [.pdf], in any letter case, and a
    file that the PDF library opens, [extract_text] returns the texts
    of the pages that have one, in order and each followed by a
    newline; nothing is sent and nothing is printed on standard
    output. *)
Theorem extract_text_pdf w pdf file_path pages st :
  lower (splitext_ext file_path) = ".pdf" ->
  pdf_pages pdf file_path = Done pages ->
  extract_text w pdf file_path st = (Ret (String.concat "" (page_lines pages)), st).
Proof.
  intros Hext Hpages. unfold extract_text. rewrite Hext. simpl.
  unfold try_except_import, mbind, M_bind, attempted. rewrite Hpages. simpl.
  by rewrite pages_text_lines, append_nil_l.
Qed.

(** X16 on a file of three pages, the second without text. *)
Lemma extract_text_pdf_witness :
  extract_text Scenarios.rejecting Scenarios.three_pages "Report.PDF" initial
  = (Ret ("first page" +:+ nl +:+ "third page" +:+ nl), initial).
Proof.
  apply (extract_text_pdf Scenarios.rejecting Scenarios.three_pages "Report.PDF"
           [Some "first page"; None; Some "third page"] initial); reflexivity.
Defined.

End IngestionMore.

(** * Further properties of the transcription script *)
Section TranscriptionMore.
Import Py Transcribe Spec.

Variable float_round : float64 -> Z -> float64.

(** X17.  A run of [transcribe_and_diarize] ends in one of three
    ways.  It returns the transcript, and then it has written that
    transcript, once, to [output_path].  It raises an exception that is
    not [ImportError], and then no file is written: so when WhisperX
    fails in any other way than by a missing library, plain Whisper is
    not tried.  Or it leaves with status 1, without a file, and this
    only when both libraries are missing. *)
Theorem transcribe_and_diarize_outcomes w lib audio_path output_path hf_token st :
  let run := transcribe_and_diarize float_round w lib audio_path output_path hf_token st in
  let whisperx := with_whisperx float_round w lib audio_path output_path hf_token st in
  let whisper := with_whisper float_round w lib audio_path output_path st in
  ((∃ transcript,
       run.1 = Ret transcript
       ∧ written run.2
         = written st ++ [(output_path, transcript_document transcript)])
   ∨ (∃ e, run.1 = Raise e ∧ e ≠ ImportError ∧ written run.2 = written st)
   ∨ (run.1 = Exit 1 ∧ written run.2 = written st
      ∧ whisperx.1 = Raise ImportError ∧ whisper.1 = Raise ImportError))
  ∧ (∀ e, whisperx.1 = Raise e -> e ≠ ImportError -> run.1 = Raise e).
Proof.
  intros run whisperx whisper. subst run whisperx whisper.
  rewrite transcribe_and_diarize_steps.
  destruct (with_whisperx_cases float_round w lib audio_path output_path hf_token st)
    as [(t & st1 & (_ & Hwr & _) & Hx)|(e & s1 & Hx & (_ & Hwr & _))]; rewrite Hx.
  { split; [|done]. left. exists t. simpl. by rewrite Hwr. }
  assert (e = ImportError ∨ e ≠ ImportError) as [->|Hne]
    by (destruct e; (by left) || (by right)).
  - split; [|by intros e [= <-]].
    set (s2 := printing _ s1).
    pose proof (with_whisper_outcome float_round w lib audio_path output_path st s2)
      as Hsame.
    destruct (with_whisper_cases float_round w lib audio_path output_path s2)
      as [(t & st2 & (_ & Hwr2 & _) & Heq)|(e & s3 & Heq & (_ & Hwr3 & _))];
      rewrite Heq in *.
    + left. exists t. simpl. split; [done|]. by rewrite Hwr2, <- Hwr.
    + assert (e = ImportError ∨ e ≠ ImportError) as [->|Hne]
        by (destruct e; (by left) || (by right)).
      * right; right. simpl. split; [done|]. split; [by rewrite Hwr3, <- Hwr | done].
      * right; left. exists e. destruct e; try done; simpl; by rewrite Hwr3, <- Hwr.
  - split; [right; left; exists e; destruct e; done|].
    intros e' [= <-] _. by destruct e.
Qed.

End TranscriptionMore.

Section Pipeline.
Import Py Transcribe Spec.

Variable float_round : float64 -> Z -> float64.
Variable fixed1 : value -> string.
Variable repr : value -> string.

Lemma round_is_number v ndigits r :
  round float_round v ndigits = Ret r -> is_number r = true.
Proof. destruct v; simpl; try done; by intros [= <-]. Qed.

(** An entry of a transcript is a segment that both readers accept. *)
Lemma entry_function_accepted whisperx seg entry :
  entry_function float_round whisperx seg = Ret entry ->
  is_Some (segment_text entry) ∧ stamped entry = true.
Proof.
  destruct whisperx; unfold entry_function, whisperx_entry, whisper_entry,
    mbind, outcome_bind.
  all: destruct seg as [| | | | | |d]; simpl; try done.
  all: destruct (round float_round (default (VInt 0) (lookup_key "start" d)) 2)
    as [start| |] eqn:Hs; [|done|done].
  all: destruct (round float_round (default (VInt 0) (lookup_key "end" d)) 2)
    as [end_| |] eqn:He; [|done|done].
  all: destruct (default (VStr "") (lookup_key "text" d)) as [| | | |text| |] eqn:Ht;
    simpl; try done.
  all: intros [= <-]; apply round_is_number in Hs; split; [by eexists | done].
Qed.

Lemma transcribe_and_diarize_entries w lib audio_path output_path hf_token st
    transcript st' :
  transcribe_and_diarize float_round w lib audio_path output_path hf_token st
  = (Ret transcript, st') ->
  written st' = written st ++ [(output_path, transcript_document transcript)]
  ∧ Forall (fun entry => is_Some (segment_text entry) ∧ stamped entry = true)
      transcript.
Proof.
  intros (whisperx & result & st1 & _ & (_ & Hwr & _) & Hsave)
    %transcribe_and_diarize_returns.
  apply save_transcript_returns in Hsave as (segments & segs & _ & _ & Hc & ->).
  split; [simpl; by rewrite Hwr|].
  apply collect_ret in Hc. clear -Hc.
  induction Hc as [|seg entry segs' transcript' He _ IH]; constructor;
    [by eapply entry_function_accepted | exact IH].
Qed.

(** X18.  What [transcribe_and_diarize] returns and writes is a
    transcript that the two other scripts accept.  Read back from the
    file, it makes [process_live_context] return after one line for
    each entry with a text, and it passes [load_transcript] and
    [format_transcript] of the analysis, which gives one line for each
    entry: no entry lacks a string for its text or a number for its
    start (an [int] among the starts has to be within the range of the
    floats). *)
Theorem transcript_feeds_readers w lib audio_path output_path hf_token st
    transcript st' :
  transcribe_and_diarize float_round w lib audio_path output_path hf_token st
  = (Ret transcript, st') ->
  written st' = written st ++ [(output_path, transcript_document transcript)]
  ∧ ∀ w', json_file w' output_path = Done (transcript_document transcript) ->
      (∀ doc_id top_n s,
         ∃ s' lines,
           LiveContext.process_live_context w' output_path doc_id top_n s = (Ret tt, s')
           ∧ stdout s' = stdout s ++ map Json lines
           ∧ Forall2 (line_of w' doc_id top_n)
               (filter (fun entry => spoken entry = true) transcript) (map Json lines))
      ∧ (∀ s, Adversarial.load_transcript w' output_path s = (Ret (VList transcript), s))
      ∧ (forallb (fun entry => in_float_range (field_or entry "start" (VInt 0)))
           transcript = true ->
         forallb formattable transcript = true
         ∧ Adversarial.format_transcript fixed1 repr (VList transcript)
           = Ret (join nl (map (transcript_line fixed1 repr) transcript))).
Proof.
  intros Hrun.
  apply transcribe_and_diarize_entries in Hrun as (Hwr & Hok).
  split; [done|]. intros w' Hfile.
  split; [|split].
  - intros doc_id top_n s.
    destruct (for_each_segment_lines w' doc_id top_n transcript s)
      as (s' & lines & Hloop & Hout & Hlines).
    { eapply Forall_impl; [exact Hok|]. by intros entry [? _]. }
    exists s', lines. split; [|done].
    unfold LiveContext.process_live_context, LiveContext.load_transcript,
      mbind, M_bind, attempted, lift.
    rewrite Hfile. exact Hloop.
  - intros s. unfold Adversarial.load_transcript, mbind, M_bind, attempted, lift.
    by rewrite Hfile.
  - intros Hrange.
    assert (forallb formattable transcript = true) as Hfmt.
    { clear Hfile Hwr.
      induction Hok as [|entry transcript' [_ He] _ IH]; [done|].
      cbn [forallb] in Hrange |- *. apply andb_prop in Hrange as [Hr Hrange].
      rewrite (IH Hrange). unfold formattable. by rewrite He, Hr. }
    split; [exact Hfmt | by apply format_transcript_ok].
Qed.

End Pipeline.

Section TranscriptionMoreRuns.
Import Py Transcribe Spec.

(** X17 where no speech library is installed: status 1 and no file. *)
Lemma transcribe_and_diarize_outcomes_witness :
  let run := transcribe_and_diarize double_round Scenarios.offline
               Scenarios.no_speech_library "talk.wav" "talk.json" None initial in
  run.1 = Exit 1 ∧ written run.2 = [].
Proof.
  destruct (transcribe_and_diarize_outcomes double_round Scenarios.offline
              Scenarios.no_speech_library "talk.wav" "talk.json" None initial)
    as [[[t [Hrun _]]|[[e [Hrun _]]|(Hexit & Hwr & _)]] _].
  - discriminate Hrun.
  - discriminate Hrun.
  - split; [exact Hexit | exact Hwr].
Defined.

(** X18 where only plain Whisper is installed: the transcript of two
    entries gives two lines in the live context and two lines in the
    formatted transcript. *)
Lemma transcript_feeds_readers_witness :
  (∃ s' lines,
      LiveContext.process_live_context Scenarios.transcribed "talk.json" "doc-1" 3 initial
      = (Ret tt, s')
      ∧ stdout s' = map Json lines ∧ List.length lines = 2%nat)
  ∧ Adversarial.format_transcript Scenarios.fixed1_int Scenarios.repr_none
      (VList Scenarios.whisper_transcript)
    = Ret (join nl (map (transcript_line Scenarios.fixed1_int Scenarios.repr_none)
                      Scenarios.whisper_transcript)).
Proof.
  assert (∃ st',
            transcribe_and_diarize double_round Scenarios.offline Scenarios.whisper_only
              "talk.wav" "talk.json" None initial
            = (Ret Scenarios.whisper_transcript, st')) as [st' Hwritten]
    by (eexists; vm_compute; reflexivity).
  destruct (transcript_feeds_readers double_round Scenarios.fixed1_int
              Scenarios.repr_none Scenarios.offline Scenarios.whisper_only
              "talk.wav" "talk.json" None initial Scenarios.whisper_transcript
              st' Hwritten) as [_ Hreaders].
  destruct (Hreaders Scenarios.transcribed eq_refl) as (Hlive & _ & Hformat).
  split; [|by apply Hformat].
  destruct (Hlive "doc-1" 3 initial) as (s' & lines & Hrun & Hout & Hlines).
  exists s', lines. split; [exact Hrun|]. split; [exact Hout|].
  apply Forall2_length in Hlines. rewrite length_map in Hlines.
  rewrite <- Hlines. reflexivity.
Defined.

End TranscriptionMoreRuns.

(** * The search step when the services answer *)
Section SearchAnswers.
Import Py LiveContext Spec.

(** X20.  For a spoken segment, with the key and the credentials set:
    when the embedding service answers without an error status and
    with an embedding that is not empty, and the RPC answers with
    status 200, the line printed for the segment holds the fields of
    the segment, the keywords of its text and, under
    ["context_matches"], the body of that answer as it is.  Two
    requests are sent: the request for the embedding of the text, then
    the RPC call with this embedding, [top_n] as the match count and
    [doc_id] as the filter. *)
Theorem process_segment_matches w doc_id top_n seg text st reply data embedding
    answer rows :
  segment_text seg = Some text ->
  str_truthy (strip text) = true ->
  unset (OPENAI_API_KEY w) = false ->
  unset (SUPABASE_URL w) || unset (SUPABASE_KEY w) = false ->
  http w (sent st) (embedding_request w text) = Done reply ->
  (400 <=? status_code reply) && (status_code reply <? 600) = false ->
  body reply = Some data ->
  (entries ← item data "data"; entry ← first entries; item entry "embedding")
  = Ret embedding ->
  truthy embedding = true ->
  http w (sent st ++ [embedding_request w text])
    (rpc_request w embedding doc_id top_n) = Done answer ->
  status_code answer = 200 ->
  body answer = Some rows ->
  ∃ line ask rpc,
    process_segment w doc_id top_n seg st
    = (Ret tt, printing line (sending rpc (sending ask st)))
    ∧ line_holds seg text rows line
    ∧ ask = embedding_request w text ∧ embedding_call text ask
    ∧ rpc = rpc_request w embedding doc_id top_n
    ∧ rpc_call w embedding doc_id top_n rpc.
Proof.
  intros Ht Hspoken Hkey Hdb Hreply Hstatus Hbody Hemb Htruthy Hanswer H200 Hrows.
  eexists _, (embedding_request w text), (rpc_request w embedding doc_id top_n).
  split; [|split; [apply result_line_holds|]].
  2:{ split; [done|]. split; [apply embedding_request_call|].
      split; [done | apply rpc_request_call]. }
  rewrite (process_segment_run _ _ _ _ _ _ Ht), Hspoken.
  assert (find_matches w text doc_id top_n st
          = (Ret rows,
             sending (rpc_request w embedding doc_id top_n)
               (sending (embedding_request w text) st))) as ->; [|done].
  unfold find_matches, try_except, mbind, M_bind, get_embedding.
  rewrite Hkey. unfold mbind, M_bind, send. rewrite Hreply.
  unfold raise_for_status. rewrite Hstatus. simpl.
  unfold json. rewrite Hbody. simpl. unfold lift.
  revert Hemb. unfold mbind, outcome_bind.
  destruct (item data "data") as [entries| |]; [|done|done].
  destruct (first entries) as [entry| |]; [|done|done].
  intros ->. rewrite Htruthy.
  unfold semantic_search. rewrite Hdb. unfold mbind, M_bind, send. simpl.
  rewrite Hanswer, H200. simpl. unfold json. by rewrite Hrows.
Qed.

(** X20 on the spoken segment, with services that answer. *)
Lemma process_segment_matches_witness :
  ∃ line ask rpc,
    process_segment Scenarios.serving "doc-1" 3 (VDict Scenarios.speech_segment) initial
    = (Ret tt, printing line (sending rpc (sending ask initial)))
    ∧ line_holds (VDict Scenarios.speech_segment) "budget review for the budget"
        (VList [Scenarios.first_row]) line
    ∧ embedding_call "budget review for the budget" ask
    ∧ rpc_call Scenarios.serving Scenarios.sample_embedding "doc-1" 3 rpc.
Proof.
  destruct (process_segment_matches Scenarios.serving "doc-1" 3
              (VDict Scenarios.speech_segment) "budget review for the budget" initial
              {| status_code := 200; body := Some Scenarios.embeddings_reply |}
              Scenarios.embeddings_reply Scenarios.sample_embedding
              {| status_code := 200; body := Some (VList [Scenarios.first_row]) |}
              (VList [Scenarios.first_row]))
    as (line & ask & rpc & Hrun & Hline & _ & Hask & _ & Hrpc);
    [reflexivity..|].
  exists line, ask, rpc. split; [exact Hrun|]. split; [exact Hline|].
  split; [exact Hask | exact Hrpc].
Defined.

End SearchAnswers.
